(** * DatasetDiskManager: on-disk layout and sample counters

    A shallow embedding of [generic_dataset/dataset_disk_manager.py].

    The Python class keeps two integer attributes (the number of negative
    and of positive samples), creates a directory tree at construction and
    names the files of every saved sample from the counters.  The embedding
    passes the object, the disk and a trace of what a run does explicitly.

    Conventions:
    - a Python [int] that only ever holds a length or a counter is a [nat];
    - a [str] is a [string];
    - a call either returns or raises (an [outcome]); the state that comes
      with a raised exception is the state at the moment of the [raise],
      since Python does not roll anything back;
    - the disk is a finite map from path spellings to nodes; a path names a
      node by its exact spelling (no symbolic links, no normalisation of
      duplicate or trailing separators, no permissions);
    - [os.path] and [os] follow [posixpath] and the documented errors of
      [os.mkdir] and [os.listdir];
    - the sample class is an interface: a record of what the manager calls.

    The file has two readings of [save_sample].  In the first a call runs
    from its first line to its last, the block under the lock included, and
    a started thread runs its target at some later moment.  In the second,
    concurrent calls advance line by line under an arbitrary scheduler and
    the lock is a flag that a call has to find free. *)

From Stdlib Require Import String Ascii List Arith Lia DecimalString DecimalNat.
From stdpp Require Import gmap strings list fin_maps.

Local Open Scope string_scope.

(** ** Strings *)

(** [str(n)] for a non-negative Python integer: its decimal numeral. *)
Definition str (n : nat) : string := NilEmpty.string_of_uint (Nat.to_uint n).

Definition is_sep (c : ascii) : bool := bool_decide (c = "/"%char).

(** [s.startswith('/')] *)
Definition startswith_sep (s : string) : bool :=
  match s with
  | String c _ => is_sep c
  | EmptyString => false
  end.

(** [s.endswith('/')] *)
Fixpoint endswith_sep (s : string) : bool :=
  match s with
  | EmptyString => false
  | String c EmptyString => is_sep c
  | String _ r => endswith_sep r
  end.

(** ['/' in s] *)
Fixpoint has_sep (s : string) : bool :=
  match s with
  | EmptyString => false
  | String c r => is_sep c || has_sep r
  end.

(** [s == '/' * len(s)] *)
Fixpoint all_sep (s : string) : bool :=
  match s with
  | EmptyString => true
  | String c r => is_sep c && all_sep r
  end.

(** [s.rstrip('/')] *)
Fixpoint rstrip_sep (s : string) : string :=
  match s with
  | EmptyString => EmptyString
  | String c r =>
      match rstrip_sep r with
      | EmptyString => if is_sep c then EmptyString else String c EmptyString
      | r' => String c r'
      end
  end.

(** [s[:s.rfind('/') + 1]]: the prefix of [s] up to and including its last
    separator, empty when there is none. *)
Fixpoint upto_last_sep (s : string) : string :=
  match s with
  | EmptyString => EmptyString
  | String c r =>
      if has_sep r then String c (upto_last_sep r)
      else if is_sep c then String c EmptyString
      else EmptyString
  end.

(** [s[s.rfind('/') + 1:]]: what follows the last separator. *)
Fixpoint after_last_sep (s : string) : string :=
  match s with
  | EmptyString => EmptyString
  | String c r =>
      if has_sep r then after_last_sep r
      else if is_sep c then r
      else s
  end.

(** ** Exceptions, outcomes and the state monad *)

Inductive exn : Type :=
| FileNotFoundError
| FileExistsError
| NotADirectoryError
| IndexError
| TypeError
| OSError.

Inductive outcome (A : Type) : Type :=
| Returned (a : A)
| Raised (e : exn).
Arguments Returned {A} a.
Arguments Raised {A} e.

(** A computation over a state [S]: it returns or raises, and in both cases
    leaves a state behind. *)
Definition M (S A : Type) : Type := S -> outcome A * S.

Definition ret {S A} (a : A) : M S A := fun s => (Returned a, s).

Definition raise {S A} (e : exn) : M S A := fun s => (Raised e, s).

Definition bind {S A B} (m : M S A) (k : A -> M S B) : M S B :=
  fun s =>
    match m s with
    | (Returned a, s') => k a s'
    | (Raised e, s') => (Raised e, s')
    end.

Definition get {S} : M S S := fun s => (Returned s, s).

Definition modify {S} (f : S -> S) : M S unit := fun s => (Returned tt, f s).

Declare Scope py_scope.
Delimit Scope py_scope with py.
Notation "x <- m ;; k" := (bind m (fun x => k))
  (at level 100, m at next level, right associativity) : py_scope.
Notation "m ;;; k" := (bind m (fun _ => k))
  (at level 100, right associativity) : py_scope.
Local Open Scope py_scope.

(** [for x in l: body x] *)
Fixpoint for_each {S A} (l : list A) (body : A -> M S unit) : M S unit :=
  match l with
  | [] => ret tt
  | x :: r => body x ;;; for_each r body
  end.

(** [if c: body] *)
Definition when {S} (c : bool) (body : M S unit) : M S unit :=
  if c then body else ret tt.

(** ** The disk *)

Inductive node : Type := Dir | File.

#[global] Instance node_eq_dec : EqDecision node.
Proof. solve_decision. Defined.

Abbreviation filesystem := (gmap string node).

(** What a path names.  The empty path names nothing. *)
Definition stat (fs : filesystem) (p : string) : option node :=
  if bool_decide (p = "") then None else fs !! p.

(** ** [os.path] (posixpath) *)

Module os_path.

(** One round of the loop of [posixpath.join]. *)
Definition join2 (path b : string) : string :=
  if startswith_sep b then b
  else if bool_decide (path = "") || endswith_sep path then path +:+ b
  else path +:+ "/" +:+ b.

(** [os.path.join(a, *p)] *)
Definition join (a : string) (p : list string) : string :=
  fold_left join2 p a.

(** [os.path.dirname(p)] *)
Definition dirname (p : string) : string :=
  let head := upto_last_sep p in
  if negb (bool_decide (head = "")) && negb (all_sep head)
  then rstrip_sep head else head.

(** [os.path.basename(p)] *)
Definition basename (p : string) : string := after_last_sep p.

(** [os.path.exists(p)] *)
Definition exists_ (fs : filesystem) (p : string) : bool :=
  bool_decide (is_Some (stat fs p)).

(** [os.path.isfile(p)] *)
Definition isfile (fs : filesystem) (p : string) : bool :=
  bool_decide (stat fs p = Some File).

End os_path.

(** ** [os] *)

Module os.

(** [os.mkdir(p)]: the parent must be a directory and [p] must be free;
    no intermediate directory is created. *)
Definition mkdir (p : string) : M filesystem unit :=
  fun fs =>
    match stat fs p with
    | Some _ => (Raised FileExistsError, fs)
    | None =>
        match stat fs (os_path.dirname p) with
        | Some Dir => (Returned tt, <[p := Dir]> fs)
        | Some File => (Raised NotADirectoryError, fs)
        | None => (Raised FileNotFoundError, fs)
        end
    end.

(** The name under which [k] is an entry of the directory [d], if it is
    one: [k] is spelled [os.path.join(d, name)]. *)
Definition entry_name (d k : string) : option string :=
  let name := os_path.basename k in
  if bool_decide (name <> "" /\ os_path.join2 d name = k)
  then Some name else None.

Definition entries (fs : filesystem) (d : string) : list string :=
  omap (entry_name d) (map fst (map_to_list fs)).

(** [os.listdir(d)] *)
Definition listdir (d : string) : M filesystem (list string) :=
  fun fs =>
    match stat fs d with
    | Some Dir => (Returned (entries fs d), fs)
    | Some File => (Raised NotADirectoryError, fs)
    | None => (Raised FileNotFoundError, fs)
    end.

End os.

(** ** Samples

    [GenericSample] is the interface the manager relies on; its
    implementations are generated elsewhere.  A sample object carries its
    class (the name of [type(sample)] and the names of the proper ancestors
    of that class), its declared fields in enumeration order, its polarity
    and a method that writes one field to a path.  A sample object is
    mutable and belongs to the client: a record is the state of the object
    at one moment, and [is_positive] is what [sample.is_positive()] answers
    at that moment.  Nothing changes the object while a synchronous call is
    in progress; between a call with [use_thread=True] and the run of its
    thread the client, who has the object back, can. *)

Record GenericSample : Type := {
  class_name : string;
  class_bases : list string;
  get_dataset_fields : list string;
  is_positive : bool;
  save_field : string -> string -> M filesystem unit
}.

(** [type(sample)] *)
Definition type (sample : GenericSample) : string := class_name sample.

(** [isinstance(sample, cls)]: [cls] is the class of [sample] or one of its
    ancestors. *)
Definition isinstance (sample : GenericSample) (cls : string) : bool :=
  bool_decide (cls ∈ class_name sample :: class_bases sample).

(** ** The manager object and the running process *)

Record DatasetDiskManager : Type := {
  _dataset_path : string;
  _folder_name : string;
  _sample : GenericSample;
  _negative_count : nat;
  _positive_count : nat
}.

(** What a run does, in order: the lock operations, the values the locked
    block leaves in [count], [positive_count] and [negative_count] (with the
    polarity it branched on), the start of a thread and each call of
    [sample.save_field]. *)
Inductive event : Type :=
| LockAcquire
| LockRelease
| Reserved (positive : bool) (count positive_count negative_count : nat)
| ThreadStart
| SaveField (field_name path : string).

Record process : Type := {
  self : DatasetDiskManager;
  disk : filesystem;
  trace : list event
}.

Definition emit (e : event) : M process unit :=
  modify (fun st =>
    {| self := self st; disk := disk st; trace := trace st ++ [e] |}).

(** Runs a computation on the disk of the process. *)
Definition on_disk {A} (m : M filesystem A) : M process A :=
  fun st =>
    let (r, fs) := m (disk st) in
    (r, {| self := self st; disk := fs; trace := trace st |}).

Definition set_negative_count (n : nat) : M process unit :=
  modify (fun st =>
    {| self := {| _dataset_path := _dataset_path (self st);
                  _folder_name := _folder_name (self st);
                  _sample := _sample (self st);
                  _negative_count := n;
                  _positive_count := _positive_count (self st) |};
       disk := disk st; trace := trace st |}).

Definition set_positive_count (n : nat) : M process unit :=
  modify (fun st =>
    {| self := {| _dataset_path := _dataset_path (self st);
                  _folder_name := _folder_name (self st);
                  _sample := _sample (self st);
                  _negative_count := _negative_count (self st);
                  _positive_count := n |};
       disk := disk st; trace := trace st |}).

(** [with self._lock: body].  The lock is released however the body ends. *)
Definition with_lock {A} (body : M process A) : M process A :=
  fun st =>
    match emit LockAcquire st with
    | (_, st1) =>
        match body st1 with
        | (r, st2) => (r, snd (emit LockRelease st2))
        end
    end.

(** [sample.save_field(field_name=..., path=...)] *)
Definition call_save_field (sample : GenericSample) (field_name path : string)
  : M process unit :=
  emit (SaveField field_name path) ;;;
  on_disk (save_field sample field_name path).

(** A [threading.Thread] with the nested function as target.  The function
    closes over the sample object, not over the state the object had when
    the thread was made: [thread_target] takes the state the object has when
    the function runs, and [thread_sample] is the state it has at present. *)
Record Thread : Type := {
  thread_sample : GenericSample;
  thread_target : GenericSample -> M process unit
}.

(** What the thread does if it runs now. *)
Definition target (thread : Thread) : M process unit :=
  thread_target thread (thread_sample thread).

(** ** The class *)

Definition _POSITIVE_DATA_FOLDER : string := "positive_samples".
Definition _NEGATIVE_DATA_FOLDER : string := "negative_samples".

(** [if not os.path.exists(p): os.mkdir(p)] *)
Definition mkdir_if_absent (p : string) : M filesystem unit :=
  fs <- get ;;
  when (negb (os_path.exists_ fs p)) (os.mkdir p).

Definition _set_up_folders (self : DatasetDiskManager) : M filesystem unit :=
  fs <- get ;;
  if negb (os_path.exists_ fs (os_path.dirname (_dataset_path self)))
  then raise FileNotFoundError
  else
    mkdir_if_absent (_dataset_path self) ;;;
    let folder_dataset_path :=
      os_path.join (_dataset_path self) [_folder_name self] in
    mkdir_if_absent folder_dataset_path ;;;
    let positive_samples_path :=
      os_path.join folder_dataset_path [_POSITIVE_DATA_FOLDER] in
    mkdir_if_absent positive_samples_path ;;;
    let negative_samples_path :=
      os_path.join folder_dataset_path [_NEGATIVE_DATA_FOLDER] in
    mkdir_if_absent negative_samples_path ;;;
    let dataset_fields := get_dataset_fields (_sample self) in
    for_each [positive_samples_path; negative_samples_path] (fun folder =>
      for_each dataset_fields (fun field =>
        let field_path := os_path.join folder [field] in
        mkdir_if_absent field_path)).

(** [len([name for name in os.listdir(d) if
          os.path.isfile(os.path.join(d, name))])] *)
Definition count_files (d : string) : M filesystem nat :=
  names <- os.listdir d ;;
  fs <- get ;;
  ret (length
         (List.filter (fun name => os_path.isfile fs (os_path.join d [name]))
            names)).

Definition _count_samples (self : DatasetDiskManager)
  : M filesystem (nat * nat) :=
  match get_dataset_fields (_sample self) with
  | [] => raise IndexError
  | field :: _ =>
      let negative_bgr_path :=
        os_path.join (_dataset_path self)
          [_folder_name self; _NEGATIVE_DATA_FOLDER; field] in
      count_negatives <- count_files negative_bgr_path ;;
      let positive_bgr_path :=
        os_path.join (_dataset_path self)
          [_folder_name self; _POSITIVE_DATA_FOLDER; field] in
      count_positives <- count_files positive_bgr_path ;;
      ret (count_negatives, count_positives)
  end.

(** The object under construction, before its counters are assigned. *)
Definition blank (dataset_path folder_name : string) (sample : GenericSample)
  : DatasetDiskManager :=
  {| _dataset_path := dataset_path; _folder_name := folder_name;
     _sample := sample; _negative_count := 0; _positive_count := 0 |}.

(** The constructor.  Before line 60 the two counters are not yet assigned;
    neither [_set_up_folders] nor [_count_samples] reads them. *)
Definition __init__ (dataset_path folder_name : string)
    (sample : GenericSample) : M filesystem DatasetDiskManager :=
  let self := blank dataset_path folder_name sample in
  _set_up_folders self ;;;
  counts <- _count_samples self ;;
  ret {| _dataset_path := dataset_path;
         _folder_name := folder_name;
         _sample := sample;
         _negative_count := fst counts;
         _positive_count := snd counts |}.

Definition get_negative_samples_count : M process nat :=
  st <- get ;; ret (_negative_count (self st)).

Definition get_positive_samples_count : M process nat :=
  st <- get ;; ret (_positive_count (self st)).

(** The file name built in the loop of [save_all_fields]. *)
Definition file_name (positive : bool) (field : string)
    (count positive_count negative_count : nat) : string :=
  let file_name := if positive then "positive_" else "negative_" in
  let file_name :=
    file_name +:+ (field +:+ "_" +:+ str (positive_count + negative_count)
                     +:+ "_(") in
  let file_name := file_name +:+ str count in
  file_name +:+ ")".

(** The nested function [save_all_fields], with the variables it closes
    over as parameters.  [folder_pos_neg], [count] and the two totals were
    bound under the lock; [sample] is the sample object as it is when the
    function runs: line 106 asks [sample.is_positive()] anew for every file
    name, so the prefix of a name follows the object, while the directory
    follows [folder_pos_neg]. *)
Definition save_all_fields (sample : GenericSample) (folder_pos_neg : string)
    (count positive_count negative_count : nat) : M process unit :=
  st <- get ;;
  let path :=
    os_path.join (_dataset_path (self st))
      [_folder_name (self st); folder_pos_neg] in
  for_each (get_dataset_fields sample) (fun field =>
    let file_name :=
      file_name (is_positive sample) field count positive_count
        negative_count in
    call_save_field sample field (os_path.join path [field; file_name])).

(** The body of [with self._lock:] in [save_sample]. *)
Definition reserve (sample : GenericSample)
  : M process (nat * string * nat * nat) :=
  st <- get ;;
  cf <- (if is_positive sample then
           let count := _positive_count (self st) in
           set_positive_count (_positive_count (self st) + 1) ;;;
           ret (count, _POSITIVE_DATA_FOLDER)
         else
           let count := _negative_count (self st) in
           set_negative_count (_negative_count (self st) + 1) ;;;
           ret (count, _NEGATIVE_DATA_FOLDER)) ;;
  st <- get ;;
  let positive_count := _positive_count (self st) in
  let negative_count := _negative_count (self st) in
  emit (Reserved (is_positive sample) (fst cf) positive_count
          negative_count) ;;;
  ret (fst cf, snd cf, positive_count, negative_count).

Definition save_sample (sample : GenericSample) (use_thread : bool)
  : M process (option Thread) :=
  st <- get ;;
  if negb (isinstance sample (type (_sample (self st))))
  then raise TypeError
  else
    locals <- with_lock (reserve sample) ;;
    let '(count, folder_pos_neg, positive_count, negative_count) := locals in
    let save_all_fields := fun sample =>
      save_all_fields sample folder_pos_neg count positive_count
        negative_count in
    if use_thread then
      let thread :=
        {| thread_sample := sample; thread_target := save_all_fields |} in
      emit ThreadStart ;;;
      ret (Some thread)
    else
      save_all_fields sample ;;;
      ret None.

(** ** Sequences of operations on one manager

    The operations a client performs on one instance, in the order in which
    they take effect: a call of [save_sample], a thread started by an
    earlier call getting to run its target, or the client changing the
    sample object that a pending thread holds ([sample] is the new state of
    the object).  The pool holds the started threads that have not run
    yet. *)

Inductive action : Type :=
| Call (sample : GenericSample) (use_thread : bool)
| Resume (k : nat)
| Mutate (k : nat) (sample : GenericSample).

Record config : Type := { proc : process; pool : list Thread }.

Definition do_action (a : action) (c : config) : outcome unit * config :=
  match a with
  | Call sample use_thread =>
      match save_sample sample use_thread (proc c) with
      | (Returned (Some thread), st) =>
          (Returned tt, {| proc := st; pool := pool c ++ [thread] |})
      | (Returned None, st) => (Returned tt, {| proc := st; pool := pool c |})
      | (Raised e, st) => (Raised e, {| proc := st; pool := pool c |})
      end
  | Resume k =>
      match pool c !! k with
      | Some thread =>
          match target thread (proc c) with
          | (r, st) => (r, {| proc := st; pool := delete k (pool c) |})
          end
      | None => (Returned tt, c)
      end
  | Mutate k sample =>
      (Returned tt,
       {| proc := proc c;
          pool :=
            alter (fun thread =>
                     {| thread_sample := sample;
                        thread_target := thread_target thread |})
              k (pool c) |})
  end.

Fixpoint run (acts : list action) (c : config) : list (outcome unit) * config :=
  match acts with
  | [] => ([], c)
  | a :: rest =>
      match do_action a c with
      | (r, c1) =>
          match run rest c1 with
          | (rs, c2) => (r :: rs, c2)
          end
      end
  end.

Definition completed {A} (r : outcome A) : bool :=
  match r with Returned _ => true | Raised _ => false end.

(** A manager that has just been constructed, in a process of its own. *)
Definition start (m : DatasetDiskManager) (fs : filesystem) : config :=
  {| proc := {| self := m; disk := fs; trace := [] |}; pool := [] |}.

(** Readings of a trace. *)
Definition reservation (e : event) : option (bool * nat) :=
  match e with
  | Reserved positive count _ _ => Some (positive, count)
  | _ => None
  end.

Definition reservations (tr : list event) : list (bool * nat) :=
  omap reservation tr.

Definition ordinals (positive : bool) (tr : list event) : list nat :=
  map snd (List.filter (fun r => Bool.eqb (fst r) positive) (reservations tr)).

Definition request (e : event) : option (string * string) :=
  match e with
  | SaveField field_name path => Some (field_name, path)
  | _ => None
  end.

Definition requests (tr : list event) : list (string * string) :=
  omap request tr.

(** ** Concurrent callers

    Several threads call [save_sample] on one manager at once.  Each call
    advances through the lines of the method; the scheduler picks which call
    moves next.  The object's two counters, its lock and the disk are
    shared.  The statement [self._positive_count += 1] is a load followed by
    a store.  The callers are the only actors of this reading: nothing
    changes a sample while its call is under way, so the branch and the
    prefix of a name are read off the same state. *)

(** Where a call of [save_sample] stands, with the local variables it has
    bound so far. *)
Inductive point : Type :=
| AtTypeCheck                                          (* line 87 *)
| AtAcquire                                            (* line 90 *)
| AtBranch                                             (* line 91 *)
| AtReadCount                                          (* line 92 / 96 *)
| AtLoad (count : nat)                                 (* line 94 / 98 *)
| AtStore (count loaded : nat)                         (* line 94 / 98 *)
| AtSnapPositive (count : nat)                         (* line 100 *)
| AtSnapNegative (count positive_count : nat)          (* line 101 *)
| AtRelease (count positive_count negative_count : nat)
| AtWrite (count positive_count negative_count : nat)
    (fields : list string)                             (* lines 105-110 *)
| Stopped (count positive_count negative_count : nat) (e : exn)
| Rejected.                                            (* line 88 *)

Record task : Type := { task_sample : GenericSample; task_at : point }.

(** An entry of the ledger: the task, its polarity and the value it took
    as [count], entered when the task stores the incremented counter. *)
Record entry : Type :=
  { entry_task : nat; entry_positive : bool; entry_count : nat }.

Record shared : Type := {
  shared_negative_count : nat;
  shared_positive_count : nat;
  shared_locked : bool;
  shared_disk : filesystem;
  shared_ledger : list entry
}.

Record system : Type := { sys_shared : shared; sys_tasks : list task }.

Definition shared_count (sh : shared) (positive : bool) : nat :=
  if positive then shared_positive_count sh else shared_negative_count sh.

Definition set_locked (b : bool) (sh : shared) : shared :=
  {| shared_negative_count := shared_negative_count sh;
     shared_positive_count := shared_positive_count sh;
     shared_locked := b;
     shared_disk := shared_disk sh;
     shared_ledger := shared_ledger sh |}.

Definition set_disk (fs : filesystem) (sh : shared) : shared :=
  {| shared_negative_count := shared_negative_count sh;
     shared_positive_count := shared_positive_count sh;
     shared_locked := shared_locked sh;
     shared_disk := fs;
     shared_ledger := shared_ledger sh |}.

(** The store of [self._x_count += 1], entered in the ledger. *)
Definition store_count (i : nat) (positive : bool) (count value : nat)
    (sh : shared) : shared :=
  {| shared_negative_count :=
       if positive then shared_negative_count sh else value;
     shared_positive_count :=
       if positive then value else shared_positive_count sh;
     shared_locked := shared_locked sh;
     shared_disk := shared_disk sh;
     shared_ledger :=
       shared_ledger sh ++
       [{| entry_task := i; entry_positive := positive;
           entry_count := count |}] |}.

(** One move of task [i], if it can move: a task waiting for the lock cannot
    while the lock is held, and a task that has ended does not move. *)
Definition task_step (m : DatasetDiskManager) (i : nat) (sh : shared)
    (t : task) : option (shared * task) :=
  let sample := task_sample t in
  let goto pt := {| task_sample := sample; task_at := pt |} in
  match task_at t with
  | AtTypeCheck =>
      if isinstance sample (type (_sample m))
      then Some (sh, goto AtAcquire) else Some (sh, goto Rejected)
  | AtAcquire =>
      if shared_locked sh then None
      else Some (set_locked true sh, goto AtBranch)
  | AtBranch => Some (sh, goto AtReadCount)
  | AtReadCount =>
      Some (sh, goto (AtLoad (shared_count sh (is_positive sample))))
  | AtLoad count =>
      Some (sh, goto (AtStore count (shared_count sh (is_positive sample))))
  | AtStore count loaded =>
      Some (store_count i (is_positive sample) count (loaded + 1) sh,
            goto (AtSnapPositive count))
  | AtSnapPositive count =>
      Some (sh, goto (AtSnapNegative count (shared_positive_count sh)))
  | AtSnapNegative count positive_count =>
      Some (sh, goto (AtRelease count positive_count
                        (shared_negative_count sh)))
  | AtRelease count positive_count negative_count =>
      Some (set_locked false sh,
            goto (AtWrite count positive_count negative_count
                    (get_dataset_fields sample)))
  | AtWrite count positive_count negative_count (field :: rest) =>
      let folder_pos_neg :=
        if is_positive sample then _POSITIVE_DATA_FOLDER
        else _NEGATIVE_DATA_FOLDER in
      let path :=
        os_path.join (_dataset_path m) [_folder_name m; folder_pos_neg] in
      let name :=
        file_name (is_positive sample) field count positive_count
          negative_count in
      match save_field sample field (os_path.join path [field; name])
              (shared_disk sh) with
      | (Returned _, fs) =>
          Some (set_disk fs sh,
                goto (AtWrite count positive_count negative_count rest))
      | (Raised e, fs) =>
          Some (set_disk fs sh,
                goto (Stopped count positive_count negative_count e))
      end
  | AtWrite _ _ _ [] => None
  | Stopped _ _ _ _ => None
  | Rejected => None
  end.

(** The scheduler lets task [i] move. *)
Definition schedule_step (m : DatasetDiskManager) (st : system) (i : nat)
  : system :=
  match sys_tasks st !! i with
  | Some t =>
      match task_step m i (sys_shared st) t with
      | Some (sh, t') =>
          {| sys_shared := sh; sys_tasks := <[i := t']> (sys_tasks st) |}
      | None => st
      end
  | None => st
  end.

Definition run_schedule (m : DatasetDiskManager) (schedule : list nat)
    (st : system) : system :=
  fold_left (schedule_step m) schedule st.

(** All callers are about to enter [save_sample]; the lock is free. *)
Definition concurrent_start (m : DatasetDiskManager) (fs : filesystem)
    (callers : list GenericSample) : system :=
  {| sys_shared :=
       {| shared_negative_count := _negative_count m;
          shared_positive_count := _positive_count m;
          shared_locked := false;
          shared_disk := fs;
          shared_ledger := [] |};
     sys_tasks :=
       map (fun sample =>
              {| task_sample := sample; task_at := AtTypeCheck |})
           callers |}.

(** * The vocabulary of the statements *)

(** ** The naming scheme as the specification words it *)

Definition polarity_name (positive : bool) : string :=
  if positive then "positive" else "negative".

Definition branch_name (positive : bool) : string :=
  if positive then "positive_samples" else "negative_samples".

(** [{polarity}_{field}_{total}_({ordinal})] *)
Definition spec_file_name (positive : bool) (field : string)
    (total ordinal : nat) : string :=
  polarity_name positive +:+ "_" +:+ field +:+ "_" +:+ str total
    +:+ "_(" +:+ str ordinal +:+ ")".

(** The directory of a field under a branch, as [_set_up_folders] lays the
    tree out. *)
Definition field_directory (m : DatasetDiskManager) (positive : bool)
    (field : string) : string :=
  os_path.join
    (os_path.join
       (os_path.join (_dataset_path m) [_folder_name m])
       [branch_name positive])
    [field].

(** The pre-increment count of a polarity. *)
Definition own_count (m : DatasetDiskManager) (positive : bool) : nat :=
  if positive then _positive_count m else _negative_count m.

(** The requests the specification expects of one save, from the manager as
    the save finds it: a field name and a path for every declared field. *)
Definition spec_requests (m : DatasetDiskManager) (sample : GenericSample)
  : list (string * string) :=
  let positive := is_positive sample in
  let total := _positive_count m + _negative_count m + 1 in
  let ordinal := own_count m positive in
  map (fun field =>
         (field,
          os_path.join (field_directory m positive field)
            [spec_file_name positive field total ordinal]))
      (get_dataset_fields sample).

(** The object after a reservation of the given polarity. *)
Definition bump (positive : bool) (m : DatasetDiskManager)
  : DatasetDiskManager :=
  {| _dataset_path := _dataset_path m;
     _folder_name := _folder_name m;
     _sample := _sample m;
     _negative_count :=
       if positive then _negative_count m else _negative_count m + 1;
     _positive_count :=
       if positive then _positive_count m + 1 else _positive_count m |}.

(** The process as the locked block leaves it. *)
Definition after_lock (sample : GenericSample) (st : process) : process :=
  let m := bump (is_positive sample) (self st) in
  {| self := m; disk := disk st;
     trace := trace st ++
       [LockAcquire;
        Reserved (is_positive sample)
          (own_count (self st) (is_positive sample))
          (_positive_count m) (_negative_count m);
        LockRelease] |}.

(** The callable [save_sample] builds once the lock is released, from the
    object as the call found it; [now] is the sample as it is when the
    callable runs. *)
Definition writer_at (sample : GenericSample) (m : DatasetDiskManager)
    (now : GenericSample) : M process unit :=
  let m' := bump (is_positive sample) m in
  save_all_fields now (branch_name (is_positive sample))
    (own_count m (is_positive sample))
    (_positive_count m') (_negative_count m').

(** The callable run on the sample as the call found it. *)
Definition writer (sample : GenericSample) (m : DatasetDiskManager)
  : M process unit :=
  writer_at sample m sample.

(** What the callable requests when it runs on the sample as it is then:
    directory, ordinal and total are those of the call, the prefix of the
    name and the fields are those of the sample then. *)
Definition requests_at (m : DatasetDiskManager) (sample now : GenericSample)
  : list (string * string) :=
  let positive := is_positive sample in
  let m' := bump positive m in
  map (fun field =>
         (field,
          os_path.join (field_directory m positive field)
            [file_name (is_positive now) field (own_count m positive)
               (_positive_count m') (_negative_count m')]))
      (get_dataset_fields now).

(** The polarity of the reservation an action makes, if it makes one. *)
Definition accepted (m : DatasetDiskManager) (a : action) : option bool :=
  match a with
  | Call sample _ =>
      if isinstance sample (type (_sample m))
      then Some (is_positive sample) else None
  | Resume _ => None
  | Mutate _ _ => None
  end.

Definition advance (m : DatasetDiskManager) (a : action) : DatasetDiskManager :=
  match accepted m a with
  | Some positive => bump positive m
  | None => m
  end.

(** Does an action reserve an ordinal of the given polarity? *)
Definition reserves (m : DatasetDiskManager) (positive : bool) (a : action)
  : bool :=
  match accepted m a with
  | Some q => Bool.eqb q positive
  | None => false
  end.

(** The number of saves of a polarity that pass the type check. *)
Definition saves_of (m : DatasetDiskManager) (positive : bool)
    (acts : list action) : nat :=
  length (List.filter (reserves m positive) acts).

(** The threads in a pool were all started by [save_sample]. *)
Definition pool_ok (c : config) : Prop :=
  Forall (fun t => exists sample m, thread_target t = writer_at sample m)
    (pool c).

(** ** The directory tree

    The directories [_set_up_folders] makes sure of, in the order in which
    it does so. *)
Definition layout (m : DatasetDiskManager) : list string :=
  let folder_dataset_path := os_path.join (_dataset_path m) [_folder_name m] in
  let positive_samples_path :=
    os_path.join folder_dataset_path [_POSITIVE_DATA_FOLDER] in
  let negative_samples_path :=
    os_path.join folder_dataset_path [_NEGATIVE_DATA_FOLDER] in
  [_dataset_path m; folder_dataset_path; positive_samples_path;
   negative_samples_path]
  ++ map (fun field => os_path.join positive_samples_path [field])
       (get_dataset_fields (_sample m))
  ++ map (fun field => os_path.join negative_samples_path [field])
       (get_dataset_fields (_sample m)).

(** The number of regular files directly in a directory. *)
Definition regular_files (fs : filesystem) (d : string) : nat :=
  length
    (List.filter (fun name => os_path.isfile fs (os_path.join d [name]))
       (os.entries fs d)).

(** What [mkdir_if_absent] can do. *)
Inductive mkdir_result (p : string) (fs : filesystem)
  : outcome unit * filesystem -> Prop :=
| mkdir_present n :
    stat fs p = Some n -> mkdir_result p fs (Returned tt, fs)
| mkdir_created :
    p <> "" -> stat fs p = None -> stat fs (os_path.dirname p) = Some Dir ->
    mkdir_result p fs (Returned tt, <[p := Dir]> fs)
| mkdir_under_file :
    stat fs p = None -> stat fs (os_path.dirname p) = Some File ->
    mkdir_result p fs (Raised NotADirectoryError, fs)
| mkdir_no_parent :
    stat fs p = None -> stat fs (os_path.dirname p) = None ->
    mkdir_result p fs (Raised FileNotFoundError, fs).

(** Every path of the list has its parent among the known paths or before it
    in the list. *)
Fixpoint chain (known : list string) (l : list string) : Prop :=
  match l with
  | [] => True
  | p :: l' => os_path.dirname p ∈ known /\ chain (p :: known) l'
  end.

(** The number of calls of [save_sample] among the actions. *)
Definition calls (acts : list action) : nat :=
  length
    (List.filter
       (fun a =>
          match a with
          | Call _ _ => true
          | Resume _ => false
          | Mutate _ _ => false
          end)
       acts).

(** ** Concurrent callers: what the proof keeps track of *)

(** Is the task inside [with self._lock:]? *)
Definition in_lock (pt : point) : bool :=
  match pt with
  | AtBranch | AtReadCount | AtLoad _ | AtStore _ _ | AtSnapPositive _
  | AtSnapNegative _ _ | AtRelease _ _ _ => true
  | _ => false
  end.

(** The ordinal of a task once the counter has moved past it. *)
Definition taken (pt : point) : option nat :=
  match pt with
  | AtSnapPositive count | AtSnapNegative count _ | AtRelease count _ _
  | AtWrite count _ _ _ | Stopped count _ _ _ => Some count
  | _ => None
  end.

(** The totals a task will use in its file names, once it has them. *)
Definition snapshot (pt : point) : option (nat * nat * nat) :=
  match pt with
  | AtRelease count positive_count negative_count
  | AtWrite count positive_count negative_count _
  | Stopped count positive_count negative_count _ =>
      Some (count, positive_count, negative_count)
  | _ => None
  end.

Definition ledger_ordinals (positive : bool) (ledger : list entry)
  : list nat :=
  map entry_count
    (List.filter (fun e => Bool.eqb (entry_positive e) positive) ledger).

(** What holds of a task at its point, given the shared state. *)
Definition task_ok (sh : shared) (i : nat) (t : task) : Prop :=
  let positive := is_positive (task_sample t) in
  match task_at t with
  | AtLoad count => count = shared_count sh positive
  | AtStore count loaded =>
      count = shared_count sh positive /\ loaded = shared_count sh positive
  | pt =>
      match taken pt with
      | Some count =>
          {| entry_task := i; entry_positive := positive;
             entry_count := count |} ∈ shared_ledger sh
      | None => True
      end
  end.

Record invariant (m : DatasetDiskManager) (st : system) : Prop := {
  inv_free :
    shared_locked (sys_shared st) = false ->
    forall j tj, sys_tasks st !! j = Some tj -> in_lock (task_at tj) = false;
  inv_exclusive :
    forall i j ti tj,
      sys_tasks st !! i = Some ti -> sys_tasks st !! j = Some tj ->
      in_lock (task_at ti) = true -> in_lock (task_at tj) = true -> i = j;
  inv_ordinals :
    forall positive,
      own_count m positive <= shared_count (sys_shared st) positive /\
      ledger_ordinals positive (shared_ledger (sys_shared st))
      = seq (own_count m positive)
          (shared_count (sys_shared st) positive - own_count m positive);
  inv_tasks :
    forall j tj, sys_tasks st !! j = Some tj -> task_ok (sys_shared st) j tj;
  inv_ledger :
    forall e, e ∈ shared_ledger (sys_shared st) ->
      exists t,
        sys_tasks st !! entry_task e = Some t /\
        taken (task_at t) = Some (entry_count e) /\
        entry_positive e = is_positive (task_sample t)
}.

Definition same_books (sh sh' : shared) : Prop :=
  shared_negative_count sh' = shared_negative_count sh /\
  shared_positive_count sh' = shared_positive_count sh /\
  shared_ledger sh' = shared_ledger sh.

(** ** More readings of a trace *)

(** A call of [save_field] or the start of a thread. *)
Definition io_event (e : event) : bool :=
  match e with
  | SaveField _ _ | ThreadStart => true
  | _ => false
  end.

(** The total a reservation puts in its file names. *)
Definition total_of (e : event) : option nat :=
  match e with
  | Reserved _ _ positive_count negative_count =>
      Some (positive_count + negative_count)
  | _ => None
  end.

Definition totals (tr : list event) : list nat := omap total_of tr.

(** The discipline of the lock along a trace, from a lock that is held or
    not: an acquire finds the lock free and a release finds it held; the
    locals of the locked block are bound while it is held; files are
    requested and threads started while it is free; the trace ends with the
    lock free. *)
Fixpoint lock_discipline (held : bool) (tr : list event) : bool :=
  match tr with
  | [] => negb held
  | LockAcquire :: rest => negb held && lock_discipline true rest
  | LockRelease :: rest => held && lock_discipline false rest
  | Reserved _ _ _ _ :: rest => held && lock_discipline held rest
  | ThreadStart :: rest => negb held && lock_discipline held rest
  | SaveField _ _ :: rest => negb held && lock_discipline held rest
  end.

(** The events of the locked block of an action that reserves. *)
Definition locked_events (m : DatasetDiskManager) (a : action) : list event :=
  match accepted m a with
  | Some positive =>
      [LockAcquire;
       Reserved positive (own_count m positive)
         (_positive_count (bump positive m))
         (_negative_count (bump positive m));
       LockRelease]
  | None => []
  end.



(** ** Concurrent callers: how far the calls have come *)

(** Has the call ended, by returning, by an exception of a write or by the
    [TypeError] of line 88? *)
Definition ended (pt : point) : bool :=
  match pt with
  | AtWrite _ _ _ [] | Stopped _ _ _ _ | Rejected => true
  | _ => false
  end.

(** Has the task stored the incremented counter of the given polarity? *)
Definition has_stored (positive : bool) (t : task) : bool :=
  Bool.eqb (is_positive (task_sample t)) positive
  && match taken (task_at t) with Some _ => true | None => false end.

Definition stored (positive : bool) (tasks : list task) : nat :=
  length (List.filter (has_stored positive) tasks).

(** The callers of a polarity whose sample passes the type check. *)
Definition instances_of (m : DatasetDiskManager) (positive : bool)
    (callers : list GenericSample) : nat :=
  length
    (List.filter
       (fun sample =>
          isinstance sample (type (_sample m))
          && Bool.eqb (is_positive sample) positive)
       callers).

(** A task is past the type check only with a sample that passes it, and
    rejected only with one that does not. *)
Definition checked (m : DatasetDiskManager) (t : task) : bool :=
  match task_at t with
  | AtTypeCheck => true
  | Rejected => negb (isinstance (task_sample t) (type (_sample m)))
  | _ => isinstance (task_sample t) (type (_sample m))
  end.

(** The lines a call has before it at most. *)
Definition lines_left (t : task) : nat :=
  let fields := length (get_dataset_fields (task_sample t)) in
  match task_at t with
  | AtTypeCheck => 9 + fields
  | AtAcquire => 8 + fields
  | AtBranch => 7 + fields
  | AtReadCount => 6 + fields
  | AtLoad _ => 5 + fields
  | AtStore _ _ => 4 + fields
  | AtSnapPositive _ => 3 + fields
  | AtSnapNegative _ _ => 2 + fields
  | AtRelease _ _ _ => 1 + fields
  | AtWrite _ _ _ rest => length rest
  | Stopped _ _ _ _ => 0
  | Rejected => 0
  end.

Definition work_left (tasks : list task) : nat :=
  foldr (fun t n => lines_left t + n) 0 tasks.

Record accounts (m : DatasetDiskManager) (callers : list GenericSample)
    (st : system) : Prop := {
  acc_samples : map task_sample (sys_tasks st) = callers;
  acc_checked :
    forall j t, sys_tasks st !! j = Some t -> checked m t = true;
  acc_holder :
    shared_locked (sys_shared st) = true ->
    exists j t, sys_tasks st !! j = Some t /\ in_lock (task_at t) = true;
  acc_counts :
    forall positive,
      shared_count (sys_shared st) positive
      = own_count m positive + stored positive (sys_tasks st)
}.

(** The calls one after the other, each writing before it returns. *)
Definition in_turn (callers : list GenericSample) : list action :=
  map (fun sample => Call sample false) callers.

(** ** Files under the directories of the first field *)

(** What [os.path.join(d, name)] puts before a relative [name]. *)
Definition dir_prefix (d : string) : string :=
  if bool_decide (d = "") || endswith_sep d then d else d +:+ "/".

(** A name that [os.listdir] can return: not empty, without separator. *)
Definition plain_name (s : string) : Prop := s <> "" /\ has_sep s = false.

(** No file of the first field bears an ordinal at or above the counter of
    its polarity. *)
Definition names_free (m : DatasetDiskManager) (fs : filesystem) : Prop :=
  forall field positive count positive_count negative_count,
    head (get_dataset_fields (_sample m)) = Some field ->
    own_count m positive <= count ->
    stat fs
      (os_path.join (field_directory m positive field)
         [file_name positive field count positive_count negative_count])
    = None.

(** A [save_field] that, when it returns, has created or overwritten the
    regular file at [path] and touched nothing else. *)
Definition creates_the_file (sample : GenericSample) : Prop :=
  forall field path fs fs',
    save_field sample field path fs = (Returned tt, fs') ->
    fs' = <[path := File]> fs /\ stat fs path <> Some Dir.

(** The disk after regular files have been written at the paths. *)
Definition with_files (fs : filesystem) (paths : list string) : filesystem :=
  foldl (fun fs path => <[path := File]> fs) fs paths.

(** The counters are in step with the disk: the tree is there, each counter
    is the number of regular files in the directory of the first field of
    its polarity, and the names still to come are free. *)
Record in_step (m : DatasetDiskManager) (field : string) (fs : filesystem)
  : Prop := {
  step_head : head (get_dataset_fields (_sample m)) = Some field;
  step_root :
    os_path.exists_ fs (os_path.dirname (_dataset_path m)) = true;
  step_layout : Forall (fun p => is_Some (stat fs p)) (layout m);
  step_dirs :
    forall positive, stat fs (field_directory m positive field) = Some Dir;
  step_counts :
    forall positive,
      regular_files fs (field_directory m positive field)
      = own_count m positive;
  step_free : names_free m fs
}.

(** ** Concurrent callers: the totals in the file names *)

(** What holds of the totals a task has taken or is about to take: between
    its store and its release the last entry of the ledger is its own; once
    it has both totals, their sum is the rank of its entry. *)
Definition total_ok (m : DatasetDiskManager) (sh : shared) (i : nat)
    (t : task) : Prop :=
  let mine count :=
    {| entry_task := i; entry_positive := is_positive (task_sample t);
       entry_count := count |} in
  match task_at t with
  | AtSnapPositive count => last (shared_ledger sh) = Some (mine count)
  | AtSnapNegative count positive_count =>
      last (shared_ledger sh) = Some (mine count) /\
      positive_count = shared_positive_count sh
  | AtRelease count positive_count negative_count
  | AtWrite count positive_count negative_count _
  | Stopped count positive_count negative_count _ =>
      exists k,
        shared_ledger sh !! k = Some (mine count) /\
        positive_count + negative_count
        = _positive_count m + _negative_count m + k + 1
  | _ => True
  end.

Record numbering (m : DatasetDiskManager) (st : system) : Prop := {
  num_total :
    shared_positive_count (sys_shared st)
    + shared_negative_count (sys_shared st)
    = _positive_count m + _negative_count m
      + length (shared_ledger (sys_shared st));
  num_tasks :
    forall j tj, sys_tasks st !! j = Some tj ->
      total_ok m (sys_shared st) j tj
}.

(** * Concrete objects for the examples *)

(** A [save_field] that creates (or overwrites) a regular file, as
    [open(path, 'wb')] would: the directory has to exist. *)
Definition write_file (field_name path : string) : M filesystem unit :=
  fun fs =>
    match stat fs (os_path.dirname path) with
    | Some Dir =>
        match stat fs path with
        | Some Dir => (Raised OSError, fs)
        | _ => (Returned tt, <[path := File]> fs)
        end
    | Some File => (Raised NotADirectoryError, fs)
    | None => (Raised FileNotFoundError, fs)
    end.

(** A [save_field] that always fails. *)
Definition write_fails (field_name path : string) : M filesystem unit :=
  raise OSError.

Definition sample_ab (positive : bool) : GenericSample :=
  {| class_name := "GeneratedSample"; class_bases := ["GenericSample"; "object"];
     get_dataset_fields := ["a"; "b"]; is_positive := positive;
     save_field := write_file |}.

Definition small_disk : filesystem :=
  <["/d/x" := File]> (<["/d/sub" := Dir]> (<["/d/sub/y" := File]>
    (<["/d" := Dir]> (<["/" := Dir]> ∅)))).

Definition root_disk : filesystem := <["/data" := Dir]> (<["/" := Dir]> ∅).

(** A manager freshly constructed on an empty tree, for the two-field
    sample. *)
Definition fresh_manager : DatasetDiskManager :=
  {| _dataset_path := "/data/ds"; _folder_name := "folder";
     _sample := sample_ab true;
     _negative_count := 0; _positive_count := 0 |}.

Definition fresh_disk : filesystem :=
  snd (__init__ "/data/ds" "folder" (sample_ab true) root_disk).

Definition fresh_process : process :=
  {| self := fresh_manager; disk := fresh_disk; trace := [] |}.

(** An instance of a class derived from the class of [sample_ab]. *)
Definition derived_sample : GenericSample :=
  {| class_name := "DerivedSample";
     class_bases := ["GeneratedSample"; "GenericSample"; "object"];
     get_dataset_fields := ["a"; "b"]; is_positive := true;
     save_field := write_file |}.

(** An instance of an unrelated class. *)
Definition other_sample : GenericSample :=
  {| class_name := "OtherSample"; class_bases := ["GenericSample"; "object"];
     get_dataset_fields := ["a"; "b"]; is_positive := true;
     save_field := write_file |}.

(** A sample of the expected class whose writes fail. *)
Definition failing_sample (positive : bool) : GenericSample :=
  {| class_name := "GeneratedSample"; class_bases := ["GenericSample"; "object"];
     get_dataset_fields := ["a"; "b"]; is_positive := positive;
     save_field := write_fails |}.

(** A sample that declares no field. *)
Definition fieldless_sample : GenericSample :=
  {| class_name := "EmptySample"; class_bases := ["GenericSample"; "object"];
     get_dataset_fields := []; is_positive := true;
     save_field := write_file |}.

Definition after_failed_write : process :=
  snd (save_sample (failing_sample true) false fresh_process).

Definition three_saves : list action :=
  [Call (sample_ab true) false; Call (sample_ab false) true; Resume 0;
   Call (sample_ab true) false].

Definition populated_disk : filesystem :=
  disk (proc (snd (run three_saves (start fresh_manager fresh_disk)))).

Definition populated_manager : DatasetDiskManager :=
  {| _dataset_path := "/data/ds"; _folder_name := "folder";
     _sample := sample_ab true;
     _negative_count := 1; _positive_count := 2 |}.

(** A schedule for two callers: both pass the type check, the second takes
    the lock first, then the first goes through the locked block, and their
    writes alternate. *)
Definition racing_schedule : list nat :=
  [0; 1; 1; 0; 1; 1; 1; 0; 1; 1; 1; 1; 0; 0; 0; 0; 0; 0; 0; 0; 1; 1; 0; 0].

(** * Properties *)

(** ** The model at work *)

Example join_three :
  os_path.join "/data/ds" ["folder"; "positive_samples"]
  = "/data/ds/folder/positive_samples".
Proof. reflexivity. Qed.

Example dirname_nested : os_path.dirname "/data/ds" = "/data".
Proof. reflexivity. Qed.

Example dirname_top : os_path.dirname "/ds" = "/".
Proof. reflexivity. Qed.

Example dirname_relative : os_path.dirname "ds" = "".
Proof. reflexivity. Qed.

Example dirname_trailing : os_path.dirname "/data/ds/" = "/data/ds".
Proof. reflexivity. Qed.

Example str_examples : (str 0, str 7, str 120) = ("0", "7", "120").
Proof. reflexivity. Qed.

Example listdir_example :
  match fst (os.listdir "/d" small_disk) with
  | Returned names => names ≡ₚ ["x"; "sub"]
  | Raised _ => False
  end.
Proof. vm_compute. by apply Permutation_swap || reflexivity. Qed.

Example mkdir_needs_its_parent :
  fst (os.mkdir "/d/a/b" small_disk) = Raised FileNotFoundError.
Proof. reflexivity. Qed.

(** ** Facts about strings *)

Lemma append_cons (x : ascii) (a b : string) :
  String x a +:+ b = String x (a +:+ b).
Proof. reflexivity. Qed.

Lemma append_assoc (a b c : string) : (a +:+ b) +:+ c = a +:+ (b +:+ c).
Proof. induction a as [|x a IH]; [done|]. by rewrite !append_cons, IH. Qed.

Lemma append_empty_r (a : string) : a +:+ "" = a.
Proof. induction a as [|x a IH]; [done|]. by rewrite append_cons, IH. Qed.

Lemma chars_append (a b : string) :
  list_ascii_of_string (a +:+ b)
  = (list_ascii_of_string a ++ list_ascii_of_string b)%list.
Proof. induction a as [|x a IH]; [done|]. rewrite append_cons. cbn. by rewrite IH. Qed.

Lemma chars_inj (a b : string) :
  list_ascii_of_string a = list_ascii_of_string b -> a = b.
Proof.
  intros H. rewrite <- (string_of_list_ascii_of_string a), H.
  apply string_of_list_ascii_of_string.
Qed.

(** A list is cut in one way only at the last occurrence of a character. *)
Lemma cut_at_last {A} (c : A) (x y l1 l2 : list A) :
  c ∉ l1 -> c ∉ l2 -> (x ++ c :: l1 = y ++ c :: l2)%list -> x = y /\ l1 = l2.
Proof.
  revert y. induction x as [|a x IH]; intros [|b y] H1 H2 E; simplify_eq/=.
  - done.
  - exfalso. apply H1. rewrite elem_of_app, elem_of_cons. auto.
  - exfalso. apply H2. rewrite elem_of_app, elem_of_cons. auto.
  - destruct (IH y H1 H2) as [Hx Hl]; [done|]. by subst.
Qed.

Lemma paren_not_in_numeral (d : Decimal.uint) :
  "("%char ∉ list_ascii_of_string (NilEmpty.string_of_uint d).
Proof.
  induction d; cbn; rewrite ?elem_of_cons; try (intros [?|?]; done).
  apply not_elem_of_nil.
Qed.

Lemma str_inj (n m : nat) : str n = str m -> n = m.
Proof.
  unfold str. intros E. apply Unsigned.to_uint_inj.
  assert (Some (Nat.to_uint n) = Some (Nat.to_uint m)) as [=]; [|done].
  by rewrite <- !NilEmpty.usu, E.
Qed.

(** ** How one save runs *)

Ltac step_monad :=
  cbv [bind ret raise get modify emit on_disk when with_lock
       set_positive_count set_negative_count call_save_field]; cbn.

Lemma file_name_spec positive field count positive_count negative_count :
  file_name positive field count positive_count negative_count
  = spec_file_name positive field (positive_count + negative_count) count.
Proof.
  unfold file_name, spec_file_name, polarity_name.
  destruct positive; by rewrite !append_assoc.
Qed.

Lemma join_field_directory m positive field name :
  os_path.join
    (os_path.join (_dataset_path m) [_folder_name m; branch_name positive])
    [field; name]
  = os_path.join (field_directory m positive field) [name].
Proof. reflexivity. Qed.

Lemma for_each_cons {S A} (x : A) (r : list A) (body : A -> M S unit) s :
  for_each (x :: r) body s
  = match body x s with
    | (Returned _, s') => for_each r body s'
    | (Raised e, s') => (Raised e, s')
    end.
Proof. reflexivity. Qed.

Lemma call_save_field_run sample field path st :
  call_save_field sample field path st
  = (fst (save_field sample field path (disk st)),
     {| self := self st;
        disk := snd (save_field sample field path (disk st));
        trace := (trace st ++ [SaveField field path])%list |}).
Proof.
  step_monad. by destruct (save_field sample field path (disk st)).
Qed.

(** The loop of [save_all_fields]: it leaves the object alone and issues the
    requests in order, up to and including the first one that raises. *)
Lemma write_loop sample (path_of : string -> string) fields st :
  exists n,
    let res := for_each fields
      (fun field => call_save_field sample field (path_of field)) st in
    self (snd res) = self st /\
    trace (snd res)
    = (trace st ++ map (fun f => SaveField f (path_of f)) (take n fields))%list /\
    n <= length fields /\
    (if completed (fst res) then n = length fields else 0 < n).
Proof.
  revert st. induction fields as [|f fields IH]; intros st.
  - exists 0. cbn. by rewrite app_nil_r.
  - rewrite for_each_cons, call_save_field_run.
    destruct (save_field sample f (path_of f) (disk st)) as [[[]|e] fs] eqn:E;
      cbn [fst snd].
    + match goal with |- context [for_each fields ?b ?s] =>
        destruct (IH s) as (n & H1 & H2 & H3 & H4) end.
      exists (S n). cbn in *. rewrite H1, H2.
      rewrite <- app_assoc. cbn. repeat split; [lia|].
      destruct (completed _); lia.
    + exists 1. cbn. rewrite take_0. repeat split; lia.
Qed.

Lemma locked_block_run sample st :
  with_lock (reserve sample) st
  = (Returned (own_count (self st) (is_positive sample),
               branch_name (is_positive sample),
               _positive_count (bump (is_positive sample) (self st)),
               _negative_count (bump (is_positive sample) (self st))),
     after_lock sample st).
Proof.
  unfold after_lock, reserve, bump, own_count, branch_name.
  destruct (is_positive sample); step_monad; by rewrite <- !app_assoc.
Qed.

Lemma save_sample_rejected sample use_thread st :
  isinstance sample (type (_sample (self st))) = false ->
  save_sample sample use_thread st = (Raised TypeError, st).
Proof. intros H. unfold save_sample, bind, get. cbn. by rewrite H. Qed.

Lemma save_sample_sync sample st :
  isinstance sample (type (_sample (self st))) = true ->
  save_sample sample false st
  = match writer sample (self st) (after_lock sample st) with
    | (Returned _, st') => (Returned None, st')
    | (Raised e, st') => (Raised e, st')
    end.
Proof.
  intros H. unfold save_sample. unfold bind at 1, get at 1.
  cbn [negb]. rewrite H. cbn [negb]. unfold bind at 1.
  rewrite locked_block_run. reflexivity.
Qed.

Lemma save_sample_async sample st :
  isinstance sample (type (_sample (self st))) = true ->
  save_sample sample true st
  = (Returned (Some {| thread_sample := sample;
                       thread_target := writer_at sample (self st) |}),
     snd (emit ThreadStart (after_lock sample st))).
Proof.
  intros H. unfold save_sample. unfold bind at 1, get at 1.
  cbn [negb]. rewrite H. cbn [negb]. unfold bind at 1.
  rewrite locked_block_run. reflexivity.
Qed.

Lemma bump_total positive m :
  _positive_count (bump positive m) + _negative_count (bump positive m)
  = _positive_count m + _negative_count m + 1.
Proof. destruct positive; cbn; lia. Qed.

(** The requests of a sample that has not changed are those of the
    specification. *)
Lemma requests_at_same m sample now :
  is_positive now = is_positive sample ->
  get_dataset_fields now = get_dataset_fields sample ->
  requests_at m sample now = spec_requests m sample.
Proof.
  intros Hp Hf. unfold requests_at, spec_requests. rewrite Hp, Hf.
  apply map_ext. intros field.
  by rewrite file_name_spec, bump_total.
Qed.

(** What the writer does, from any later state of the same object and on
    the sample as it is then. *)
Lemma writer_at_run sample m now st :
  _dataset_path (self st) = _dataset_path m ->
  _folder_name (self st) = _folder_name m ->
  exists n,
    let res := writer_at sample m now st in
    self (snd res) = self st /\
    trace (snd res)
    = (trace st
       ++ map (uncurry SaveField) (take n (requests_at m sample now)))%list /\
    n <= length (get_dataset_fields now) /\
    (if completed (fst res) then n = length (get_dataset_fields now)
     else 0 < n).
Proof.
  intros Hp Hf.
  set (path_of := fun field =>
    os_path.join
      (os_path.join (_dataset_path m)
         [_folder_name m; branch_name (is_positive sample)])
      [field;
       file_name (is_positive now) field
         (own_count m (is_positive sample))
         (_positive_count (bump (is_positive sample) m))
         (_negative_count (bump (is_positive sample) m))]).
  assert (writer_at sample m now st
          = for_each (get_dataset_fields now)
              (fun field => call_save_field now field (path_of field)) st)
    as ->.
  { unfold writer_at, save_all_fields, bind, get. by rewrite Hp, Hf. }
  destruct (write_loop now path_of (get_dataset_fields now) st)
    as (n & H1 & H2 & H3 & H4).
  exists n. cbn zeta in *. split; [done|]. split; [|done].
  rewrite H2. f_equal. unfold requests_at.
  rewrite firstn_map, map_map.
  apply map_ext. intros field. unfold path_of. cbv [uncurry].
  by rewrite join_field_directory.
Qed.

Lemma writer_run sample m st :
  _dataset_path (self st) = _dataset_path m ->
  _folder_name (self st) = _folder_name m ->
  exists n,
    let res := writer sample m st in
    self (snd res) = self st /\
    trace (snd res)
    = (trace st ++ map (uncurry SaveField) (take n (spec_requests m sample)))%list /\
    n <= length (get_dataset_fields sample) /\
    (if completed (fst res) then n = length (get_dataset_fields sample)
     else 0 < n).
Proof.
  intros Hp Hf. rewrite <- (requests_at_same m sample sample) by done.
  by apply writer_at_run.
Qed.

Lemma requests_app (a b : list event) :
  requests (a ++ b) = (requests a ++ requests b)%list.
Proof. apply omap_app. Qed.

Lemma requests_save_fields (l : list (string * string)) :
  requests (map (uncurry SaveField) l) = l.
Proof.
  induction l as [|[f p] l IH]; [done|].
  change (requests (map (uncurry SaveField) ((f, p) :: l)))
    with ((f, p) :: requests (map (uncurry SaveField) l)).
  by rewrite IH.
Qed.

Lemma reservations_app (a b : list event) :
  reservations (a ++ b) = (reservations a ++ reservations b)%list.
Proof. apply omap_app. Qed.

Lemma reservations_save_fields (l : list (string * string)) :
  reservations (map (uncurry SaveField) l) = [].
Proof.
  induction l as [|[f p] l IH]; [done|].
  change (reservations (map (uncurry SaveField) ((f, p) :: l)))
    with (reservations (map (uncurry SaveField) l)).
  by rewrite IH.
Qed.

Lemma requests_after_lock sample st :
  requests (trace (after_lock sample st)) = requests (trace st).
Proof.
  unfold after_lock. cbn [trace]. rewrite requests_app.
  apply app_nil_r.
Qed.

Example fresh_construction :
  __init__ "/data/ds" "folder" (sample_ab true) root_disk
  = (Returned fresh_manager, fresh_disk).
Proof. vm_compute. reflexivity. Qed.

(** The requests of a synchronous save. *)
Lemma sync_requests sample st :
  isinstance sample (type (_sample (self st))) = true ->
  exists n,
    let res := save_sample sample false st in
    requests (trace (snd res))
    = (requests (trace st) ++ take n (spec_requests (self st) sample))%list /\
    n <= length (get_dataset_fields sample) /\
    (if completed (fst res)
     then n = length (get_dataset_fields sample) else 0 < n).
Proof.
  intros Hty. rewrite save_sample_sync by done.
  destruct (writer_run sample (self st) (after_lock sample st))
    as (n & H1 & H2 & H3 & H4); [done..|].
  exists n. cbn zeta in *.
  destruct (writer sample (self st) (after_lock sample st))
    as [[[]|e] st'] eqn:E; cbn [fst snd completed] in *;
    (split; [|done]);
    by rewrite H2, requests_app, requests_save_fields, requests_after_lock.
Qed.




(** The object a call of [save_sample] leaves behind. *)
Lemma save_sample_self sample use_thread st :
  self (snd (save_sample sample use_thread st))
  = if isinstance sample (type (_sample (self st)))
    then bump (is_positive sample) (self st) else self st.
Proof.
  destruct (isinstance sample (type (_sample (self st)))) eqn:Hty.
  - destruct use_thread.
    + by rewrite save_sample_async.
    + rewrite save_sample_sync by done.
      destruct (writer_run sample (self st) (after_lock sample st))
        as (n & H1 & _); [done..|]. cbn zeta in H1.
      by destruct (writer sample (self st) (after_lock sample st))
        as [[[]|e] st'].
  - by rewrite save_sample_rejected.
Qed.

Lemma save_sample_trace_grows sample use_thread st :
  isinstance sample (type (_sample (self st))) = true ->
  exists tr,
    trace (snd (save_sample sample use_thread st))
    = (trace st ++
       LockAcquire
       :: Reserved (is_positive sample)
            (own_count (self st) (is_positive sample))
            (_positive_count (bump (is_positive sample) (self st)))
            (_negative_count (bump (is_positive sample) (self st)))
       :: LockRelease :: tr)%list /\
    reservations tr = [].
Proof.
  intros Hty. destruct use_thread.
  - rewrite save_sample_async by done. exists [ThreadStart].
    cbn. by rewrite <- app_assoc.
  - rewrite save_sample_sync by done.
    destruct (writer_run sample (self st) (after_lock sample st))
      as (n & _ & H2 & _); [done..|]. cbn zeta in H2.
    exists (map (uncurry SaveField) (take n (spec_requests (self st) sample))).
    split; [|apply reservations_save_fields].
    destruct (writer sample (self st) (after_lock sample st))
      as [[[]|e] st']; cbn [snd] in *; rewrite H2; cbn;
      by rewrite <- app_assoc.
Qed.

(** C5 as stated fails: an instance of a derived class has another concrete
    type than the reference sample and is saved like any other sample. *)
Lemma derived_sample_is_saved :
  type derived_sample <> type (_sample (self fresh_process)) /\
  fst (save_sample derived_sample false fresh_process) <> Raised TypeError /\
  _positive_count (self (snd (save_sample derived_sample false fresh_process)))
  = 1 /\
  requests (trace (snd (save_sample derived_sample false fresh_process)))
  = [("a", "/data/ds/folder/positive_samples/a/positive_a_1_(0)");
     ("b", "/data/ds/folder/positive_samples/b/positive_b_1_(0)")].
Proof. vm_compute. repeat split; discriminate. Qed.

(** C5, amended.  [save_sample] stops at its type check exactly when the
    sample is not an instance of the class of the reference sample, that is
    when its class is neither that class nor derived from it.  The call then
    raises [TypeError] and leaves the whole process as it found it: the lock
    is not taken, both counters keep their values and nothing is written. *)
Theorem type_check_rejects_non_instances
    (sample : GenericSample) (use_thread : bool) (st : process) :
  isinstance sample (type (_sample (self st))) = false
  <-> save_sample sample use_thread st = (Raised TypeError, st).
Proof.
  split; [apply save_sample_rejected|].
  intros E. destruct (isinstance _ _) eqn:Hty; [|done].
  destruct (save_sample_trace_grows sample use_thread st Hty) as (tr & H & _).
  rewrite E in H. cbn [snd] in H.
  apply (f_equal length) in H. rewrite length_app in H. cbn in H. lia.
Qed.

Lemma type_check_rejects_non_instances_witness :
  isinstance other_sample (type (_sample (self fresh_process))) = false /\
  save_sample other_sample false fresh_process
  = (Raised TypeError, fresh_process).
Proof.
  split; [reflexivity|].
  exact (proj1 (type_check_rejects_non_instances other_sample false
                  fresh_process) eq_refl).
Defined.

(** C8.  A write that raises comes after the reservation and nothing undoes
    the reservation: the object stays as the locked block left it, and the
    next save names its files from the advanced counters.  A thread that
    fails leaves the object alone as well. *)
Theorem failed_write_keeps_reservation
    (sample : GenericSample) (st st' : process) (e : exn) :
  isinstance sample (type (_sample (self st))) = true ->
  save_sample sample false st = (Raised e, st') ->
  self st' = bump (is_positive sample) (self st) /\
  _positive_count (self st') + _negative_count (self st')
  = _positive_count (self st) + _negative_count (self st) + 1 /\
  own_count (self st') (is_positive sample)
  = own_count (self st) (is_positive sample) + 1 /\
  (forall next : GenericSample,
      isinstance next (type (_sample (self st'))) = true ->
      exists n,
        let res := save_sample next false st' in
        requests (trace (snd res))
        = (requests (trace st')
           ++ take n (spec_requests (bump (is_positive sample) (self st))
                        next))%list /\
        (if completed (fst res)
         then n = length (get_dataset_fields next) else 0 < n)) /\
  (forall thread st1 st2,
      save_sample sample true st = (Returned (Some thread), st1) ->
      self (snd (target thread st2)) = self st2).
Proof.
  intros Hty E.
  assert (self st' = bump (is_positive sample) (self st)) as Hself.
  { pose proof (save_sample_self sample false st) as H.
    by rewrite E, Hty in H. }
  split; [done|]. split; [rewrite Hself; apply bump_total|].
  split. { rewrite Hself. unfold own_count. by destruct (is_positive sample). }
  split.
  - intros next Hnext.
    destruct (sync_requests next st' Hnext) as (n & H1 & H2 & H3).
    exists n. cbn zeta in *. by rewrite <- Hself.
  - intros thread st1 st2 Ha. rewrite save_sample_async in Ha by done.
    injection Ha as <- _. unfold target. cbn [thread_target thread_sample].
    unfold writer_at, save_all_fields, bind, get.
    match goal with |- context [for_each ?l (fun field => call_save_field _ field (@?p field)) ?s] =>
      destruct (write_loop sample p l s) as (n & H1 & _) end.
    exact H1.
Qed.

Lemma failed_write_keeps_reservation_witness :
  fst (save_sample (failing_sample true) false fresh_process) = Raised OSError /\
  _positive_count (self after_failed_write) = 1 /\
  self after_failed_write = bump true (self fresh_process).
Proof.
  split; [reflexivity|]. split; [reflexivity|].
  exact (proj1 (failed_write_keeps_reservation (failing_sample true)
                  fresh_process after_failed_write OSError
                  eq_refl eq_refl)).
Defined.

(** C10.  A save changes no attribute of the object but the counter of the
    sample's own polarity, and the two accessors return a counter and leave
    the process as it is. *)
Theorem save_touches_own_counter_only
    (sample : GenericSample) (use_thread : bool) (st : process) :
  let st' := snd (save_sample sample use_thread st) in
  (is_positive sample = true ->
   _negative_count (self st') = _negative_count (self st)) /\
  (is_positive sample = false ->
   _positive_count (self st') = _positive_count (self st)) /\
  _dataset_path (self st') = _dataset_path (self st) /\
  _folder_name (self st') = _folder_name (self st) /\
  _sample (self st') = _sample (self st) /\
  get_negative_samples_count st = (Returned (_negative_count (self st)), st) /\
  get_positive_samples_count st = (Returned (_positive_count (self st)), st).
Proof.
  cbn zeta. rewrite save_sample_self.
  destruct (isinstance sample (type (_sample (self st))));
    repeat split; try intros ->; reflexivity.
Qed.

Lemma save_touches_own_counter_only_witness :
  (is_positive (sample_ab true) = true /\
   _negative_count
     (self (snd (save_sample (sample_ab true) false fresh_process)))
   = _negative_count (self fresh_process)) /\
  (is_positive (sample_ab false) = false /\
   _positive_count
     (self (snd (save_sample (sample_ab false) true fresh_process)))
   = _positive_count (self fresh_process)).
Proof.
  split; (split; [reflexivity|]).
  - exact (proj1 (save_touches_own_counter_only (sample_ab true) false
                    fresh_process) eq_refl).
  - exact (proj1 (proj2 (save_touches_own_counter_only (sample_ab false) true
                           fresh_process)) eq_refl).
Defined.

(** ** Sequences of operations *)

(** A thread only issues [save_field] requests. *)
Lemma writer_frame sample m now st :
  self (snd (writer_at sample m now st)) = self st /\
  exists tr,
    trace (snd (writer_at sample m now st)) = (trace st ++ tr)%list /\
    reservations tr = [].
Proof.
  unfold writer_at, save_all_fields, bind, get.
  match goal with
  | |- context [for_each ?l
                  (fun field => call_save_field _ field (@?p field)) ?s] =>
      destruct (write_loop now p l s) as (n & H1 & H2 & _)
  end.
  cbn zeta in *. split; [done|]. eexists. split; [exact H2|].
  generalize (take n (get_dataset_fields now)). clear.
  intros l. induction l as [|f l IH]; [done|]. exact IH.
Qed.

Lemma do_action_effect a c :
  pool_ok c ->
  let c' := snd (do_action a c) in
  pool_ok c' /\
  self (proc c') = advance (self (proc c)) a /\
  exists tr,
    trace (proc c') = (trace (proc c) ++ tr)%list /\
    reservations tr
    = match accepted (self (proc c)) a with
      | Some positive => [(positive, own_count (self (proc c)) positive)]
      | None => []
      end.
Proof.
  intros Hpool. destruct a as [sample use_thread|k|k now]; cbn zeta.
  - unfold advance, accepted.
    destruct (isinstance sample (type (_sample (self (proc c))))) eqn:Hty.
    + destruct (save_sample_trace_grows sample use_thread (proc c) Hty)
        as (tr & Htr & Hres).
      pose proof (save_sample_self sample use_thread (proc c)) as Hself.
      rewrite Hty in Hself.
      assert (pool_ok (snd (do_action (Call sample use_thread) c))) as Hp.
      { unfold do_action. destruct use_thread.
        - rewrite save_sample_async by done. unfold pool_ok. cbn.
          apply Forall_app. split; [done|]. constructor; [|done]. eauto.
        - rewrite save_sample_sync by done.
          by destruct (writer sample (self (proc c))
                         (after_lock sample (proc c))) as [[[]|e] st']. }
      split; [done|]. clear Hp.
      unfold do_action.
      destruct (save_sample sample use_thread (proc c)) as [[[t|]|e] st'];
        cbn [snd proc] in *; (split; [done|]);
        eexists; (split; [exact Htr|]); unfold reservations in *; cbn;
        by rewrite Hres.
    + unfold do_action. rewrite save_sample_rejected by done. cbn.
      split; [done|]. split; [done|]. exists []. by rewrite app_nil_r.
  - unfold advance, accepted, do_action.
    destruct (pool c !! k) as [t|] eqn:Hk; cbn.
    + assert (exists sample m, thread_target t = writer_at sample m)
        as (s & m & Ht).
      { unfold pool_ok in Hpool. rewrite Forall_lookup in Hpool. eauto. }
      unfold target. rewrite Ht.
      destruct (writer_frame s m (thread_sample t) (proc c))
        as (H1 & tr & H2 & H3).
      destruct (writer_at s m (thread_sample t) (proc c)) as [r st'].
      cbn in *.
      split. { unfold pool_ok in *. cbn. by apply Forall_delete. }
      split; [done|]. eauto.
    + split; [done|]. split; [done|]. exists []. by rewrite app_nil_r.
  - unfold advance, accepted, do_action. cbn [snd proc pool].
    split.
    { unfold pool_ok in *. cbn [pool]. apply Forall_alter; [done|].
      intros t _ Ht. exact Ht. }
    split; [done|]. exists []. by rewrite app_nil_r.
Qed.

Lemma ordinals_app positive (a b : list event) :
  ordinals positive (a ++ b)
  = (ordinals positive a ++ ordinals positive b)%list.
Proof.
  unfold ordinals. by rewrite reservations_app, List.filter_app, map_app.
Qed.

Lemma reserves_advance m a positive b :
  reserves (advance m a) positive b = reserves m positive b.
Proof.
  unfold reserves, accepted, advance, accepted.
  destruct a as [s u|k|k now]; [|done..].
  by destruct (isinstance s (type (_sample m))).
Qed.

Lemma saves_of_advance m a positive acts :
  saves_of (advance m a) positive acts = saves_of m positive acts.
Proof.
  unfold saves_of. f_equal. apply List.filter_ext. intros b.
  apply reserves_advance.
Qed.

Lemma own_count_advance m a positive :
  own_count (advance m a) positive
  = own_count m positive + (if reserves m positive a then 1 else 0).
Proof.
  unfold advance, reserves.
  destruct (accepted m a) as [[]|]; destruct positive; cbn; lia.
Qed.

Lemma run_cons a acts c :
  run (a :: acts) c
  = (fst (do_action a c) :: fst (run acts (snd (do_action a c))),
     snd (run acts (snd (do_action a c)))).
Proof.
  cbn. destruct (do_action a c) as [r c1]. cbn.
  by destruct (run acts c1).
Qed.

Lemma saves_of_cons m positive a acts :
  saves_of m positive (a :: acts)
  = (if reserves m positive a then 1 else 0) + saves_of m positive acts.
Proof.
  unfold saves_of. cbn [List.filter].
  by destruct (reserves m positive a).
Qed.

Lemma ordinals_step m a positive tr :
  reservations tr
  = match accepted m a with
    | Some q => [(q, own_count m q)]
    | None => []
    end ->
  ordinals positive tr
  = if reserves m positive a then [own_count m positive] else [].
Proof.
  unfold ordinals, reserves. intros ->.
  destruct (accepted m a) as [q|]; [|done]. cbn.
  destruct (Bool.eqb q positive) eqn:E; [|done].
  by apply Bool.eqb_prop in E as ->.
Qed.

Lemma run_effect acts c :
  pool_ok c ->
  let c' := snd (run acts c) in
  pool_ok c' /\
  (forall positive,
      own_count (self (proc c')) positive
      = own_count (self (proc c)) positive
        + saves_of (self (proc c)) positive acts) /\
  exists tr,
    trace (proc c') = (trace (proc c) ++ tr)%list /\
    forall positive,
      ordinals positive tr
      = seq (own_count (self (proc c)) positive)
          (saves_of (self (proc c)) positive acts).
Proof.
  revert c. induction acts as [|a acts IH]; intros c Hpool; cbn zeta.
  - cbn. split; [done|]. split; [intros; unfold saves_of; cbn; lia|].
    exists []. by rewrite app_nil_r.
  - rewrite run_cons. cbn [snd].
    destruct (do_action_effect a c Hpool) as (Hp1 & Hs1 & tr1 & Ht1 & Hr1).
    destruct (IH _ Hp1) as (Hp2 & Hs2 & tr2 & Ht2 & Hr2).
    split; [done|]. split.
    + intros positive.
      rewrite Hs2, Hs1, saves_of_advance, own_count_advance, saves_of_cons.
      lia.
    + exists (tr1 ++ tr2)%list. split.
      { by rewrite Ht2, Ht1, app_assoc. }
      intros positive. rewrite ordinals_app, Hr2, Hs1.
      rewrite saves_of_advance, own_count_advance, saves_of_cons.
      rewrite (ordinals_step _ _ _ _ Hr1).
      destruct (reserves (self (proc c)) positive a); cbn.
      * by rewrite Nat.add_1_r.
      * by rewrite Nat.add_0_r.
Qed.

(** ** File names are told apart by polarity and ordinal *)

Lemma spec_file_name_cut positive field total ordinal :
  spec_file_name positive field total ordinal
  = (polarity_name positive +:+ "_" +:+ field +:+ "_" +:+ str total +:+ "_")
    +:+ "(" +:+ str ordinal +:+ ")".
Proof. unfold spec_file_name. by rewrite !append_assoc. Qed.

Lemma spec_file_name_chars positive field total ordinal :
  exists prefix,
    list_ascii_of_string (spec_file_name positive field total ordinal)
    = ((prefix ++ "("%char :: list_ascii_of_string (str ordinal))
       ++ [")"%char])%list.
Proof.
  eexists. rewrite spec_file_name_cut, chars_append.
  change ("(" +:+ str ordinal +:+ ")") with (String "(" (str ordinal +:+ ")")).
  cbn [list_ascii_of_string]. rewrite (chars_append (str ordinal)).
  change (list_ascii_of_string ")") with [")"%char].
  rewrite app_comm_cons, app_assoc. reflexivity.
Qed.

Lemma file_name_inj p1 f1 c1 a1 b1 p2 f2 c2 a2 b2 :
  file_name p1 f1 c1 a1 b1 = file_name p2 f2 c2 a2 b2 ->
  p1 = p2 /\ c1 = c2.
Proof.
  rewrite !file_name_spec. intros E. split.
  - unfold spec_file_name, polarity_name in E.
    destruct p1, p2; try done; rewrite !append_cons in E; discriminate.
  - apply (f_equal list_ascii_of_string) in E.
    destruct (spec_file_name_chars p1 f1 (a1 + b1) c1) as [x1 E1].
    destruct (spec_file_name_chars p2 f2 (a2 + b2) c2) as [x2 E2].
    rewrite E1, E2 in E.
    apply app_inj_tail in E as [E _].
    apply cut_at_last in E as [_ E]; try apply paren_not_in_numeral.
    by apply str_inj, chars_inj.
Qed.

Lemma nodup_by_polarity (l : list (bool * nat)) :
  (forall p, NoDup (map snd (List.filter (fun r => Bool.eqb (fst r) p) l))) ->
  NoDup l.
Proof.
  induction l as [|[p n] l IH]; intros H; [constructor|].
  constructor.
  - intros Hin. specialize (H p). cbn in H.
    rewrite Bool.eqb_reflx in H. cbn in H. apply NoDup_cons in H as [H _].
    apply H. apply list_elem_of_In, in_map_iff. exists (p, n). split; [done|].
    apply filter_In. split; [by apply list_elem_of_In|].
    cbn. apply Bool.eqb_reflx.
  - apply IH. intros q. specialize (H q). cbn in H.
    destruct (Bool.eqb p q); [|done]. cbn in H. by apply NoDup_cons in H as [_ H].
Qed.

Lemma omap_nodup_lookup {A B} (f : A -> option B) (l : list A) i j x y a b :
  NoDup (omap f l) -> i <> j ->
  l !! i = Some x -> l !! j = Some y -> f x = Some a -> f y = Some b ->
  a <> b.
Proof.
  revert i j. induction l as [|z l IH]; intros i j Hnd Hij Hi Hj Hx Hy;
    [done|].
  cbn in Hnd. destruct i as [|i], j as [|j]; simplify_eq/=.
  - rewrite Hx in Hnd. apply NoDup_cons in Hnd as [Hnd _].
    intros ->. apply Hnd. apply list_elem_of_omap. exists y. split; [|done].
    by eapply list_elem_of_lookup_2.
  - rewrite Hy in Hnd. apply NoDup_cons in Hnd as [Hnd _].
    intros <-. apply Hnd. apply list_elem_of_omap. exists x. split; [|done].
    by eapply list_elem_of_lookup_2.
  - apply (IH i j); try done; [|congruence].
    destruct (f z); [by apply NoDup_cons in Hnd as [_ Hnd]|done].
Qed.

Lemma file_name_field_inj p c a b f g :
  file_name p f c a b = file_name p g c a b -> f = g.
Proof.
  rewrite !file_name_spec. unfold spec_file_name. intros E.
  apply String.app_inj, String.app_inj in E.
  apply chars_inj. apply (f_equal list_ascii_of_string) in E.
  rewrite !chars_append in E. by apply app_inv_tail in E.
Qed.

Lemma start_pool_ok m fs : pool_ok (start m fs).
Proof. constructor. Qed.

(** Whatever the sequence of saves and thread runs on one manager, no
    (polarity, ordinal) pair is reserved twice; the ordinals reserved for a
    polarity are, in order, the initial count of that polarity and its
    successors, one for each accepted save of that polarity; and the file
    names of two different saves differ, as do the names one save gives to
    two different fields. *)
Lemma sequence_reservations
    (m : DatasetDiskManager) (fs : filesystem) (acts : list action) :
  let tr := trace (proc (snd (run acts (start m fs)))) in
  NoDup (reservations tr) /\
  (forall positive,
      ordinals positive tr
      = seq (own_count m positive) (saves_of m positive acts)) /\
  (forall i j p1 c1 a1 b1 p2 c2 a2 b2,
      i <> j ->
      tr !! i = Some (Reserved p1 c1 a1 b1) ->
      tr !! j = Some (Reserved p2 c2 a2 b2) ->
      forall f g, file_name p1 f c1 a1 b1 <> file_name p2 g c2 a2 b2) /\
  (forall p c a b f g,
      file_name p f c a b = file_name p g c a b -> f = g).
Proof.
  cbn zeta.
  destruct (run_effect acts (start m fs) (start_pool_ok m fs))
    as (_ & _ & tr & Ht & Hord).
  cbn [start proc trace self app] in Ht, Hord. rewrite Ht.
  assert (NoDup (reservations tr)) as Hnd.
  { apply nodup_by_polarity. intros p.
    change (NoDup (ordinals p tr)). rewrite Hord. apply NoDup_seq. }
  split; [done|]. split; [done|]. split.
  - intros i j p1 c1 a1 b1 p2 c2 a2 b2 Hij Hi Hj f g E.
    apply file_name_inj in E as [-> ->].
    by eapply (omap_nodup_lookup reservation tr i j _ _ (p2, c2) (p2, c2)).
  - apply file_name_field_inj.
Qed.

(** ** The disk under [mkdir] *)

Lemma stat_insert_eq (fs : filesystem) p n :
  p <> "" -> stat (<[p := n]> fs) p = Some n.
Proof.
  intros Hp. unfold stat. rewrite bool_decide_eq_false_2 by done.
  apply lookup_insert_eq.
Qed.

Lemma stat_insert_ne (fs : filesystem) p q n :
  p <> q -> stat (<[p := n]> fs) q = stat fs q.
Proof.
  intros Hp. unfold stat. destruct (bool_decide (q = "")); [done|].
  by apply lookup_insert_ne.
Qed.

Lemma stat_empty_path (fs : filesystem) : stat fs "" = None.
Proof. reflexivity. Qed.

Lemma mkdir_if_absent_cases p fs : mkdir_result p fs (mkdir_if_absent p fs).
Proof.
  unfold mkdir_if_absent, bind, get, when, os_path.exists_, os.mkdir.
  destruct (stat fs p) as [n|] eqn:Hp.
  - rewrite bool_decide_eq_true_2 by eauto. cbn. by econstructor.
  - rewrite bool_decide_eq_false_2 by (by intros [? ?]). cbn. rewrite Hp.
    destruct (stat fs (os_path.dirname p)) as [[]|] eqn:Hd.
    + constructor; try done. intros ->. by rewrite stat_empty_path in Hd.
    + by constructor.
    + by constructor.
Qed.

Lemma filter_length_perm {A} (f : A -> bool) (l l' : list A) :
  l ≡ₚ l' -> length (List.filter f l) = length (List.filter f l').
Proof.
  induction 1 as [|x l l' _ IH|x y l|l1 l2 l3 _ IH1 _ IH2]; cbn.
  - done.
  - destruct (f x); cbn; by rewrite IH.
  - destruct (f x), (f y); done.
  - by rewrite IH1.
Qed.

Lemma isfile_mkdir (fs : filesystem) p q :
  stat fs p = None ->
  os_path.isfile (<[p := Dir]> fs) q = os_path.isfile fs q.
Proof.
  intros Hp. unfold os_path.isfile. destruct (decide (p = q)) as [<-|Hne].
  - rewrite Hp. apply bool_decide_ext. unfold stat.
    destruct (bool_decide (p = "")); [done|]. by rewrite lookup_insert_eq.
  - by rewrite stat_insert_ne.
Qed.

(** A new directory is not a regular file: no count changes. *)
Lemma regular_files_mkdir (fs : filesystem) p d :
  p <> "" -> stat fs p = None ->
  regular_files (<[p := Dir]> fs) d = regular_files fs d.
Proof.
  intros Hne Hp. unfold regular_files.
  assert (fs !! p = None) as Hlook.
  { unfold stat in Hp. by rewrite bool_decide_eq_false_2 in Hp. }
  rewrite (List.filter_ext _ (fun name => os_path.isfile fs (os_path.join d [name])))
    by (intros; by apply isfile_mkdir).
  unfold os.entries.
  rewrite (filter_length_perm _ _
             (omap (os.entry_name d) (map fst ((p, Dir) :: map_to_list fs)))).
  2:{ apply omap_Permutation, Permutation_map. by apply map_to_list_insert. }
  cbn [map fst]. cbn [omap list_omap].
  destruct (os.entry_name d p) as [name|] eqn:E; [|done].
  cbn [List.filter].
  assert (os_path.isfile fs (os_path.join d [name]) = false) as ->; [|done].
  unfold os.entry_name in E. case_bool_decide as H; [|done].
  destruct H as [_ H]. injection E as <-. cbn. rewrite H.
  unfold os_path.isfile. rewrite Hp. by apply bool_decide_eq_false_2.
Qed.

(** One directory made sure of. *)
Lemma mkdir_if_absent_effect p fs :
  let res := mkdir_if_absent p fs in
  (forall q n, stat fs q = Some n -> stat (snd res) q = Some n) /\
  (forall q, stat (snd res) q = Some File -> stat fs q = Some File) /\
  (forall d, regular_files (snd res) d = regular_files fs d) /\
  (fst res = Returned tt -> is_Some (stat (snd res) p)) /\
  (is_Some (stat fs p) -> res = (Returned tt, fs)).
Proof.
  cbn zeta. destruct (mkdir_if_absent_cases p fs) as [n H| Hne Hp Hd | Hp Hd | Hp Hd];
    cbn [fst snd].
  - repeat split; eauto.
  - repeat split.
    + intros q n Hq. rewrite stat_insert_ne; [done|]. congruence.
    + intros q Hq. destruct (decide (p = q)) as [<-|];
        [by rewrite stat_insert_eq in Hq | by rewrite stat_insert_ne in Hq].
    + intros d. by apply regular_files_mkdir.
    + intros _. by rewrite stat_insert_eq.
    + rewrite Hp. by intros [? ?].
  - repeat split; try done. rewrite Hp. by intros [? ?].
  - repeat split; try done. rewrite Hp. by intros [? ?].
Qed.

(** A list of directories made sure of, one after the other. *)
Lemma ensure_all_effect l fs :
  let res := for_each l mkdir_if_absent fs in
  (forall q n, stat fs q = Some n -> stat (snd res) q = Some n) /\
  (forall q, stat (snd res) q = Some File -> stat fs q = Some File) /\
  (forall d, regular_files (snd res) d = regular_files fs d) /\
  (fst res = Returned tt -> Forall (fun p => is_Some (stat (snd res) p)) l) /\
  (Forall (fun p => is_Some (stat fs p)) l -> res = (Returned tt, fs)).
Proof.
  revert fs. induction l as [|p l IH]; intros fs; cbn zeta.
  - cbn. repeat split; eauto.
  - rewrite for_each_cons.
    destruct (mkdir_if_absent_effect p fs) as (A1 & A2 & A3 & A4 & A5).
    destruct (mkdir_if_absent p fs) as [[[]|e] fs1] eqn:E; cbn [fst snd] in *.
    + destruct (IH fs1) as (B1 & B2 & B3 & B4 & B5). repeat split.
      * eauto.
      * eauto.
      * intros d. by rewrite B3, A3.
      * intros H. constructor; [|by apply B4].
        destruct (A4 eq_refl) as [n Hn]. eauto.
      * intros H. apply Forall_cons in H as [Hp Hl].
        injection (A5 Hp) as <-. by apply B5.
    + repeat split; try done.
      intros H. apply Forall_cons in H as [Hp Hl]. by specialize (A5 Hp).
Qed.

Lemma for_each_app {S A} (l1 l2 : list A) (body : A -> M S unit) s :
  for_each (l1 ++ l2) body s
  = match for_each l1 body s with
    | (Returned _, s') => for_each l2 body s'
    | (Raised e, s') => (Raised e, s')
    end.
Proof.
  revert s. induction l1 as [|x l1 IH]; intros s; [done|].
  rewrite <- app_comm_cons, !for_each_cons.
  destruct (body x s) as [[[]|e] s']; [apply IH|done].
Qed.

Lemma for_each_map {S A B} (f : A -> B) (l : list A) (body : B -> M S unit) s :
  for_each (map f l) body s = for_each l (fun x => body (f x)) s.
Proof.
  revert s. induction l as [|x l IH]; intros s; [done|].
  cbn [map]. rewrite !for_each_cons.
  destruct (body (f x) s) as [[[]|e] s']; [apply IH|done].
Qed.

(** [_set_up_folders] is the check of the parent followed by the layout. *)
Lemma _set_up_folders_layout m fs :
  _set_up_folders m fs
  = if os_path.exists_ fs (os_path.dirname (_dataset_path m))
    then for_each (layout m) mkdir_if_absent fs
    else (Raised FileNotFoundError, fs).
Proof.
  unfold _set_up_folders. unfold bind at 1, get at 1.
  destruct (os_path.exists_ fs (os_path.dirname (_dataset_path m)));
    [|done]. cbn [negb].
  unfold layout.
  rewrite (for_each_app [_; _; _; _]).
  unfold bind.
  do 4 (rewrite for_each_cons;
        match goal with
        | |- context [mkdir_if_absent ?p ?s] =>
            destruct (mkdir_if_absent p s) as [[[]|?] ?]; [|done]
        end).
  cbn [for_each]. unfold ret, bind.
  rewrite for_each_app, !for_each_map.
  match goal with
  | |- context [for_each ?l ?b ?s] =>
      destruct (for_each l b s) as [[[]|?] ?]; [|done]
  end.
  rewrite for_each_map.
  match goal with
  | |- context [for_each ?l ?b ?s] =>
      by destruct (for_each l b s) as [[[]|?] ?]
  end.
Qed.

Lemma count_files_run d fs :
  count_files d fs
  = match stat fs d with
    | Some Dir => (Returned (regular_files fs d), fs)
    | Some File => (Raised NotADirectoryError, fs)
    | None => (Raised FileNotFoundError, fs)
    end.
Proof.
  unfold count_files, bind, os.listdir, get, ret.
  by destruct (stat fs d) as [[]|].
Qed.

(** The constructor, step by step. *)
Lemma init_run ds folder sample fs :
  __init__ ds folder sample fs
  = match _set_up_folders (blank ds folder sample) fs with
    | (Returned _, fs1) =>
        match _count_samples (blank ds folder sample) fs1 with
        | (Returned counts, fs2) =>
            (Returned {| _dataset_path := ds; _folder_name := folder;
                         _sample := sample;
                         _negative_count := fst counts;
                         _positive_count := snd counts |}, fs2)
        | (Raised e, fs2) => (Raised e, fs2)
        end
    | (Raised e, fs1) => (Raised e, fs1)
    end.
Proof. reflexivity. Qed.

Lemma _count_samples_run m fs :
  _count_samples m fs
  = match get_dataset_fields (_sample m) with
    | [] => (Raised IndexError, fs)
    | field :: _ =>
        match stat fs (field_directory m false field) with
        | Some Dir =>
            match stat fs (field_directory m true field) with
            | Some Dir =>
                (Returned (regular_files fs (field_directory m false field),
                           regular_files fs (field_directory m true field)),
                 fs)
            | Some File => (Raised NotADirectoryError, fs)
            | None => (Raised FileNotFoundError, fs)
            end
        | Some File => (Raised NotADirectoryError, fs)
        | None => (Raised FileNotFoundError, fs)
        end
    end.
Proof.
  unfold _count_samples.
  destruct (get_dataset_fields (_sample m)) as [|field rest]; [done|].
  unfold bind. rewrite count_files_run.
  change (os_path.join (_dataset_path m)
            [_folder_name m; _NEGATIVE_DATA_FOLDER; field])
    with (field_directory m false field).
  destruct (stat fs (field_directory m false field)) as [[]|]; try done.
  rewrite count_files_run.
  change (os_path.join (_dataset_path m)
            [_folder_name m; _POSITIVE_DATA_FOLDER; field])
    with (field_directory m true field).
  by destruct (stat fs (field_directory m true field)) as [[]|].
Qed.

(** What a successful construction amounts to. *)
Lemma init_returned ds folder sample fs m fs1 :
  __init__ ds folder sample fs = (Returned m, fs1) ->
  _set_up_folders (blank ds folder sample) fs = (Returned tt, fs1) /\
  exists field rest,
    get_dataset_fields sample = field :: rest /\
    stat fs1 (field_directory m false field) = Some Dir /\
    stat fs1 (field_directory m true field) = Some Dir /\
    m = {| _dataset_path := ds; _folder_name := folder; _sample := sample;
           _negative_count := regular_files fs1 (field_directory m false field);
           _positive_count := regular_files fs1 (field_directory m true field) |}.
Proof.
  rewrite init_run.
  destruct (_set_up_folders (blank ds folder sample) fs) as [[[]|e] fs0];
    [|done].
  rewrite _count_samples_run. cbn [blank _sample].
  destruct (get_dataset_fields sample) as [|field rest] eqn:Hf; [done|].
  destruct (stat fs0 (field_directory _ false field)) as [[]|] eqn:Hn;
    try done.
  destruct (stat fs0 (field_directory _ true field)) as [[]|] eqn:Hp;
    try done.
  intros [= <- <-]. split; [done|]. exists field, rest. by repeat split.
Qed.

Lemma _set_up_folders_effect m fs :
  let res := _set_up_folders m fs in
  (forall q n, stat fs q = Some n -> stat (snd res) q = Some n) /\
  (forall q, stat (snd res) q = Some File -> stat fs q = Some File) /\
  (forall d, regular_files (snd res) d = regular_files fs d) /\
  (fst res = Returned tt ->
   os_path.exists_ fs (os_path.dirname (_dataset_path m)) = true /\
   Forall (fun p => is_Some (stat (snd res) p)) (layout m)).
Proof.
  cbn zeta. rewrite _set_up_folders_layout.
  destruct (os_path.exists_ fs (os_path.dirname (_dataset_path m))).
  - destruct (ensure_all_effect (layout m) fs) as (A1 & A2 & A3 & A4 & _).
    repeat split; auto.
  - repeat split; auto; done.
Qed.

Lemma field_directory_in_layout m positive field :
  field ∈ get_dataset_fields (_sample m) ->
  field_directory m positive field ∈ layout m.
Proof.
  intros Hin. unfold layout. rewrite !elem_of_app.
  right. destruct positive; [left|right];
    apply list_elem_of_In, in_map_iff; exists field;
    (split; [done|by apply list_elem_of_In]).
Qed.

(** C4.  A constructor that returns has counted the regular files of two
    directories only, the positive and the negative directory of the first
    declared field, and has stored the two numbers in the counter of the
    same polarity; directory setup adds no regular file, so these are the
    numbers of files the tree held when construction began. *)
Theorem initial_counters_count_files
    (ds folder : string) (sample : GenericSample) (fs fs1 : filesystem)
    (m : DatasetDiskManager) :
  __init__ ds folder sample fs = (Returned m, fs1) ->
  exists field rest,
    get_dataset_fields sample = field :: rest /\
    _positive_count m = regular_files fs1 (field_directory m true field) /\
    _negative_count m = regular_files fs1 (field_directory m false field) /\
    (forall d, regular_files fs1 d = regular_files fs d) /\
    _dataset_path m = ds /\ _folder_name m = folder /\ _sample m = sample.
Proof.
  intros H. destruct (init_returned _ _ _ _ _ _ H)
    as (Hs & field & rest & Hf & Hn & Hp & Hm).
  exists field, rest. split; [done|].
  destruct (_set_up_folders_effect (blank ds folder sample) fs)
    as (_ & _ & Hr & _).
  rewrite Hs in Hr. cbn [snd] in Hr.
  rewrite Hm at 1 3. cbn. rewrite Hm. cbn. by repeat split.
Qed.

(** ** Parents of joined paths *)

Lemma has_sep_append a b : has_sep (a +:+ b) = has_sep a || has_sep b.
Proof.
  induction a as [|c a IH]; [done|].
  rewrite append_cons. cbn. by rewrite IH, orb_assoc.
Qed.

Lemma endswith_has_sep a : endswith_sep a = true -> has_sep a = true.
Proof.
  induction a as [|c a IH]; [done|]. cbn.
  destruct a as [|c' a]; [intros ->; done|].
  intros H. rewrite (IH H). apply orb_true_r.
Qed.

Lemma upto_last_sep_append a b :
  endswith_sep a = true -> has_sep b = false -> upto_last_sep (a +:+ b) = a.
Proof.
  intros Ha Hb. induction a as [|c a IH]; [done|].
  rewrite append_cons. cbn [upto_last_sep]. rewrite has_sep_append, Hb.
  destruct a as [|c' a].
  - cbn in Ha. cbn. by rewrite Ha.
  - rewrite (endswith_has_sep (String c' a)) by exact Ha. cbn [orb].
    by rewrite IH.
Qed.

Lemma upto_last_sep_no_sep b : has_sep b = false -> upto_last_sep b = "".
Proof.
  destruct b as [|c b]; [done|]. cbn.
  intros H. apply orb_false_elim in H as [-> ->]. done.
Qed.

Lemma endswith_append_sep a : endswith_sep (a +:+ "/") = true.
Proof.
  induction a as [|c a IH]; [done|]. rewrite append_cons.
  cbn [endswith_sep]. destruct (a +:+ "/") eqn:E; [|done].
  by destruct a.
Qed.

Lemma all_sep_append_sep a :
  a <> "" -> endswith_sep a = false -> all_sep (a +:+ "/") = false.
Proof.
  induction a as [|c a IH]; [done|]. intros _ H. rewrite append_cons. cbn.
  destruct a as [|c' a].
  - cbn in H. by rewrite H.
  - rewrite IH; [apply andb_false_r|done|done].
Qed.

Lemma rstrip_append_sep a :
  a <> "" -> endswith_sep a = false -> rstrip_sep (a +:+ "/") = a.
Proof.
  induction a as [|c a IH]; [done|]. intros _ H. rewrite append_cons.
  cbn [rstrip_sep]. destruct a as [|c' a].
  - cbn in H. cbn. by rewrite H.
  - rewrite IH by done. done.
Qed.

(** The parent of a path joined with a single component. *)
Lemma dirname_join2 a b :
  has_sep b = false ->
  os_path.dirname (os_path.join2 a b) = a
  \/ os_path.dirname (os_path.join2 a b) = os_path.dirname a.
Proof.
  intros Hb. unfold os_path.join2.
  assert (startswith_sep b = false) as ->.
  { destruct b as [|c b]; [done|]. cbn in *.
    by apply orb_false_elim in Hb as [-> _]. }
  case_bool_decide as Ha; cbn [orb].
  - subst a. left. unfold os_path.dirname. cbn.
    by rewrite upto_last_sep_no_sep.
  - destruct (endswith_sep a) eqn:He.
    + right. unfold os_path.dirname.
      rewrite upto_last_sep_append by done.
      assert (upto_last_sep a = a) as Hu.
      { pose proof (upto_last_sep_append a "" He eq_refl) as H.
        by rewrite append_empty_r in H. }
      by rewrite Hu.
    + left. unfold os_path.dirname.
      rewrite <- append_assoc.
      rewrite upto_last_sep_append by (done || apply endswith_append_sep).
      rewrite all_sep_append_sep by done.
      rewrite bool_decide_eq_false_2 by (by destruct a).
      cbn. by apply rstrip_append_sep.
Qed.

(** ** When [mkdir] finds its parents *)

Lemma chain_weaken known known' l :
  known ⊆ known' -> chain known l -> chain known' l.
Proof.
  revert known known'. induction l as [|p l IH]; intros K K' Hsub; [done|].
  cbn. intros [H1 H2]. split; [by apply Hsub|].
  eapply IH; [|done]. by apply list_subseteq_skip.
Qed.

Lemma chain_app known l1 l2 :
  chain known l1 -> chain known l2 -> chain known (l1 ++ l2).
Proof.
  revert known. induction l1 as [|p l1 IH]; intros K; [done|].
  cbn. intros [H1 H2] H3. split; [done|]. apply IH; [done|].
  eapply chain_weaken; [|done]. by apply list_subseteq_cons.
Qed.

Lemma chain_children known a names :
  a ∈ known -> os_path.dirname a ∈ known ->
  Forall (fun b => has_sep b = false) names ->
  chain known (map (fun b => os_path.join a [b]) names).
Proof.
  intros Ha Hd Hn. revert known Ha Hd.
  induction Hn as [|b names Hb _ IH]; intros K Ha Hd; [done|].
  cbn [map chain]. split.
  - cbn. by destruct (dirname_join2 a b Hb) as [-> | ->].
  - apply IH; by apply list_elem_of_further.
Qed.

Lemma ensure_all_finds_parents known l fs :
  chain known l ->
  Forall (fun q => is_Some (stat fs q)) known ->
  fst (for_each l mkdir_if_absent fs) <> Raised FileNotFoundError.
Proof.
  revert known fs. induction l as [|p l IH]; intros K fs Hc HK; [done|].
  destruct Hc as [Hd Hc]. rewrite for_each_cons.
  assert (is_Some (stat fs (os_path.dirname p))) as [n Hn].
  { rewrite Forall_forall in HK. by apply HK. }
  destruct (mkdir_if_absent_cases p fs) as [n' H| Hne Hp Hd' | Hp Hd' | Hp Hd'].
  - apply (IH (p :: K)); [done|]. constructor; eauto.
  - apply (IH (p :: K)); [done|]. constructor.
    + by rewrite stat_insert_eq.
    + eapply Forall_impl; [exact HK|]. intros q [nq Hq]. cbn.
      rewrite stat_insert_ne; [eauto|congruence].
  - done.
  - congruence.
Qed.

Ltac in_list :=
  first [apply list_elem_of_here | apply list_elem_of_further; in_list].

Lemma layout_chain m :
  has_sep (_folder_name m) = false ->
  Forall (fun f => has_sep f = false) (get_dataset_fields (_sample m)) ->
  chain [os_path.dirname (_dataset_path m)] (layout m).
Proof.
  intros Hfolder Hfields. unfold layout.
  set (ds := _dataset_path m).
  set (fp := os_path.join ds [_folder_name m]).
  set (pos := os_path.join fp [_POSITIVE_DATA_FOLDER]).
  set (neg := os_path.join fp [_NEGATIVE_DATA_FOLDER]).
  assert (os_path.dirname fp ∈ [ds; os_path.dirname ds]) as Hfp.
  { destruct (dirname_join2 ds (_folder_name m) Hfolder) as [H|H];
      change (os_path.join2 ds (_folder_name m)) with fp in H;
      rewrite H; in_list. }
  assert (os_path.dirname pos ∈ [fp; ds; os_path.dirname ds]) as Hpos.
  { destruct (dirname_join2 fp _POSITIVE_DATA_FOLDER eq_refl) as [H|H];
      change (os_path.join2 fp _POSITIVE_DATA_FOLDER) with pos in H;
      rewrite H; [in_list|by apply list_elem_of_further]. }
  assert (os_path.dirname neg ∈ [fp; ds; os_path.dirname ds]) as Hneg.
  { destruct (dirname_join2 fp _NEGATIVE_DATA_FOLDER eq_refl) as [H|H];
      change (os_path.join2 fp _NEGATIVE_DATA_FOLDER) with neg in H;
      rewrite H; [in_list|by apply list_elem_of_further]. }
  cbn [app chain]. split; [in_list|].
  split; [done|]. split; [done|].
  split; [by apply list_elem_of_further|].
  apply chain_app; apply chain_children; try done; try in_list.
  - by do 2 apply list_elem_of_further.
  - by do 2 apply list_elem_of_further.
Qed.

Lemma exists_is_some fs p :
  os_path.exists_ fs p = true <-> is_Some (stat fs p).
Proof. unfold os_path.exists_. apply bool_decide_eq_true. Qed.

(** C6 as stated fails: with a nested folder name the parent of the root
    exists, the root gets created, and construction still ends in
    [FileNotFoundError]. *)
Lemma nested_folder_name_fails_late :
  os_path.exists_ root_disk (os_path.dirname "/data/ds") = true /\
  fst (__init__ "/data/ds" "a/b" (sample_ab true) root_disk)
  = Raised FileNotFoundError /\
  stat root_disk "/data/ds" = None /\
  stat (snd (__init__ "/data/ds" "a/b" (sample_ab true) root_disk)) "/data/ds"
  = Some Dir.
Proof. vm_compute. done. Qed.

(** C6, amended.  When the parent of the dataset root does not exist,
    construction raises [FileNotFoundError] and leaves the disk as it was.
    When the folder name and the field names contain no separator, that is
    the only way in which construction raises [FileNotFoundError]. *)
Theorem missing_parent_aborts_construction
    (ds folder : string) (sample : GenericSample) (fs : filesystem) :
  (os_path.exists_ fs (os_path.dirname ds) = false ->
   __init__ ds folder sample fs = (Raised FileNotFoundError, fs)) /\
  (has_sep folder = false ->
   Forall (fun f => has_sep f = false) (get_dataset_fields sample) ->
   (fst (__init__ ds folder sample fs) = Raised FileNotFoundError
    <-> os_path.exists_ fs (os_path.dirname ds) = false)).
Proof.
  assert (os_path.exists_ fs (os_path.dirname ds) = false ->
          __init__ ds folder sample fs = (Raised FileNotFoundError, fs)) as A.
  { intros H. rewrite init_run, _set_up_folders_layout. cbn [blank _dataset_path].
    by rewrite H. }
  split; [exact A|]. intros Hfolder Hfields. split; [|by intros ->%A].
  intros Hraise.
  destruct (os_path.exists_ fs (os_path.dirname ds)) eqn:Hex; [|done].
  exfalso. revert Hraise. rewrite init_run.
  destruct (_set_up_folders_effect (blank ds folder sample) fs)
    as (_ & _ & _ & Hall).
  pose proof (_set_up_folders_layout (blank ds folder sample) fs) as Hl.
  cbn [blank _dataset_path] in Hl. rewrite Hex in Hl.
  destruct (_set_up_folders (blank ds folder sample) fs) as [[[]|e] fs1].
  - destruct (Hall eq_refl) as [_ Hdirs]. cbn [snd] in Hdirs.
    rewrite _count_samples_run. cbn [blank _sample].
    destruct (get_dataset_fields sample) as [|field rest] eqn:Hf; [done|].
    rewrite Forall_forall in Hdirs.
    assert (forall positive,
               is_Some (stat fs1 (field_directory (blank ds folder sample)
                                    positive field))) as Hdir.
    { intros positive. apply Hdirs, field_directory_in_layout.
      cbn [blank _sample]. rewrite Hf. apply list_elem_of_here. }
    destruct (Hdir false) as [[] ->]; [|done].
    by destruct (Hdir true) as [[] ->].
  - cbn [fst]. intros [= ->].
    eapply (ensure_all_finds_parents _ (layout (blank ds folder sample)) fs).
    + by apply layout_chain.
    + constructor; [|constructor]. by apply exists_is_some.
    + by rewrite <- Hl.
Qed.

Lemma missing_parent_aborts_construction_witness :
  __init__ "/nowhere/ds" "folder" (sample_ab true) root_disk
  = (Raised FileNotFoundError, root_disk) /\
  (fst (__init__ "/data/ds" "folder" (sample_ab true) root_disk)
   = Raised FileNotFoundError
   <-> os_path.exists_ root_disk (os_path.dirname "/data/ds") = false).
Proof.
  split.
  - exact (proj1 (missing_parent_aborts_construction "/nowhere/ds" "folder"
                    (sample_ab true) root_disk) eq_refl).
  - apply (proj2 (missing_parent_aborts_construction "/data/ds" "folder"
                    (sample_ab true) root_disk)); [reflexivity|].
    repeat constructor.
Defined.

(** C9.  A sample that declares no field cannot serve as reference sample:
    the constructor never returns, and whenever directory setup goes through
    it ends in [IndexError], with the directories already made. *)
Theorem fieldless_sample_has_no_manager
    (ds folder : string) (sample : GenericSample) (fs : filesystem) :
  get_dataset_fields sample = [] ->
  (forall m fs1, __init__ ds folder sample fs <> (Returned m, fs1)) /\
  (forall fs1,
      _set_up_folders (blank ds folder sample) fs = (Returned tt, fs1) ->
      __init__ ds folder sample fs = (Raised IndexError, fs1)).
Proof.
  intros Hf. split.
  - intros m fs1 H. apply init_returned in H as (_ & f & r & H & _).
    by rewrite Hf in H.
  - intros fs1 H. rewrite init_run, H, _count_samples_run.
    cbn [blank _sample]. by rewrite Hf.
Qed.

Lemma fieldless_sample_has_no_manager_witness :
  get_dataset_fields fieldless_sample = [] /\
  fst (_set_up_folders (blank "/data/ds" "folder" fieldless_sample) root_disk)
  = Returned tt /\
  fst (__init__ "/data/ds" "folder" fieldless_sample root_disk)
  = Raised IndexError.
Proof.
  split; [reflexivity|]. split; [reflexivity|].
  rewrite (proj2 (fieldless_sample_has_no_manager "/data/ds" "folder"
                    fieldless_sample root_disk eq_refl)
             (snd (_set_up_folders (blank "/data/ds" "folder" fieldless_sample)
                     root_disk)) eq_refl).
  reflexivity.
Defined.

(** Making sure of the same directories again changes nothing and ends in
    the same way. *)
Lemma ensure_all_idempotent l fs :
  for_each l mkdir_if_absent (snd (for_each l mkdir_if_absent fs))
  = for_each l mkdir_if_absent fs.
Proof.
  revert fs. induction l as [|p l IH]; intros fs; [done|].
  rewrite (for_each_cons p l mkdir_if_absent fs).
  assert (forall fs0,
             is_Some (stat fs0 p) ->
             for_each (p :: l) mkdir_if_absent
               (snd (for_each l mkdir_if_absent fs0))
             = for_each l mkdir_if_absent fs0) as Hskip.
  { intros fs0 [n Hn].
    destruct (ensure_all_effect l fs0) as (B1 & _). apply B1 in Hn.
    destruct (mkdir_if_absent_effect p (snd (for_each l mkdir_if_absent fs0)))
      as (_ & _ & _ & _ & C5).
    rewrite for_each_cons, C5 by eauto. apply IH. }
  destruct (mkdir_if_absent_cases p fs) as [n H| Hne Hp Hd | Hp Hd | Hp Hd].
  - cbv beta iota. apply Hskip. eauto.
  - cbv beta iota. apply Hskip. rewrite stat_insert_eq; eauto.
  - cbv beta iota. cbn [snd]. rewrite for_each_cons.
    unfold mkdir_if_absent, bind, get, when, os_path.exists_, os.mkdir.
    rewrite bool_decide_eq_false_2 by (rewrite Hp; by intros [? ?]).
    cbn. by rewrite Hp, Hd.
  - cbv beta iota. cbn [snd]. rewrite for_each_cons.
    unfold mkdir_if_absent, bind, get, when, os_path.exists_, os.mkdir.
    rewrite bool_decide_eq_false_2 by (rewrite Hp; by intros [? ?]).
    cbn. by rewrite Hp, Hd.
Qed.

Lemma _set_up_folders_idempotent m fs :
  _set_up_folders m (snd (_set_up_folders m fs)) = _set_up_folders m fs.
Proof.
  rewrite (_set_up_folders_layout m fs).
  destruct (os_path.exists_ fs (os_path.dirname (_dataset_path m))) eqn:Hex.
  - rewrite _set_up_folders_layout.
    destruct (ensure_all_effect (layout m) fs) as (B1 & _).
    apply exists_is_some in Hex as [n Hn]. apply B1 in Hn.
    assert (os_path.exists_ (snd (for_each (layout m) mkdir_if_absent fs))
              (os_path.dirname (_dataset_path m)) = true) as ->
      by (apply exists_is_some; eauto).
    apply ensure_all_idempotent.
  - cbn [snd]. by rewrite _set_up_folders_layout, Hex.
Qed.

Lemma _count_samples_reads m fs : snd (_count_samples m fs) = fs.
Proof.
  rewrite _count_samples_run.
  destruct (get_dataset_fields (_sample m)); [done|].
  by repeat (destruct (stat fs _) as [[]|]; try done).
Qed.

Lemma init_idempotent ds folder sample fs :
  __init__ ds folder sample (snd (__init__ ds folder sample fs))
  = __init__ ds folder sample fs.
Proof.
  rewrite (init_run ds folder sample fs).
  pose proof (_set_up_folders_idempotent (blank ds folder sample) fs) as Hs.
  destruct (_set_up_folders (blank ds folder sample) fs) as [[[]|e] fs1]
    eqn:E; cbn [snd] in *.
  - pose proof (_count_samples_reads (blank ds folder sample) fs1) as Hc.
    destruct (_count_samples (blank ds folder sample) fs1) as [[counts|e] fs2]
      eqn:E2; cbn [snd] in *; subst fs2; by rewrite init_run, Hs, E2.
  - by rewrite init_run, Hs.
Qed.

(** C7.  Directory setup makes sure of the dataset root, the collection
    folder, the two branch directories and one directory per declared field
    in each branch: if all of them (and the parent of the root) exist it
    returns without touching the disk; if it returns, all of them exist,
    those that were absent are new directories and whatever existed is kept.
    Setup and construction are idempotent: run again on the tree they leave
    behind, they end in the same way and leave that tree as it is. *)
Theorem directory_setup_is_idempotent
    (m : DatasetDiskManager) (fs : filesystem) :
  (os_path.exists_ fs (os_path.dirname (_dataset_path m)) = true ->
   Forall (fun p => os_path.exists_ fs p = true) (layout m) ->
   _set_up_folders m fs = (Returned tt, fs)) /\
  (forall fs1,
      _set_up_folders m fs = (Returned tt, fs1) ->
      Forall (fun p => os_path.exists_ fs1 p = true) (layout m) /\
      (forall p, p ∈ layout m -> stat fs p = None -> stat fs1 p = Some Dir) /\
      (forall q n, stat fs q = Some n -> stat fs1 q = Some n)) /\
  _set_up_folders m (snd (_set_up_folders m fs)) = _set_up_folders m fs /\
  __init__ (_dataset_path m) (_folder_name m) (_sample m)
    (snd (__init__ (_dataset_path m) (_folder_name m) (_sample m) fs))
  = __init__ (_dataset_path m) (_folder_name m) (_sample m) fs.
Proof.
  split; [|split; [|split]].
  - intros Hpar Hall. rewrite _set_up_folders_layout, Hpar.
    apply ensure_all_effect. eapply Forall_impl; [exact Hall|].
    intros p. apply exists_is_some.
  - intros fs1 H.
    destruct (_set_up_folders_effect m fs) as (H1 & H2 & _ & H4).
    rewrite H in H1, H2, H4. cbn [fst snd] in *.
    destruct (H4 eq_refl) as [Hpar Hall].
    split; [|split; [|done]].
    + eapply Forall_impl; [exact Hall|]. intros p. apply exists_is_some.
    + intros p Hp Hnone. rewrite Forall_forall in Hall.
      destruct (Hall p Hp) as [[] Hn]; [done|].
      apply H2 in Hn. congruence.
  - apply _set_up_folders_idempotent.
  - apply init_idempotent.
Qed.

Lemma directory_setup_is_idempotent_witness :
  _set_up_folders fresh_manager fresh_disk = (Returned tt, fresh_disk) /\
  Forall (fun p => os_path.exists_ fresh_disk p = true) (layout fresh_manager).
Proof.
  split.
  - apply (proj1 (directory_setup_is_idempotent fresh_manager fresh_disk));
      [reflexivity|]. vm_compute. repeat constructor.
  - apply (proj1 (proj2 (directory_setup_is_idempotent fresh_manager root_disk))
             fresh_disk). reflexivity.
Defined.

(** ** Counting saves *)

Lemma run_app acts1 acts2 c :
  run (acts1 ++ acts2) c
  = (fst (run acts1 c) ++ fst (run acts2 (snd (run acts1 c))),
     snd (run acts2 (snd (run acts1 c))))%list.
Proof.
  revert c. induction acts1 as [|a acts1 IH]; intros c.
  - cbn. by destruct (run acts2 c).
  - rewrite <- app_comm_cons, !run_cons, IH. reflexivity.
Qed.

Lemma rejected_call_raises sample use_thread c :
  isinstance sample (type (_sample (self (proc c)))) = false ->
  fst (do_action (Call sample use_thread) c) = Raised TypeError.
Proof.
  intros H. unfold do_action. by rewrite save_sample_rejected.
Qed.

(** When every action completes, every call made a reservation. *)
Lemma completed_calls_reserve acts c :
  pool_ok c ->
  Forall (fun r => completed r = true) (fst (run acts c)) ->
  saves_of (self (proc c)) true acts + saves_of (self (proc c)) false acts
  = calls acts.
Proof.
  revert c. induction acts as [|a acts IH]; intros c Hpool Hall; [done|].
  rewrite run_cons in Hall. cbn [fst] in Hall.
  apply Forall_cons in Hall as [Ha Hall].
  destruct (do_action_effect a c Hpool) as (Hp1 & Hs1 & _).
  specialize (IH _ Hp1 Hall). rewrite Hs1, !saves_of_advance in IH.
  rewrite !saves_of_cons. unfold calls in *. cbn [List.filter].
  destruct a as [sample use_thread|k|k now].
  - unfold reserves, accepted.
    destruct (isinstance sample (type (_sample (self (proc c))))) eqn:Hty.
    + destruct (is_positive sample); cbn in *; lia.
    + by rewrite rejected_call_raises in Ha.
  - cbn. lia.
  - cbn. lia.
Qed.

(** C3.  After a sequence of operations that all complete, on a manager the
    constructor returned, the two counters add up to the number of saves
    plus the two numbers of files counted at construction; in any sequence
    they add up to the initial sum plus the number of saves that passed the
    type check; and no operation lowers or resets a counter. *)
Theorem counters_count_completed_saves :
  (forall ds folder sample fs fs1 m acts,
      __init__ ds folder sample fs = (Returned m, fs1) ->
      Forall (fun r => completed r = true) (fst (run acts (start m fs1))) ->
      exists field rest,
        get_dataset_fields sample = field :: rest /\
        let m' := self (proc (snd (run acts (start m fs1)))) in
        _positive_count m' + _negative_count m'
        = calls acts
          + (regular_files fs1 (field_directory m true field)
             + regular_files fs1 (field_directory m false field))) /\
  (forall m fs acts,
      let m' := self (proc (snd (run acts (start m fs)))) in
      _positive_count m' + _negative_count m'
      = _positive_count m + _negative_count m
        + (saves_of m true acts + saves_of m false acts)) /\
  (forall m fs acts1 acts2,
      let m1 := self (proc (snd (run acts1 (start m fs)))) in
      let m2 := self (proc (snd (run (acts1 ++ acts2) (start m fs)))) in
      _positive_count m <= _positive_count m1 /\
      _positive_count m1 <= _positive_count m2 /\
      _negative_count m <= _negative_count m1 /\
      _negative_count m1 <= _negative_count m2).
Proof.
  assert (forall m fs acts,
             let m' := self (proc (snd (run acts (start m fs)))) in
             _positive_count m' + _negative_count m'
             = _positive_count m + _negative_count m
               + (saves_of m true acts + saves_of m false acts)) as A.
  { intros m fs acts. cbn zeta.
    destruct (run_effect acts (start m fs) (start_pool_ok m fs))
      as (_ & Hc & _).
    pose proof (Hc true) as Ht. pose proof (Hc false) as Hf.
    cbn [own_count start proc self] in Ht, Hf. lia. }
  split; [|split; [exact A|]].
  - intros ds folder sample fs fs1 m acts Hinit Hall.
    destruct (init_returned _ _ _ _ _ _ Hinit)
      as (_ & field & rest & Hf & _ & _ & Hm).
    exists field, rest. split; [done|]. cbn zeta. rewrite A.
    pose proof (completed_calls_reserve acts (start m fs1)
                  (start_pool_ok m fs1) Hall) as Hcalls.
    cbn [start proc self] in Hcalls. rewrite Hcalls.
    rewrite Hm at 1 2. cbn [_positive_count _negative_count]. lia.
  - intros m fs acts1 acts2. cbn zeta. rewrite run_app. cbn [snd].
    destruct (run_effect acts1 (start m fs) (start_pool_ok m fs))
      as (Hp & Hc1 & _).
    destruct (run_effect acts2 _ Hp) as (_ & Hc2 & _).
    pose proof (Hc1 true) as H1. pose proof (Hc1 false) as H2.
    pose proof (Hc2 true) as H3. pose proof (Hc2 false) as H4.
    cbn [own_count start proc self] in *. lia.
Qed.

(** ** What [regular_files] counts *)

Lemma append_nonempty_r a b : b <> "" -> a +:+ b <> "".
Proof. destruct a; [done|]. by rewrite append_cons. Qed.

Lemma join2_nonempty d name : name <> "" -> os_path.join2 d name <> "".
Proof.
  intros H. unfold os_path.join2.
  destruct (startswith_sep name); [done|].
  destruct (_ || _); repeat apply append_nonempty_r; done.
Qed.

(** The regular files of [d] are the nodes of the disk that are regular
    files and are spelled [os.path.join(d, name)] for a name. *)
Lemma regular_files_spec (fs : filesystem) d :
  regular_files fs d
  = length (List.filter
              (fun kn => bool_decide (snd kn = File)
                         && bool_decide (is_Some (os.entry_name d (fst kn))))
              (map_to_list fs)).
Proof.
  unfold regular_files, os.entries.
  assert (forall kn, kn ∈ map_to_list fs -> fs !! fst kn = Some (snd kn)) as H.
  { intros [k n]. apply elem_of_map_to_list. }
  induction (map_to_list fs) as [|[k n] l IH]; [done|].
  cbn [map fst omap list_omap List.filter snd].
  assert (fs !! k = Some n) as Hk by (apply (H (k, n)), list_elem_of_here).
  specialize (IH (fun kn Hin => H kn (list_elem_of_further _ _ _ Hin))).
  destruct (os.entry_name d k) as [name|] eqn:E.
  - rewrite (bool_decide_eq_true_2 (is_Some (Some name))) by eauto.
    rewrite andb_true_r. cbn [List.filter].
    unfold os.entry_name in E. case_bool_decide as Hn; [|done].
    destruct Hn as [Hne Hj]. injection E as <-.
    assert (os_path.isfile fs (os_path.join d [os_path.basename k])
            = bool_decide (n = File)) as ->.
    { assert (k <> "") as Hk0.
      { intros Hk0. apply (join2_nonempty d (os_path.basename k) Hne).
        by rewrite Hj. }
      cbn. rewrite Hj. unfold os_path.isfile, stat.
      rewrite (bool_decide_eq_false_2 (k = "")) by done.
      rewrite Hk. apply bool_decide_ext. split; congruence. }
    destruct (bool_decide (n = File)); cbn [length]; by rewrite IH.
  - rewrite (bool_decide_eq_false_2 (is_Some None)) by (by intros [? ?]).
    rewrite andb_false_r. exact IH.
Qed.

(** ** A populated tree *)

Example populated_tree :
  regular_files populated_disk "/data/ds/folder/positive_samples/a" = 2 /\
  regular_files populated_disk "/data/ds/folder/positive_samples/b" = 2 /\
  regular_files populated_disk "/data/ds/folder/negative_samples/a" = 1 /\
  regular_files populated_disk "/data/ds/folder/negative_samples/b" = 1.
Proof. vm_compute. done. Qed.

Lemma initial_counters_count_files_witness :
  exists field rest,
    get_dataset_fields (sample_ab true) = field :: rest /\
    _positive_count populated_manager
    = regular_files populated_disk
        (field_directory populated_manager true field) /\
    _negative_count populated_manager
    = regular_files populated_disk
        (field_directory populated_manager false field) /\
    (forall d, regular_files populated_disk d = regular_files populated_disk d) /\
    _dataset_path populated_manager = "/data/ds" /\
    _folder_name populated_manager = "folder" /\
    _sample populated_manager = sample_ab true.
Proof.
  apply (initial_counters_count_files "/data/ds" "folder" (sample_ab true)
           populated_disk populated_disk populated_manager).
  vm_compute. reflexivity.
Defined.

Lemma counters_count_completed_saves_witness :
  exists field rest,
    get_dataset_fields (sample_ab true) = field :: rest /\
    let m' := self (proc (snd (run three_saves
                                 (start populated_manager populated_disk)))) in
    _positive_count m' + _negative_count m'
    = calls three_saves
      + (regular_files populated_disk
           (field_directory populated_manager true field)
         + regular_files populated_disk
             (field_directory populated_manager false field)).
Proof.
  apply (proj1 counters_count_completed_saves "/data/ds" "folder"
           (sample_ab true) populated_disk populated_disk populated_manager
           three_saves).
  - vm_compute. reflexivity.
  - vm_compute. repeat constructor.
Defined.

Example counters_after_three_more_saves :
  let m' := self (proc (snd (run three_saves
                               (start populated_manager populated_disk)))) in
  (_positive_count m', _negative_count m') = (4, 2).
Proof. vm_compute. reflexivity. Qed.

(** ** Concurrent callers: the lock serialises the reservations *)

Lemma lookup_update {A} (l : list A) i x x' j y :
  l !! i = Some x -> <[i := x']> l !! j = Some y ->
  (j = i /\ y = x') \/ (j <> i /\ l !! j = Some y).
Proof.
  intros Hi Hj. destruct (decide (i = j)) as [<-|Hne].
  - left. rewrite list_lookup_insert_eq in Hj by (by eapply lookup_lt_Some).
    by injection Hj.
  - right. by rewrite list_lookup_insert_ne in Hj.
Qed.

Lemma concurrent_start_invariant m fs callers :
  invariant m (concurrent_start m fs callers).
Proof.
  assert (forall j tj,
             sys_tasks (concurrent_start m fs callers) !! j = Some tj ->
             task_at tj = AtTypeCheck) as Hat.
  { intros j tj H. cbn in H. apply list_lookup_fmap_Some_1 in H
      as (s & -> & _). done. }
  split; cbn [concurrent_start sys_shared shared_ledger shared_locked].
  - intros _ j tj H. by rewrite (Hat _ _ H).
  - intros i j ti tj Hi _ H. by rewrite (Hat _ _ Hi) in H.
  - intros positive. unfold shared_count, own_count. cbn.
    destruct positive; rewrite Nat.sub_diag; done.
  - intros j tj H. unfold task_ok. by rewrite (Hat _ _ H).
  - intros e H. by apply elem_of_nil in H.
Qed.

Lemma task_ok_same_books sh sh' j t :
  same_books sh sh' -> task_ok sh j t -> task_ok sh' j t.
Proof.
  intros (Hn & Hp & Hl). unfold task_ok, shared_count.
  by rewrite Hn, Hp, Hl.
Qed.

(** A move that leaves the counters and the ledger alone. *)
Lemma invariant_kept m st i t sh' t' :
  invariant m st ->
  sys_tasks st !! i = Some t ->
  same_books (sys_shared st) sh' ->
  task_sample t' = task_sample t ->
  (shared_locked sh' = false ->
   in_lock (task_at t') = false /\
   (shared_locked (sys_shared st) = false \/ in_lock (task_at t) = true)) ->
  (in_lock (task_at t') = true ->
   in_lock (task_at t) = true \/ shared_locked (sys_shared st) = false) ->
  task_ok sh' i t' ->
  (forall c, taken (task_at t) = Some c -> taken (task_at t') = Some c) ->
  invariant m {| sys_shared := sh'; sys_tasks := <[i := t']> (sys_tasks st) |}.
Proof.
  intros [I1 I2 I3 I4 I5] Hi Hbooks Hsample Hfree Hexcl Hok Htaken.
  split; cbn [sys_shared sys_tasks].
  - intros Hl j tj Hj. destruct (Hfree Hl) as [Ht' Hold].
    apply (lookup_update _ _ _ _ _ _ Hi) in Hj as [[-> ->]|[Hne Hj]]; [done|].
    destruct Hold as [Hold|Hold]; [by eapply I1|].
    destruct (in_lock (task_at tj)) eqn:E; [|done].
    by destruct Hne; eapply I2.
  - assert (forall j tj, j <> i -> sys_tasks st !! j = Some tj ->
                         in_lock (task_at t') = true ->
                         in_lock (task_at tj) = true -> False) as Hone.
    { intros j tj Hne Hj Ht' Htj. destruct (Hexcl Ht') as [Hold|Hold].
      - by destruct Hne; eapply I2.
      - by rewrite (I1 Hold _ _ Hj) in Htj. }
    intros a b ta tb Ha Hb Hla Hlb.
    apply (lookup_update _ _ _ _ _ _ Hi) in Ha as [[-> ->]|[Hnea Ha]];
      apply (lookup_update _ _ _ _ _ _ Hi) in Hb as [[-> ->]|[Hneb Hb]].
    + done.
    + by destruct (Hone b tb).
    + by destruct (Hone a ta).
    + by eapply I2.
  - intros positive. destruct Hbooks as (Hn & Hp & Hl).
    unfold shared_count. rewrite Hn, Hp, Hl. apply I3.
  - intros j tj Hj.
    apply (lookup_update _ _ _ _ _ _ Hi) in Hj as [[-> ->]|[Hne Hj]]; [done|].
    eapply task_ok_same_books; [done|]. by apply I4.
  - intros e He. destruct Hbooks as (_ & _ & Hl). rewrite Hl in He.
    destruct (I5 e He) as (te & Hte & Hc & Hp).
    destruct (decide (entry_task e = i)) as [Heq|Hne].
    + rewrite Heq in *. exists t'.
      rewrite list_lookup_insert_eq by (by eapply lookup_lt_Some).
      assert (te = t) as -> by congruence.
      split; [done|]. split; [by apply Htaken|]. by rewrite Hsample.
    + exists te. by rewrite list_lookup_insert_ne.
Qed.

Lemma ledger_ordinals_snoc positive ledger e :
  ledger_ordinals positive (ledger ++ [e])
  = (ledger_ordinals positive ledger
     ++ if Bool.eqb (entry_positive e) positive then [entry_count e] else [])%list.
Proof.
  unfold ledger_ordinals. rewrite List.filter_app, map_app. cbn.
  by destruct (Bool.eqb (entry_positive e) positive).
Qed.

(** The move that advances a counter. *)
Lemma invariant_store m st i t count loaded :
  invariant m st ->
  sys_tasks st !! i = Some t ->
  task_at t = AtStore count loaded ->
  invariant m
    {| sys_shared :=
         store_count i (is_positive (task_sample t)) count (loaded + 1)
           (sys_shared st);
       sys_tasks :=
         <[i := {| task_sample := task_sample t;
                   task_at := AtSnapPositive count |}]> (sys_tasks st) |}.
Proof.
  intros [I1 I2 I3 I4 I5] Hi Hat.
  pose proof (I4 _ _ Hi) as Hok. unfold task_ok in Hok. rewrite Hat in Hok.
  destruct Hok as [Hcount Hloaded].
  remember (is_positive (task_sample t)) as p eqn:Hp.
  assert (in_lock (task_at t) = true) as Hin by (by rewrite Hat).
  split; cbn [sys_shared sys_tasks store_count shared_locked shared_ledger].
  - intros Hl j tj Hj. by rewrite (I1 Hl _ _ Hi) in Hin.
  - intros a b ta tb Ha Hb Hla Hlb.
    apply (lookup_update _ _ _ _ _ _ Hi) in Ha as [[-> ->]|[Hnea Ha]];
      apply (lookup_update _ _ _ _ _ _ Hi) in Hb as [[-> ->]|[Hneb Hb]].
    + done.
    + symmetry. by eapply I2.
    + by eapply I2.
    + by eapply I2.
  - intros q. destruct (I3 q) as [Hle Hseq].
    rewrite ledger_ordinals_snoc. cbn [entry_positive entry_count].
    destruct (Bool.eqb p q) eqn:Epq.
    + apply Bool.eqb_prop in Epq as <-.
      match goal with
      | |- _ <= shared_count ?s p /\ _ =>
          assert (shared_count s p = shared_count (sys_shared st) p + 1)
            as -> by (unfold shared_count in *; cbn; destruct p; lia)
      end.
      split; [lia|]. rewrite Hseq.
      replace (shared_count (sys_shared st) p + 1 - own_count m p)
        with ((shared_count (sys_shared st) p - own_count m p) + 1) by lia.
      rewrite seq_app. cbn. do 3 f_equal. lia.
    + match goal with
      | |- _ <= shared_count ?s q /\ _ =>
          assert (shared_count s q = shared_count (sys_shared st) q)
            as -> by (unfold shared_count; cbn; by destruct p, q)
      end.
      by rewrite app_nil_r.
  - subst p. intros j tj Hj.
    apply (lookup_update _ _ _ _ _ _ Hi) in Hj as [[-> ->]|[Hne Hj]].
    + unfold task_ok. cbn. apply elem_of_app. right. apply list_elem_of_here.
    + pose proof (I4 _ _ Hj) as Hj'. unfold task_ok in *.
      destruct (task_at tj) eqn:E; cbn in *;
        try (apply elem_of_app; by left); try done;
        exfalso; apply Hne; eapply (I2 j i tj t); try done; by rewrite E.
  - subst p. intros e He. apply elem_of_app in He as [He|He].
    + destruct (I5 e He) as (te & Hte & Hc & Hp).
      destruct (decide (entry_task e = i)) as [Heq|Hne].
      * rewrite Heq in Hte. assert (te = t) as -> by congruence.
        by rewrite Hat in Hc.
      * exists te. by rewrite list_lookup_insert_ne.
    + apply list_elem_of_singleton in He as ->. cbn.
      eexists. rewrite list_lookup_insert_eq by (by eapply lookup_lt_Some).
      done.
Qed.

Lemma same_books_refl sh : same_books sh sh.
Proof. by repeat split. Qed.

Lemma same_books_locked b sh : same_books sh (set_locked b sh).
Proof. by repeat split. Qed.

Lemma same_books_disk fs sh : same_books sh (set_disk fs sh).
Proof. by repeat split. Qed.

#[local] Hint Resolve same_books_refl same_books_locked same_books_disk : core.

(** Every move keeps the invariant. *)
Lemma schedule_step_invariant m st i :
  invariant m st -> invariant m (schedule_step m st i).
Proof.
  intros Hinv. unfold schedule_step.
  destruct (sys_tasks st !! i) as [t|] eqn:Hi; [|done].
  pose proof (inv_tasks _ _ Hinv _ _ Hi) as Hok.
  pose proof (inv_free _ _ Hinv) as Hfree.
  destruct t as [sample pt]. unfold task_step. cbn [task_sample task_at].
  unfold task_ok in Hok. cbn [task_sample task_at] in Hok.
  destruct pt as [| | | |c|c v|c|c p|c p n|c p n [|f r]|c p n e|];
    try done.
  - (* the type check *)
    destruct (isinstance sample (type (_sample m)));
      (eapply invariant_kept; [done..| | | |]; cbn; auto; try done).
  - (* the lock *)
    destruct (shared_locked (sys_shared st)) eqn:Hl; [done|].
    eapply invariant_kept; [done..| | | |]; cbn; auto; done.
  - eapply invariant_kept; [done..| | | |]; cbn; auto; try done.
    intros Hl. by specialize (Hfree Hl _ _ Hi).
  - eapply invariant_kept; [done..| | | |]; cbn; auto; try done.
    intros Hl. by specialize (Hfree Hl _ _ Hi).
  - eapply invariant_kept; [done..| | | |]; cbn; auto; try done.
    intros Hl. by specialize (Hfree Hl _ _ Hi).
  - by apply (invariant_store m st i {| task_sample := sample;
                                         task_at := AtStore c v |}).
  - eapply invariant_kept; [done..| | | |]; cbn; auto; try done.
    intros Hl. by specialize (Hfree Hl _ _ Hi).
  - eapply invariant_kept; [done..| | | |]; cbn; auto; try done.
    intros Hl. by specialize (Hfree Hl _ _ Hi).
  - (* leaving the lock *)
    eapply invariant_kept; [done..| | | |]; cbn; auto; done.
  - (* one write *)
    destruct (save_field sample f _ (shared_disk (sys_shared st)))
      as [[[]|e] fs];
      (eapply invariant_kept; [done..| | | |]; cbn; auto; try done);
      intros Hl; split; auto.
Qed.

Lemma run_schedule_invariant m schedule st :
  invariant m st -> invariant m (run_schedule m schedule st).
Proof.
  revert st. induction schedule as [|i schedule IH]; intros st H; [done|].
  cbn. apply IH. by apply schedule_step_invariant.
Qed.

Lemma nodup_map_inj_on {A B} (f : A -> B) (l : list A) x y :
  NoDup (map f l) -> In x l -> In y l -> f x = f y -> x = y.
Proof.
  induction l as [|z l IH]; [done|]. cbn. intros Hnd Hx Hy E.
  apply NoDup_cons in Hnd as [Hz Hnd].
  destruct Hx as [->|Hx], Hy as [->|Hy]; [done| | |by apply IH].
  - exfalso. apply Hz. rewrite E. apply list_elem_of_In. by apply in_map.
  - exfalso. apply Hz. rewrite <- E. apply list_elem_of_In. by apply in_map.
Qed.

(** Under any schedule of any callers: at most one call is inside the
    locked block; the ordinals entered for a polarity are, in the order in
    which they were taken, the initial count and its successors; the ledger
    holds exactly the ordinals that calls have taken; and two calls never
    hold the same (polarity, ordinal) pair nor build the same file name. *)
Lemma lock_serialises_reservations
    (m : DatasetDiskManager) (fs : filesystem)
    (callers : list GenericSample) (schedule : list nat) :
  let st := run_schedule m schedule (concurrent_start m fs callers) in
  let sh := sys_shared st in
  (forall i j ti tj,
      sys_tasks st !! i = Some ti -> sys_tasks st !! j = Some tj ->
      in_lock (task_at ti) = true -> in_lock (task_at tj) = true -> i = j) /\
  (forall positive,
      ledger_ordinals positive (shared_ledger sh)
      = seq (own_count m positive)
          (shared_count sh positive - own_count m positive)) /\
  (forall i t count,
      sys_tasks st !! i = Some t -> taken (task_at t) = Some count ->
      {| entry_task := i; entry_positive := is_positive (task_sample t);
         entry_count := count |} ∈ shared_ledger sh) /\
  (forall e, e ∈ shared_ledger sh ->
      exists t,
        sys_tasks st !! entry_task e = Some t /\
        taken (task_at t) = Some (entry_count e) /\
        entry_positive e = is_positive (task_sample t)) /\
  (forall i j ti tj ci cj,
      i <> j ->
      sys_tasks st !! i = Some ti -> sys_tasks st !! j = Some tj ->
      taken (task_at ti) = Some ci -> taken (task_at tj) = Some cj ->
      (is_positive (task_sample ti), ci) <> (is_positive (task_sample tj), cj)
      /\ forall a1 b1 a2 b2 f g,
          file_name (is_positive (task_sample ti)) f ci a1 b1
          <> file_name (is_positive (task_sample tj)) g cj a2 b2).
Proof.
  cbn zeta.
  pose proof (run_schedule_invariant m schedule _
                (concurrent_start_invariant m fs callers))
    as [I1 I2 I3 I4 I5].
  set (st := run_schedule m schedule (concurrent_start m fs callers)) in *.
  assert (forall i t count,
             sys_tasks st !! i = Some t -> taken (task_at t) = Some count ->
             {| entry_task := i; entry_positive := is_positive (task_sample t);
                entry_count := count |} ∈ shared_ledger (sys_shared st)) as Hin.
  { intros i t count Hi Ht. pose proof (I4 _ _ Hi) as Hok.
    unfold task_ok in Hok. destruct (task_at t); cbn in Ht; try done;
      by injection Ht as <-. }
  assert (forall i j ti tj ci cj,
             i <> j ->
             sys_tasks st !! i = Some ti -> sys_tasks st !! j = Some tj ->
             taken (task_at ti) = Some ci -> taken (task_at tj) = Some cj ->
             (is_positive (task_sample ti), ci)
             <> (is_positive (task_sample tj), cj)) as Hpairs.
  { intros i j ti tj ci cj Hij Hi Hj Hci Hcj [= Hp Hc].
    apply Hij.
    pose proof (Hin _ _ _ Hi Hci) as Hei.
    pose proof (Hin _ _ _ Hj Hcj) as Hej.
    destruct (I3 (is_positive (task_sample ti))) as [_ Hseq].
    assert (NoDup (ledger_ordinals (is_positive (task_sample ti))
                     (shared_ledger (sys_shared st)))) as Hnd.
    { rewrite Hseq. apply NoDup_seq. }
    unfold ledger_ordinals in Hnd.
    eapply (f_equal entry_task
              (x := {| entry_task := i |}) (y := {| entry_task := j |})).
    eapply (nodup_map_inj_on entry_count); [exact Hnd| | |].
    - apply filter_In. split; [by apply list_elem_of_In|].
      cbn. apply Bool.eqb_reflx.
    - apply filter_In. split; [by apply list_elem_of_In|].
      cbn. rewrite Hp. apply Bool.eqb_reflx.
    - done. }
  split; [exact I2|]. split; [intros p; apply I3|]. split; [exact Hin|].
  split; [exact I5|].
  intros i j ti tj ci cj Hij Hi Hj Hci Hcj.
  split; [by eapply Hpairs|].
  intros a1 b1 a2 b2 f g E. apply file_name_inj in E as [Hp Hc].
  eapply Hpairs; [exact Hij|done..|]. by rewrite Hp, Hc.
Qed.

Lemma solo_step m sh t sh' t' :
  task_step m 0 sh t = Some (sh', t') ->
  schedule_step m {| sys_shared := sh; sys_tasks := [t] |} 0
  = {| sys_shared := sh'; sys_tasks := [t'] |}.
Proof. intros H. unfold schedule_step. cbn. by rewrite H. Qed.

(** A caller that runs alone goes through the locked block as [save_sample]
    does in the sequential reading: same locals, same counters. *)
Lemma solo_caller_agrees m fs sample :
  isinstance sample (type (_sample m)) = true ->
  let st := run_schedule m (replicate 9 0) (concurrent_start m fs [sample]) in
  let st' := after_lock sample {| self := m; disk := fs; trace := [] |} in
  sys_tasks st
  = [{| task_sample := sample;
        task_at :=
          AtWrite (own_count m (is_positive sample))
            (_positive_count (self st')) (_negative_count (self st'))
            (get_dataset_fields sample) |}] /\
  shared_positive_count (sys_shared st) = _positive_count (self st') /\
  shared_negative_count (sys_shared st) = _negative_count (self st') /\
  shared_locked (sys_shared st) = false /\
  shared_disk (sys_shared st) = fs.
Proof.
  intros Hty. cbn [replicate run_schedule fold_left].
  unfold concurrent_start. cbn [map].
  do 9 (erewrite solo_step
          by (unfold task_step; cbn; rewrite ?Hty; reflexivity)).
  unfold after_lock, bump, own_count, shared_count.
  destruct (is_positive sample); cbn; repeat split; do 3 f_equal; lia.
Qed.

(** Two callers race: both pass the type check, the second takes the lock
    first, and each still gets an ordinal of its own. *)
Example two_racing_callers :
  let st :=
    run_schedule fresh_manager racing_schedule
      (concurrent_start fresh_manager fresh_disk
         [sample_ab true; sample_ab true]) in
  map (fun t => snapshot (task_at t)) (sys_tasks st)
  = [Some (1, 2, 0); Some (0, 1, 0)] /\
  shared_positive_count (sys_shared st) = 2 /\
  regular_files (shared_disk (sys_shared st))
    "/data/ds/folder/positive_samples/a" = 2.
Proof. vm_compute. done. Qed.

(** ** No reservation is made twice *)

(** C2.  In every sequence of saves and thread runs on one manager no
    (polarity, ordinal) pair is reserved twice; the ordinals reserved for a
    polarity are, in order, the initial count of that polarity and its
    successors, one for each accepted save of that polarity; the file names
    of two different saves differ, and so do the names one save gives to two
    different fields.  The same holds when the saves are concurrent calls
    interleaved line by line by an arbitrary scheduler: at most one call is
    inside the locked block, the ordinals entered for a polarity are the
    initial count and its successors, every ordinal a call holds is entered
    and every entry is held by a call, and two calls never hold the same
    pair nor build the same file name. *)
Theorem reservations_are_distinct :
  (forall (m : DatasetDiskManager) (fs : filesystem) (acts : list action),
      let tr := trace (proc (snd (run acts (start m fs)))) in
      NoDup (reservations tr) /\
      (forall positive,
          ordinals positive tr
          = seq (own_count m positive) (saves_of m positive acts)) /\
      (forall i j p1 c1 a1 b1 p2 c2 a2 b2,
          i <> j ->
          tr !! i = Some (Reserved p1 c1 a1 b1) ->
          tr !! j = Some (Reserved p2 c2 a2 b2) ->
          forall f g, file_name p1 f c1 a1 b1 <> file_name p2 g c2 a2 b2) /\
      (forall p c a b f g,
          file_name p f c a b = file_name p g c a b -> f = g)) /\
  (forall (m : DatasetDiskManager) (fs : filesystem)
          (callers : list GenericSample) (schedule : list nat),
      let st := run_schedule m schedule (concurrent_start m fs callers) in
      let sh := sys_shared st in
      (forall i j ti tj,
          sys_tasks st !! i = Some ti -> sys_tasks st !! j = Some tj ->
          in_lock (task_at ti) = true -> in_lock (task_at tj) = true ->
          i = j) /\
      (forall positive,
          ledger_ordinals positive (shared_ledger sh)
          = seq (own_count m positive)
              (shared_count sh positive - own_count m positive)) /\
      (forall i t count,
          sys_tasks st !! i = Some t -> taken (task_at t) = Some count ->
          {| entry_task := i; entry_positive := is_positive (task_sample t);
             entry_count := count |} ∈ shared_ledger sh) /\
      (forall e, e ∈ shared_ledger sh ->
          exists t,
            sys_tasks st !! entry_task e = Some t /\
            taken (task_at t) = Some (entry_count e) /\
            entry_positive e = is_positive (task_sample t)) /\
      (forall i j ti tj ci cj,
          i <> j ->
          sys_tasks st !! i = Some ti -> sys_tasks st !! j = Some tj ->
          taken (task_at ti) = Some ci -> taken (task_at tj) = Some cj ->
          (is_positive (task_sample ti), ci)
          <> (is_positive (task_sample tj), cj)
          /\ forall a1 b1 a2 b2 f g,
              file_name (is_positive (task_sample ti)) f ci a1 b1
              <> file_name (is_positive (task_sample tj)) g cj a2 b2)).
Proof.
  split.
  - intros m fs acts. apply sequence_reservations.
  - intros m fs callers schedule. apply lock_serialises_reservations.
Qed.

Lemma reservations_are_distinct_witness :
  file_name true "a" 0 1 0 <> file_name true "b" 1 2 0 /\
  (true, 1) <> (true, 0).
Proof.
  split.
  - refine (proj1 (proj2 (proj2
      (proj1 reservations_are_distinct fresh_manager fresh_disk
         [Call (sample_ab true) false; Call (sample_ab true) true])))
      1 6 true 0 1 0 true 1 2 0 _ eq_refl eq_refl "a" "b").
    lia.
  - refine (proj1 (proj2 (proj2 (proj2 (proj2
      (proj2 reservations_are_distinct fresh_manager fresh_disk
         [sample_ab true; sample_ab true] racing_schedule))))
      0 1
      {| task_sample := sample_ab true; task_at := AtWrite 1 2 0 [] |}
      {| task_sample := sample_ab true; task_at := AtWrite 0 1 0 [] |}
      1 0 _ _ _ eq_refl eq_refl)).
    + lia.
    + vm_compute. reflexivity.
    + vm_compute. reflexivity.
Defined.

(** * Further properties *)

(** ** What directory setup touches and how it can fail *)

Lemma stat_lookup (fs : filesystem) p : p <> "" -> stat fs p = fs !! p.
Proof. intros H. unfold stat. by rewrite bool_decide_eq_false_2. Qed.

Lemma ensure_all_frame l (fs : filesystem) q :
  let fs1 := snd (for_each l mkdir_if_absent fs) in
  fs1 !! q = fs !! q
  \/ (q ∈ l /\ q <> "" /\ fs !! q = None /\ fs1 !! q = Some Dir).
Proof.
  revert fs. induction l as [|p l IH]; intros fs; cbn zeta; [by left|].
  rewrite for_each_cons.
  destruct (mkdir_if_absent_cases p fs) as [n H| Hne Hp Hd | Hp Hd | Hp Hd];
    cbv beta iota; cbn [snd]; try by left.
  - destruct (IH fs) as [H1|(H1 & H2 & H3 & H4)]; [by left|].
    right. split; [by apply list_elem_of_further|done].
  - rewrite stat_lookup in Hp by done.
    destruct (IH (<[p := Dir]> fs)) as [H1|(H1 & H2 & H3 & H4)].
    + destruct (decide (p = q)) as [<-|Hpq].
      * right. rewrite H1, lookup_insert_eq.
        split; [apply list_elem_of_here|done].
      * left. by rewrite H1, lookup_insert_ne.
    + right. destruct (decide (p = q)) as [<-|Hpq].
      * by rewrite lookup_insert_eq in H3.
      * rewrite lookup_insert_ne in H3 by done.
        split; [by apply list_elem_of_further|done].
Qed.

(** X1.  Whether it returns or raises, [_set_up_folders] changes the disk
    only by turning absent paths of its layout into directories: every other
    path, and every node that existed, is left as it was. *)
Theorem set_up_folders_touches_layout_only
    (m : DatasetDiskManager) (fs : filesystem) (q : string) :
  let fs1 := snd (_set_up_folders m fs) in
  fs1 !! q = fs !! q
  \/ (q ∈ layout m /\ q <> "" /\ fs !! q = None /\ fs1 !! q = Some Dir).
Proof.
  cbn zeta. rewrite _set_up_folders_layout.
  destruct (os_path.exists_ fs (os_path.dirname (_dataset_path m)));
    [apply ensure_all_frame|by left].
Qed.

Lemma setup_leaves_other_paths m (fs : filesystem) q :
  q ∉ layout m -> snd (_set_up_folders m fs) !! q = fs !! q.
Proof.
  intros Hq. rewrite _set_up_folders_layout.
  destruct (os_path.exists_ fs (os_path.dirname (_dataset_path m)));
    [|done].
  by destruct (ensure_all_frame (layout m) fs q) as [H|[H _]].
Qed.

Lemma ensure_all_errors l fs e :
  fst (for_each l mkdir_if_absent fs) = Raised e ->
  e = FileNotFoundError \/ e = NotADirectoryError.
Proof.
  revert fs. induction l as [|p l IH]; intros fs; [done|].
  rewrite for_each_cons.
  destruct (mkdir_if_absent_cases p fs) as [n H| Hne Hp Hd | Hp Hd | Hp Hd];
    cbv beta iota; cbn [fst]; try apply IH.
  - intros [= <-]. by right.
  - intros [= <-]. by left.
Qed.

Lemma _set_up_folders_errors m fs e :
  fst (_set_up_folders m fs) = Raised e ->
  e = FileNotFoundError \/ e = NotADirectoryError.
Proof.
  rewrite _set_up_folders_layout.
  destruct (os_path.exists_ fs (os_path.dirname (_dataset_path m))).
  - apply ensure_all_errors.
  - intros [= <-]. by left.
Qed.

(** X2.  Construction can only fail with [FileNotFoundError],
    [NotADirectoryError] or [IndexError].  Every [os.mkdir] is guarded by an
    existence test, so [FileExistsError] never comes out; [IndexError] comes
    from a sample without fields only, and [_set_up_folders] on its own
    never raises it. *)
Theorem construction_errors
    (ds folder : string) (sample : GenericSample) (fs : filesystem)
    (e : exn) :
  fst (__init__ ds folder sample fs) = Raised e ->
  (e = FileNotFoundError \/ e = NotADirectoryError \/ e = IndexError) /\
  (e = IndexError ->
   get_dataset_fields sample = [] /\
   fst (_set_up_folders (blank ds folder sample) fs) = Returned tt) /\
  (forall e', fst (_set_up_folders (blank ds folder sample) fs) = Raised e' ->
              e' = e /\ (e = FileNotFoundError \/ e = NotADirectoryError)).
Proof.
  rewrite init_run.
  pose proof (_set_up_folders_errors (blank ds folder sample) fs) as Hs.
  destruct (_set_up_folders (blank ds folder sample) fs) as [[[]|e0] fs1];
    cbn [fst] in *.
  - rewrite _count_samples_run. cbn [blank _sample].
    destruct (get_dataset_fields sample) as [|field rest].
    + intros [= <-]. repeat split; auto; done.
    + repeat (destruct (stat fs1 _) as [[]|]; cbn [fst]; try done);
        intros [= <-]; (split; [auto|]); split; done.
  - intros [= <-]. split; [destruct (Hs e0 eq_refl); auto|].
    split; [destruct (Hs e0 eq_refl); by subst|].
    intros e' [= <-]. split; [done|]. by apply Hs.
Qed.

Lemma construction_errors_witness :
  fst (__init__ "/data/ds" "a/b" (sample_ab true) root_disk)
  = Raised FileNotFoundError /\
  (FileNotFoundError = FileNotFoundError
   \/ FileNotFoundError = NotADirectoryError
   \/ FileNotFoundError = IndexError).
Proof.
  split; [reflexivity|].
  exact (proj1 (construction_errors "/data/ds" "a/b" (sample_ab true)
                  root_disk FileNotFoundError eq_refl)).
Defined.

(** ** When construction goes through *)

Lemma ensure_all_succeeds known l fs :
  chain known l ->
  Forall (fun q => stat fs q = Some Dir) known ->
  Forall (fun p => stat fs p <> Some File) l ->
  fst (for_each l mkdir_if_absent fs) = Returned tt /\
  Forall (fun p => stat (snd (for_each l mkdir_if_absent fs)) p = Some Dir) l.
Proof.
  revert known fs. induction l as [|p l IH]; intros K fs Hc HK Hl; [done|].
  destruct Hc as [Hd Hc]. apply Forall_cons in Hl as [Hp Hl].
  rewrite for_each_cons.
  assert (stat fs (os_path.dirname p) = Some Dir) as Hdir.
  { rewrite Forall_forall in HK. by apply HK. }
  assert (forall fs0,
             stat fs0 p = Some Dir ->
             Forall (fun q => stat fs0 q = Some Dir) K ->
             Forall (fun p' => stat fs0 p' <> Some File) l ->
             fst (for_each l mkdir_if_absent fs0) = Returned tt /\
             Forall (fun p' =>
                       stat (snd (for_each l mkdir_if_absent fs0)) p'
                       = Some Dir) (p :: l)) as Hnext.
  { intros fs0 Hp0 HK0 Hl0.
    destruct (IH (p :: K) fs0 Hc) as [H1 H2]; [by constructor|done|].
    split; [done|]. constructor; [|done].
    by apply (ensure_all_effect l fs0). }
  destruct (mkdir_if_absent_cases p fs) as [n H| Hne Hp' Hd' | Hp' Hd' | Hp' Hd'];
    cbv beta iota; try congruence.
  - apply Hnext; try done. by destruct n.
  - apply Hnext.
    + by apply stat_insert_eq.
    + eapply Forall_impl; [exact HK|]. intros q Hq. cbn in *.
      rewrite stat_insert_ne; [done|congruence].
    + eapply Forall_impl; [exact Hl|]. intros q Hq. cbn in *.
      destruct (decide (p = q)) as [<-|Hpq];
        [by rewrite stat_insert_eq|by rewrite stat_insert_ne].
Qed.

(** X3.  Construction returns whenever the parent of the dataset root is a
    directory, no regular file sits where the layout wants a directory, the
    folder name and the field names are single path components and the
    sample declares a field.  Every path of the layout is then a directory
    and the disk has changed on paths of the layout only. *)
Theorem construction_succeeds
    (ds folder : string) (sample : GenericSample) (fs : filesystem) :
  stat fs (os_path.dirname ds) = Some Dir ->
  Forall (fun p => stat fs p <> Some File)
    (layout (blank ds folder sample)) ->
  has_sep folder = false ->
  Forall (fun f => has_sep f = false) (get_dataset_fields sample) ->
  get_dataset_fields sample <> [] ->
  exists m fs1,
    __init__ ds folder sample fs = (Returned m, fs1) /\
    Forall (fun p => stat fs1 p = Some Dir) (layout m) /\
    (forall q, q ∉ layout m -> fs1 !! q = fs !! q).
Proof.
  intros Hpar Hfree Hfolder Hfields Hne.
  set (m0 := blank ds folder sample).
  assert (os_path.exists_ fs (os_path.dirname (_dataset_path m0)) = true)
    as Hex by (apply exists_is_some; cbn; eauto).
  pose proof (_set_up_folders_layout m0 fs) as Hl. rewrite Hex in Hl.
  destruct (ensure_all_succeeds [os_path.dirname ds] (layout m0) fs)
    as [Hret Hdirs]; [by apply layout_chain|by repeat constructor|done|].
  rewrite <- Hl in Hret, Hdirs.
  pose proof (setup_leaves_other_paths m0 fs) as Hframe.
  rewrite init_run. fold m0.
  destruct (_set_up_folders m0 fs) as [[[]|e] fs1]; [|done].
  cbn [fst snd] in *.
  rewrite _count_samples_run. cbn [m0 blank _sample].
  destruct (get_dataset_fields sample) as [|field rest] eqn:Hf; [done|].
  rewrite Forall_forall in Hdirs.
  assert (forall positive,
             stat fs1 (field_directory m0 positive field) = Some Dir) as Hdir.
  { intros positive. apply Hdirs, field_directory_in_layout.
    cbn [m0 blank _sample]. rewrite Hf. apply list_elem_of_here. }
  fold m0. rewrite !Hdir. do 2 eexists. split; [reflexivity|].
  split.
  - apply Forall_forall. exact Hdirs.
  - intros q Hq. by apply Hframe.
Qed.

Lemma construction_succeeds_witness :
  exists m fs1,
    __init__ "/data/ds" "folder" (sample_ab true) root_disk
    = (Returned m, fs1) /\
    Forall (fun p => stat fs1 p = Some Dir) (layout m) /\
    (forall q, q ∉ layout m -> fs1 !! q = root_disk !! q).
Proof.
  apply construction_succeeds.
  - reflexivity.
  - vm_compute. repeat constructor; discriminate.
  - reflexivity.
  - repeat constructor.
  - discriminate.
Defined.

(** ** What a file name tells *)

Lemma underscore_not_in_numeral (d : Decimal.uint) :
  "_"%char ∉ list_ascii_of_string (NilEmpty.string_of_uint d).
Proof.
  induction d; cbn; rewrite ?elem_of_cons; try (intros [?|?]; done).
  apply not_elem_of_nil.
Qed.

Lemma append_inv_tail (a b c : string) : a +:+ c = b +:+ c -> a = b.
Proof.
  intros E. apply chars_inj. apply (f_equal list_ascii_of_string) in E.
  rewrite !chars_append in E. by apply app_inv_tail in E.
Qed.

(** X4.  A file name determines the polarity, the field, the ordinal and the
    total it was built from: the scheme of [save_all_fields] can be read
    back without ambiguity, whatever characters the field name contains. *)
Theorem file_name_determines_its_parts
    (p1 p2 : bool) (f1 f2 : string) (c1 c2 a1 a2 b1 b2 : nat) :
  file_name p1 f1 c1 a1 b1 = file_name p2 f2 c2 a2 b2 ->
  p1 = p2 /\ f1 = f2 /\ c1 = c2 /\ a1 + b1 = a2 + b2.
Proof.
  intros E. destruct (file_name_inj _ _ _ _ _ _ _ _ _ _ E) as [-> ->].
  rewrite !file_name_spec in E. unfold spec_file_name in E.
  apply String.app_inj, String.app_inj in E.
  assert (forall f t,
             f +:+ "_" +:+ str t +:+ "_(" +:+ str c2 +:+ ")"
             = (f +:+ "_" +:+ str t) +:+ ("_(" +:+ str c2 +:+ ")")) as Hre.
  { intros f t. by rewrite !append_assoc. }
  rewrite !Hre in E. apply append_inv_tail in E.
  apply (f_equal list_ascii_of_string) in E.
  rewrite !chars_append in E.
  change (list_ascii_of_string "_") with ["_"%char] in E. cbn [app] in E.
  apply cut_at_last in E as [Ef Et]; [|apply underscore_not_in_numeral..].
  split; [done|]. split; [by apply chars_inj|].
  split; [done|]. by apply str_inj, chars_inj.
Qed.

Lemma file_name_determines_its_parts_witness :
  file_name true "a" 0 1 0 = file_name true "a" 0 0 1 /\
  (true = true /\ "a" = "a" /\ 0 = 0 /\ 1 + 0 = 0 + 1).
Proof.
  split; [reflexivity|].
  exact (file_name_determines_its_parts true true "a" "a" 0 0 1 0 0 1
           eq_refl).
Defined.

(** ** The trace of a sequence of operations *)

Lemma io_save_requests (path_of : string -> string) (l : list string) :
  forallb io_event (map (fun f => SaveField f (path_of f)) l) = true.
Proof. induction l as [|f l IH]; [done|]. exact IH. Qed.

Lemma writer_io sample m now st :
  exists io,
    trace (snd (writer_at sample m now st)) = (trace st ++ io)%list /\
    forallb io_event io = true.
Proof.
  unfold writer_at, save_all_fields, bind, get.
  match goal with
  | |- context [for_each ?l
                  (fun field => call_save_field _ field (@?p field)) ?s] =>
      destruct (write_loop now p l s) as (n & _ & H2 & _)
  end.
  cbn zeta in *. eexists. split; [exact H2|apply io_save_requests].
Qed.

(** What one action adds to the trace: the events of the locked block, if
    the action reserves, then requests and thread starts only. *)
Lemma do_action_trace a c :
  pool_ok c ->
  exists io,
    trace (proc (snd (do_action a c)))
    = (trace (proc c) ++ locked_events (self (proc c)) a ++ io)%list /\
    forallb io_event io = true.
Proof.
  intros Hpool. unfold locked_events.
  destruct a as [sample use_thread|k|k now]; cbn [accepted].
  - destruct (isinstance sample (type (_sample (self (proc c))))) eqn:Hty.
    + unfold do_action. destruct use_thread.
      * rewrite save_sample_async by done. exists [ThreadStart].
        split; [|done]. cbn. by rewrite <- !app_assoc.
      * rewrite save_sample_sync by done. unfold writer.
        destruct (writer_io sample (self (proc c)) sample
                    (after_lock sample (proc c))) as (io & H & Hio).
        exists io. split; [|done].
        destruct (writer_at sample (self (proc c)) sample
                    (after_lock sample (proc c)))
          as [[[]|e] st']; cbn [snd proc] in *; rewrite H; cbn;
          by rewrite <- !app_assoc.
    + unfold do_action. rewrite save_sample_rejected by done.
      exists []. cbn. by rewrite app_nil_r.
  - unfold do_action. destruct (pool c !! k) as [t|] eqn:Hk; cbn.
    + assert (exists sample m, thread_target t = writer_at sample m)
        as (s & m & Ht).
      { unfold pool_ok in Hpool. rewrite Forall_lookup in Hpool. eauto. }
      unfold target. rewrite Ht.
      destruct (writer_io s m (thread_sample t) (proc c)) as (io & H & Hio).
      exists io. by destruct (writer_at s m (thread_sample t) (proc c)).
    + exists []. by rewrite app_nil_r.
  - exists []. cbn. by rewrite app_nil_r.
Qed.

Lemma totals_app (a b : list event) :
  totals (a ++ b) = (totals a ++ totals b)%list.
Proof. apply omap_app. Qed.

Lemma totals_io io : forallb io_event io = true -> totals io = [].
Proof.
  induction io as [|e io IH]; [done|]. cbn [forallb].
  intros [He Hio]%andb_prop. destruct e; try done; by apply IH.
Qed.

Lemma totals_locked_events m a :
  totals (locked_events m a)
  = if reserves m true a || reserves m false a
    then [_positive_count m + _negative_count m + 1] else [].
Proof.
  unfold locked_events, reserves.
  destruct (accepted m a) as [[]|]; cbn; try done; f_equal; lia.
Qed.

Lemma reserves_either m a :
  (if reserves m true a || reserves m false a then 1 else 0)
  = (if reserves m true a then 1 else 0) + (if reserves m false a then 1 else 0).
Proof. unfold reserves. by destruct (accepted m a) as [[]|]. Qed.

Lemma advance_total m a :
  _positive_count (advance m a) + _negative_count (advance m a)
  = _positive_count m + _negative_count m
    + (if reserves m true a || reserves m false a then 1 else 0).
Proof.
  unfold advance, reserves.
  destruct (accepted m a) as [[]|]; cbn; lia.
Qed.

Lemma run_totals acts c :
  pool_ok c ->
  exists tr,
    trace (proc (snd (run acts c))) = (trace (proc c) ++ tr)%list /\
    totals tr
    = seq (_positive_count (self (proc c)) + _negative_count (self (proc c)) + 1)
        (saves_of (self (proc c)) true acts
         + saves_of (self (proc c)) false acts).
Proof.
  revert c. induction acts as [|a acts IH]; intros c Hpool.
  - exists []. cbn. by rewrite app_nil_r.
  - rewrite run_cons. cbn [snd].
    destruct (do_action_effect a c Hpool) as (Hp1 & Hs1 & _).
    destruct (do_action_trace a c Hpool) as (io & Ht1 & Hio).
    destruct (IH _ Hp1) as (tr2 & Ht2 & Htot2).
    eexists. split.
    { rewrite Ht2, Ht1, <- !app_assoc. reflexivity. }
    rewrite !totals_app, (totals_io io Hio), Htot2, Hs1.
    rewrite !saves_of_advance, totals_locked_events, !saves_of_cons.
    rewrite advance_total.
    pose proof (reserves_either (self (proc c)) a) as He.
    destruct (reserves (self (proc c)) true a),
             (reserves (self (proc c)) false a); cbn [orb] in *;
      try discriminate; cbn [app]; rewrite ?Nat.add_0_r.
    + rewrite (Nat.add_1_r (_ + _ + 1)). by rewrite Nat.add_0_l.
    + rewrite (Nat.add_1_r (_ + _ + 1)), Nat.add_0_l.
      replace (saves_of (self (proc c)) true acts
               + (1 + saves_of (self (proc c)) false acts))
        with (S (saves_of (self (proc c)) true acts
                 + saves_of (self (proc c)) false acts)) by lia.
      reflexivity.
    + reflexivity.
Qed.

(** X5.  Along any sequence of saves and thread runs the totals that go into
    the file names are consecutive: the saves that pass the type check are
    numbered from the initial sum of the two counters plus one, across both
    polarities and without a gap, whether their writes succeed or not. *)
Theorem totals_number_the_saves
    (m : DatasetDiskManager) (fs : filesystem) (acts : list action) :
  totals (trace (proc (snd (run acts (start m fs)))))
  = seq (_positive_count m + _negative_count m + 1)
      (saves_of m true acts + saves_of m false acts).
Proof.
  destruct (run_totals acts (start m fs) (start_pool_ok m fs))
    as (tr & Ht & Htot).
  by rewrite Ht.
Qed.

(** ** The lock along a sequence of operations *)

Lemma lock_discipline_app held a b :
  lock_discipline held a = true ->
  lock_discipline held (a ++ b) = lock_discipline false b.
Proof.
  revert held. induction a as [|e a IH]; intros held.
  - cbn. by intros ->%negb_true_iff.
  - destruct e, held; cbn [app lock_discipline negb andb]; try done;
      by apply IH.
Qed.

Lemma lock_discipline_io io :
  forallb io_event io = true -> lock_discipline false io = true.
Proof.
  induction io as [|e io IH]; [done|]. cbn [forallb].
  intros [He Hio]%andb_prop. destruct e; try done; by apply IH.
Qed.

Lemma lock_discipline_locked_events m a :
  lock_discipline false (locked_events m a) = true.
Proof. unfold locked_events. by destruct (accepted m a). Qed.

Lemma run_lock_discipline acts c :
  pool_ok c ->
  exists tr,
    trace (proc (snd (run acts c))) = (trace (proc c) ++ tr)%list /\
    lock_discipline false tr = true.
Proof.
  revert c. induction acts as [|a acts IH]; intros c Hpool.
  - exists []. cbn. by rewrite app_nil_r.
  - rewrite run_cons. cbn [snd].
    destruct (do_action_effect a c Hpool) as (Hp1 & _).
    destruct (do_action_trace a c Hpool) as (io & Ht1 & Hio).
    destruct (IH _ Hp1) as (tr2 & Ht2 & Hd2).
    eexists. split.
    { rewrite Ht2, Ht1, <- !app_assoc. reflexivity. }
    rewrite lock_discipline_app by apply lock_discipline_locked_events.
    rewrite lock_discipline_app by by apply lock_discipline_io.
    exact Hd2.
Qed.

(** X6.  Along any sequence of saves and thread runs the lock is used as
    [with self._lock:] promises: it is taken only when free and released
    only when held, the counters are read and bumped only while it is held,
    no file is requested and no thread started while it is held, and it is
    free at the end, also when a write has raised. *)
Theorem lock_brackets_the_reservation_only
    (m : DatasetDiskManager) (fs : filesystem) (acts : list action) :
  lock_discipline false (trace (proc (snd (run acts (start m fs))))) = true.
Proof.
  destruct (run_lock_discipline acts (start m fs) (start_pool_ok m fs))
    as (tr & Ht & Hd).
  by rewrite Ht.
Qed.

(** ** Threads *)







(** The write loop reads the disk and the fields: apart from the trace it
    extends, it does not look at the trace. *)
Lemma write_loop_blind sample (path_of : string -> string) fields st st' :
  self st' = self st -> disk st' = disk st ->
  let body := fun field => call_save_field sample field (path_of field) in
  fst (for_each fields body st') = fst (for_each fields body st) /\
  self (snd (for_each fields body st')) = self (snd (for_each fields body st)) /\
  disk (snd (for_each fields body st')) = disk (snd (for_each fields body st)) /\
  exists tr,
    trace (snd (for_each fields body st)) = (trace st ++ tr)%list /\
    trace (snd (for_each fields body st')) = (trace st' ++ tr)%list.
Proof.
  cbn zeta. revert st st'.
  induction fields as [|f fields IH]; intros st st' Hs Hd.
  - cbn. repeat split; [done..|]. exists []. by rewrite !app_nil_r.
  - rewrite !for_each_cons, !call_save_field_run, Hs, Hd.
    destruct (save_field sample f (path_of f) (disk st)) as [[[]|e] fs];
      cbn [fst snd].
    + match goal with
      | |- context [for_each fields ?b ?s1] =>
          match goal with
          | |- context [fst (for_each fields b ?s2) = fst (for_each fields b s1)] =>
              destruct (IH s1 s2 eq_refl eq_refl) as (H1 & H2 & H3 & tr & H4 & H5)
          end
      end.
      rewrite H1, H2, H3. repeat split.
      exists (SaveField f (path_of f) :: tr).
      rewrite H4, H5. cbn [trace]. by rewrite <- !app_assoc.
    + repeat split. by exists [SaveField f (path_of f)].
Qed.

Lemma writer_blind sample m st st' :
  self st' = self st -> disk st' = disk st ->
  fst (writer sample m st') = fst (writer sample m st) /\
  self (snd (writer sample m st')) = self (snd (writer sample m st)) /\
  disk (snd (writer sample m st')) = disk (snd (writer sample m st)) /\
  exists tr,
    trace (snd (writer sample m st)) = (trace st ++ tr)%list /\
    trace (snd (writer sample m st')) = (trace st' ++ tr)%list.
Proof.
  intros Hs Hd. unfold writer, writer_at, save_all_fields, bind, get.
  rewrite Hs.
  match goal with
  | |- context [for_each ?l
                  (fun field => call_save_field _ field (@?p field)) st] =>
      exact (write_loop_blind sample p l st st' Hs Hd)
  end.
Qed.

(** X8.  [use_thread] changes when the files are written, not which: a call
    with [use_thread=True] whose thread runs before anything else happens
    leaves the counters, the disk, the reservation and the requests of the
    same call with [use_thread=False], and the thread ends as that call
    does. *)
Theorem thread_run_at_once_is_a_synchronous_save
    (c : config) (sample : GenericSample) :
  pool_ok c ->
  isinstance sample (type (_sample (self (proc c)))) = true ->
  let r := do_action (Resume (length (pool c)))
             (snd (do_action (Call sample true) c)) in
  let r' := do_action (Call sample false) c in
  fst r = fst r' /\
  self (proc (snd r)) = self (proc (snd r')) /\
  disk (proc (snd r)) = disk (proc (snd r')) /\
  pool (snd r) = pool (snd r') /\
  reservations (trace (proc (snd r))) = reservations (trace (proc (snd r'))) /\
  requests (trace (proc (snd r))) = requests (trace (proc (snd r'))).
Proof.
  intros Hpool Hty. cbn zeta.
  set (st := after_lock sample (proc c)).
  set (th := {| thread_sample := sample;
                thread_target := writer_at sample (self (proc c)) |}).
  assert (do_action (Call sample true) c
          = (Returned tt,
             {| proc := snd (emit ThreadStart st);
                pool := (pool c ++ [th])%list |})) as ->.
  { unfold do_action. by rewrite save_sample_async. }
  assert (do_action (Call sample false) c
          = (match fst (writer sample (self (proc c)) st) with
             | Returned _ => Returned tt
             | Raised e => Raised e
             end,
             {| proc := snd (writer sample (self (proc c)) st);
                pool := pool c |})) as ->.
  { unfold do_action. rewrite save_sample_sync by done. fold st.
    by destruct (writer sample (self (proc c)) st) as [[[]|e] st']. }
  unfold do_action. cbn [snd pool proc].
  rewrite lookup_app_r, Nat.sub_diag by lia. cbn [lookup list_lookup].
  assert (delete (length (pool c)) (pool c ++ [th])%list = pool c) as ->.
  { clear. induction (pool c) as [|t l IH]; [done|]. cbn. f_equal. exact IH. }
  unfold target. cbn [thread_target thread_sample th].
  change (writer_at sample (self (proc c)) sample)
    with (writer sample (self (proc c))).
  destruct (writer_blind sample (self (proc c)) st (snd (emit ThreadStart st))
              eq_refl eq_refl) as (H1 & H2 & H3 & tr & H4 & H5).
  destruct (writer sample (self (proc c)) (snd (emit ThreadStart st)))
    as [r1 st1].
  destruct (writer sample (self (proc c)) st) as [r2 st2].
  cbn [fst snd proc pool] in *. subst r1.
  split. { by destruct r2 as [[]|e]. }
  do 3 (split; [done|]).
  rewrite H4, H5. cbn [emit modify snd trace].
  unfold reservations, requests. rewrite !omap_app. cbn.
  by rewrite !app_nil_r.
Qed.

Lemma thread_run_at_once_is_a_synchronous_save_witness :
  let c := start fresh_manager fresh_disk in
  let r := do_action (Resume (length (pool c)))
             (snd (do_action (Call (sample_ab true) true) c)) in
  let r' := do_action (Call (sample_ab true) false) c in
  fst r = fst r' /\
  self (proc (snd r)) = self (proc (snd r')) /\
  disk (proc (snd r)) = disk (proc (snd r')) /\
  pool (snd r) = pool (snd r') /\
  reservations (trace (proc (snd r))) = reservations (trace (proc (snd r'))) /\
  requests (trace (proc (snd r))) = requests (trace (proc (snd r'))).
Proof.
  apply (thread_run_at_once_is_a_synchronous_save
           (start fresh_manager fresh_disk) (sample_ab true)).
  - apply start_pool_ok.
  - reflexivity.
Defined.

(** ** Concurrent callers: no update is lost and no call is stuck *)

Lemma filter_length_insert {A} (f : A -> bool) (l : list A) i x x' :
  l !! i = Some x ->
  length (List.filter f (<[i := x']> l)) + (if f x then 1 else 0)
  = length (List.filter f l) + (if f x' then 1 else 0).
Proof.
  revert i. induction l as [|y l IH]; intros [|i] H; try done.
  - injection H as ->. cbn. destruct (f x), (f x'); cbn; lia.
  - cbn in H. specialize (IH i H).
    change (<[S i := x']> (y :: l)) with (y :: <[i := x']> l).
    cbn [List.filter]. destruct (f y); cbn [length]; lia.
Qed.

Lemma map_insert_same {A B} (f : A -> B) (l : list A) i x x' :
  l !! i = Some x -> f x' = f x -> map f (<[i := x']> l) = map f l.
Proof.
  revert i. induction l as [|y l IH]; intros [|i] H E; try done.
  - injection H as ->. cbn. by rewrite E.
  - cbn in H.
    change (<[S i := x']> (y :: l)) with (y :: <[i := x']> l).
    cbn [map]. f_equal. by apply (IH i).
Qed.

Lemma work_left_insert (l : list task) i t t' :
  l !! i = Some t -> lines_left t' < lines_left t ->
  work_left (<[i := t']> l) < work_left l.
Proof.
  revert i. induction l as [|y l IH]; intros [|i] H E; try done.
  - injection H as ->. cbn. lia.
  - cbn in H. specialize (IH i H E).
    change (<[S i := t']> (y :: l)) with (y :: <[i := t']> l).
    unfold work_left in *. cbn [foldr]. lia.
Qed.

(** What one move of a task does to the accounts. *)
Lemma task_step_facts m i sh t sh' t' :
  task_step m i sh t = Some (sh', t') ->
  task_sample t' = task_sample t /\
  lines_left t' < lines_left t /\
  (checked m t = true -> checked m t' = true) /\
  (shared_locked sh' = true ->
   in_lock (task_at t') = true \/
   (shared_locked sh = true /\ in_lock (task_at t) = false)) /\
  (task_ok sh i t ->
   forall positive,
     shared_count sh' positive + (if has_stored positive t then 1 else 0)
     = shared_count sh positive + (if has_stored positive t' then 1 else 0)).
Proof.
  unfold task_step, checked, lines_left, has_stored, task_ok.
  destruct t as [sample pt]. cbn [task_sample task_at].
  destruct pt as [| | | |count|count loaded|count|count pc|count pc nc
                  |count pc nc [|field rest]|count pc nc e|]; try done.
  - destruct (isinstance sample (type (_sample m))) eqn:Hty;
      intros [= <- <-]; cbn; rewrite ?Hty; repeat split; try lia;
      try tauto; intros; by rewrite ?andb_false_r.
  - destruct (shared_locked sh) eqn:Hl; [done|].
    intros [= <- <-]; cbn; repeat split; try lia; try tauto;
      intros; by rewrite ?andb_false_r.
  - intros [= <- <-]; cbn; repeat split; try lia; try tauto;
      intros; by rewrite ?andb_false_r.
  - intros [= <- <-]; cbn; repeat split; try lia; try tauto;
      intros; by rewrite ?andb_false_r.
  - intros [= <- <-]; cbn; repeat split; try lia; try tauto;
      intros; by rewrite ?andb_false_r.
  - intros [= <- <-]; cbn; repeat split; try lia; try tauto.
    intros [-> ->] positive. rewrite andb_false_r, andb_true_r.
    unfold shared_count.
    destruct (is_positive sample), positive; cbn; lia.
  - intros [= <- <-]; cbn; repeat split; try lia; tauto.
  - intros [= <- <-]; cbn; repeat split; try lia; tauto.
  - intros [= <- <-]; cbn; repeat split; try lia; try tauto; done.
  - destruct (save_field sample field _ (shared_disk sh)) as [[[]|e] fs];
      intros [= <- <-]; cbn; repeat split; try lia; try tauto; done.
Qed.

Lemma stored_insert positive (l : list task) i t t' :
  l !! i = Some t ->
  stored positive (<[i := t']> l) + (if has_stored positive t then 1 else 0)
  = stored positive l + (if has_stored positive t' then 1 else 0).
Proof. apply filter_length_insert. Qed.

Lemma schedule_step_accounts m callers st i :
  invariant m st -> accounts m callers st ->
  accounts m callers (schedule_step m st i).
Proof.
  intros Hinv Hacc. unfold schedule_step.
  destruct (sys_tasks st !! i) as [t|] eqn:Hi; [|done].
  destruct (task_step m i (sys_shared st) t) as [[sh' t']|] eqn:Hstep; [|done].
  destruct (task_step_facts _ _ _ _ _ _ Hstep) as (Hs & _ & Hc & Hh & Hn).
  destruct Hacc as [A1 A2 A3 A4].
  constructor; cbn [sys_shared sys_tasks].
  - rewrite <- A1. by apply (map_insert_same _ _ _ t).
  - intros j tj Hj.
    destruct (lookup_update _ _ _ _ _ _ Hi Hj) as [[-> ->]|[_ Hj']].
    + apply Hc. by apply (A2 i).
    + by apply (A2 j).
  - intros Hl. destruct (Hh Hl) as [Hin|[Hl0 Hout]].
    + exists i, t'. split; [|done].
      apply list_lookup_insert_eq. by apply lookup_lt_Some in Hi.
    + destruct (A3 Hl0) as (j & tj & Hj & Hin).
      assert (j <> i) as Hne by (intros ->; congruence).
      exists j, tj. split; [|done]. by rewrite list_lookup_insert_ne.
  - intros positive.
    pose proof (Hn (inv_tasks _ _ Hinv i t Hi) positive) as H1.
    pose proof (stored_insert positive _ i t t' Hi) as H2.
    specialize (A4 positive). lia.
Qed.

Lemma run_schedule_accounts m callers schedule st :
  invariant m st -> accounts m callers st ->
  accounts m callers (run_schedule m schedule st).
Proof.
  revert st. induction schedule as [|i schedule IH]; intros st Hinv Hacc;
    [done|].
  cbn. apply IH; [by apply schedule_step_invariant|].
  by apply schedule_step_accounts.
Qed.

Lemma concurrent_start_accounts m fs callers :
  accounts m callers (concurrent_start m fs callers).
Proof.
  constructor; cbn [concurrent_start sys_shared sys_tasks].
  - rewrite map_map. cbn. apply map_id.
  - intros j t Hj. apply list_elem_of_lookup_2 in Hj.
    apply list_elem_of_In, in_map_iff in Hj as (s & <- & _). done.
  - done.
  - intros positive.
    assert (stored positive
              (map (fun sample =>
                      {| task_sample := sample; task_at := AtTypeCheck |})
                 callers) = 0) as ->.
    { unfold stored. induction callers as [|s l IH]; [done|].
      cbn. unfold has_stored at 1. cbn. by rewrite andb_false_r. }
    unfold shared_count, own_count. cbn. destruct positive; lia.
Qed.

Lemma reachable_accounts m fs callers schedule :
  let st := run_schedule m schedule (concurrent_start m fs callers) in
  invariant m st /\ accounts m callers st.
Proof.
  split.
  - apply run_schedule_invariant, concurrent_start_invariant.
  - apply run_schedule_accounts;
      [apply concurrent_start_invariant|apply concurrent_start_accounts].
Qed.

Lemma filter_map_length {A B} (f : B -> bool) (g : A -> B) (l : list A) :
  length (List.filter f (map g l)) = length (List.filter (fun x => f (g x)) l).
Proof.
  induction l as [|x l IH]; [done|]. cbn. destruct (f (g x)); cbn; lia.
Qed.

Lemma saves_of_in_turn m positive callers :
  saves_of m positive (in_turn callers) = instances_of m positive callers.
Proof.
  unfold saves_of, in_turn, instances_of. rewrite filter_map_length.
  f_equal. apply List.filter_ext. intros s. unfold reserves. cbn.
  by destruct (isinstance s (type (_sample m))).
Qed.

Lemma stored_when_ended m callers st positive :
  accounts m callers st ->
  Forall (fun t => ended (task_at t) = true) (sys_tasks st) ->
  stored positive (sys_tasks st) = instances_of m positive callers.
Proof.
  intros [A1 A2 _ _] Hend. unfold stored, instances_of. rewrite <- A1.
  rewrite filter_map_length. f_equal. apply List.filter_ext_in.
  intros t Ht. apply list_elem_of_In in Ht.
  rewrite Forall_forall in Hend. specialize (Hend t Ht).
  apply list_elem_of_lookup_1 in Ht as [j Hj]. specialize (A2 j t Hj).
  unfold has_stored, checked in *. rewrite andb_comm.
  destruct (task_at t) as [| | | | | | | | |? ? ? [|]| |]; try done;
    cbn in *; rewrite ?A2; try done.
  apply negb_true_iff in A2. by rewrite A2.
Qed.

(** X9.  No update of a counter is lost, however the calls interleave: at
    every moment each counter is its initial value plus the number of calls
    of its polarity that have stored their increment. *)
Theorem no_update_is_lost
    (m : DatasetDiskManager) (fs : filesystem)
    (callers : list GenericSample) (schedule : list nat) (positive : bool) :
  let st := run_schedule m schedule (concurrent_start m fs callers) in
  shared_count (sys_shared st) positive
  = own_count m positive + stored positive (sys_tasks st).
Proof.
  destruct (reachable_accounts m fs callers schedule) as [_ Hacc].
  apply (acc_counts _ _ _ Hacc).
Qed.

(** X10.  Once all the calls have ended, in whatever interleaving, the lock
    is free and the counters are those the same calls leave when they are
    made one after the other. *)
Theorem interleaved_calls_count_as_in_turn
    (m : DatasetDiskManager) (fs : filesystem)
    (callers : list GenericSample) (schedule : list nat) :
  let st := run_schedule m schedule (concurrent_start m fs callers) in
  Forall (fun t => ended (task_at t) = true) (sys_tasks st) ->
  shared_locked (sys_shared st) = false /\
  forall positive,
    shared_count (sys_shared st) positive
    = own_count (self (proc (snd (run (in_turn callers) (start m fs)))))
        positive.
Proof.
  cbn zeta. intros Hend.
  destruct (reachable_accounts m fs callers schedule) as [Hinv Hacc].
  cbn zeta in *. split.
  - destruct (shared_locked _) eqn:Hl; [|done].
    destruct (acc_holder _ _ _ Hacc Hl) as (j & t & Hj & Hin).
    rewrite Forall_forall in Hend.
    specialize (Hend t (list_elem_of_lookup_2 _ _ _ Hj)).
    by destruct (task_at t).
  - intros positive.
    destruct (run_effect (in_turn callers) (start m fs) (start_pool_ok m fs))
      as (_ & Hc & _).
    rewrite (Hc positive). cbn [start proc self].
    rewrite (acc_counts _ _ _ Hacc), saves_of_in_turn.
    by rewrite (stored_when_ended m callers).
Qed.

Lemma interleaved_calls_count_as_in_turn_witness :
  let callers := [sample_ab true; sample_ab true] in
  let st := run_schedule fresh_manager racing_schedule
              (concurrent_start fresh_manager fresh_disk callers) in
  shared_locked (sys_shared st) = false /\
  forall positive,
    shared_count (sys_shared st) positive
    = own_count
        (self (proc (snd (run (in_turn callers)
                            (start fresh_manager fresh_disk)))))
        positive.
Proof.
  apply (interleaved_calls_count_as_in_turn fresh_manager fresh_disk
           [sample_ab true; sample_ab true] racing_schedule).
  vm_compute. repeat constructor.
Defined.

Lemma can_move m i sh t :
  ended (task_at t) = false ->
  task_at t <> AtAcquire \/ shared_locked sh = false ->
  is_Some (task_step m i sh t).
Proof.
  unfold task_step. destruct t as [sample pt]. cbn [task_sample task_at].
  intros He Hl.
  destruct pt as [| | | | | | | | |? ? ? [|field rest]| |]; try done;
    try (by eexists).
  - by destruct (isinstance sample (type (_sample m))).
  - destruct Hl as [Hl|Hl]; [done|]. rewrite Hl. by eexists.
  - by destruct (save_field sample field _ (shared_disk sh)) as [[[]|e] fs'].
Qed.

Lemma some_call_moves m callers st j t :
  accounts m callers st ->
  sys_tasks st !! j = Some t -> ended (task_at t) = false ->
  exists i ti,
    sys_tasks st !! i = Some ti /\ is_Some (task_step m i (sys_shared st) ti).
Proof.
  intros Hacc Hj He.
  destruct (shared_locked (sys_shared st)) eqn:Hl.
  - destruct (acc_holder _ _ _ Hacc Hl) as (i & ti & Hi & Hin).
    exists i, ti. split; [done|]. apply can_move.
    + by destruct (task_at ti).
    + left. by destruct (task_at ti).
  - exists j, t. split; [done|]. apply can_move; [done|by right].
Qed.

Lemma calls_finish m callers n st :
  work_left (sys_tasks st) <= n ->
  invariant m st -> accounts m callers st ->
  exists more,
    Forall (fun t => ended (task_at t) = true)
      (sys_tasks (run_schedule m more st)).
Proof.
  revert st. induction n as [|n IH]; intros st Hn Hinv Hacc;
    (destruct (decide (Forall (fun t => ended (task_at t) = true)
                         (sys_tasks st))) as [Hall|Hnot];
     [by exists []|]);
    apply not_Forall_Exists in Hnot; try apply _;
    apply Exists_exists in Hnot as (t & Ht & He);
    apply list_elem_of_lookup_1 in Ht as [j Hj];
    apply not_true_is_false in He;
    destruct (some_call_moves m callers st j t Hacc Hj He)
      as (i & ti & Hi & [[sh' t'] Hstep]);
    destruct (task_step_facts _ _ _ _ _ _ Hstep) as (_ & Hlt & _);
    pose proof (work_left_insert _ i ti t' Hi Hlt) as Hw;
    pose proof (schedule_step_invariant m st i Hinv) as Hinv';
    pose proof (schedule_step_accounts m callers st i Hinv Hacc) as Hacc';
    assert (schedule_step m st i
            = {| sys_shared := sh'; sys_tasks := <[i := t']> (sys_tasks st) |})
      as Hs by (unfold schedule_step; by rewrite Hi, Hstep).
  - lia.
  - destruct (IH (schedule_step m st i)) as [more Hmore]; [|done..|].
    + rewrite Hs. cbn [sys_tasks]. lia.
    + by exists (i :: more).
Qed.

(** X11.  The calls never get stuck.  In every state the interleaved calls
    can reach, a call that has not ended implies that some call can move,
    and the schedule can be continued so that all calls end: the lock is
    given back also by a call whose write raises. *)
Theorem every_call_can_finish
    (m : DatasetDiskManager) (fs : filesystem)
    (callers : list GenericSample) (schedule : list nat) :
  let st := run_schedule m schedule (concurrent_start m fs callers) in
  (forall j t,
      sys_tasks st !! j = Some t -> ended (task_at t) = false ->
      exists i ti,
        sys_tasks st !! i = Some ti /\
        is_Some (task_step m i (sys_shared st) ti)) /\
  exists more,
    Forall (fun t => ended (task_at t) = true)
      (sys_tasks
         (run_schedule m (schedule ++ more)
            (concurrent_start m fs callers))).
Proof.
  cbn zeta.
  destruct (reachable_accounts m fs callers schedule) as [Hinv Hacc].
  cbn zeta in *. split.
  - intros j t. by apply some_call_moves with callers.
  - destruct (calls_finish m callers _ _ (le_n _) Hinv Hacc) as [more Hmore].
    exists more. unfold run_schedule in *. by rewrite fold_left_app.
Qed.

Lemma every_call_can_finish_witness :
  let callers := [sample_ab true; sample_ab false] in
  let st := run_schedule fresh_manager [0; 0; 1]
              (concurrent_start fresh_manager fresh_disk callers) in
  (forall j t,
      sys_tasks st !! j = Some t -> ended (task_at t) = false ->
      exists i ti,
        sys_tasks st !! i = Some ti /\
        is_Some (task_step fresh_manager i (sys_shared st) ti)) /\
  exists more,
    Forall (fun t => ended (task_at t) = true)
      (sys_tasks
         (run_schedule fresh_manager ([0; 0; 1] ++ more)
            (concurrent_start fresh_manager fresh_disk callers))).
Proof.
  exact (every_call_can_finish fresh_manager fresh_disk
           [sample_ab true; sample_ab false] [0; 0; 1]).
Defined.

(** ** Entries of a directory *)

Lemma no_sep_startswith b : has_sep b = false -> startswith_sep b = false.
Proof.
  destruct b as [|c b]; [done|]. cbn. by intros [-> _]%orb_false_elim.
Qed.

Lemma no_sep_endswith b : has_sep b = false -> endswith_sep b = false.
Proof.
  intros H. destruct (endswith_sep b) eqn:E; [|done].
  apply endswith_has_sep in E. congruence.
Qed.

Lemma join2_spelling d b :
  startswith_sep b = false -> os_path.join2 d b = dir_prefix d +:+ b.
Proof.
  intros Hb. unfold os_path.join2, dir_prefix. rewrite Hb.
  destruct (_ || _); [done|]. by rewrite append_assoc.
Qed.

Lemma dir_prefix_ends d :
  dir_prefix d = "" \/ endswith_sep (dir_prefix d) = true.
Proof.
  unfold dir_prefix. case_bool_decide as Hd; cbn [orb]; [by left|].
  destruct (endswith_sep d) eqn:E; right; [done|apply endswith_append_sep].
Qed.

Lemma after_last_sep_append a b :
  a = "" \/ endswith_sep a = true -> has_sep b = false ->
  after_last_sep (a +:+ b) = b.
Proof.
  intros Ha Hb. induction a as [|c a IH].
  - change ("" +:+ b) with b. destruct b as [|x b]; [done|].
    cbn [has_sep after_last_sep] in *.
    apply orb_false_elim in Hb as [H1 H2]. by rewrite H1, H2.
  - destruct Ha as [Ha|Ha]; [done|].
    rewrite append_cons. cbn [after_last_sep]. rewrite has_sep_append, Hb.
    destruct a as [|c' a].
    + cbn in Ha. cbn. by rewrite Ha.
    + rewrite (endswith_has_sep (String c' a)) by exact Ha. cbn [orb].
      apply IH. by right.
Qed.

Lemma basename_join2 d b :
  has_sep b = false -> os_path.basename (os_path.join2 d b) = b.
Proof.
  intros Hb. rewrite join2_spelling by by apply no_sep_startswith.
  apply after_last_sep_append; [apply dir_prefix_ends|done].
Qed.

Lemma append_inv_head (a b c : string) : a +:+ b = a +:+ c -> b = c.
Proof.
  induction a as [|x a IH]; [done|]. rewrite !append_cons.
  intros [= E]. by apply IH.
Qed.

Lemma endswith_sep_append a b :
  b <> "" -> endswith_sep (a +:+ b) = endswith_sep b.
Proof.
  intros Hb. induction a as [|c a IH]; [done|].
  rewrite append_cons. cbn [endswith_sep].
  destruct (a +:+ b) eqn:E; [|done].
  by destruct a, b.
Qed.

Lemma dir_prefix_plain a b :
  plain_name b -> dir_prefix (a +:+ b) = a +:+ b +:+ "/".
Proof.
  intros [Hne Hb]. unfold dir_prefix.
  rewrite endswith_sep_append, no_sep_endswith by done.
  rewrite bool_decide_eq_false_2 by by apply append_nonempty_r.
  by rewrite append_assoc.
Qed.

Lemma entry_name_join2 d d' name :
  plain_name name ->
  os.entry_name d (os_path.join2 d' name)
  = if bool_decide (dir_prefix d = dir_prefix d') then Some name else None.
Proof.
  intros [Hne Hsep]. unfold os.entry_name. rewrite basename_join2 by done.
  rewrite !(join2_spelling _ name) by by apply no_sep_startswith.
  case_bool_decide as H1; case_bool_decide as H2; try done.
  - destruct H1 as [_ H1]. by apply append_inv_tail in H1.
  - destruct H1. split; [done|]. by rewrite H2.
Qed.

Lemma branch_name_plain positive : plain_name (branch_name positive).
Proof. by destruct positive. Qed.

Lemma field_directory_spelling m positive field :
  plain_name field ->
  field_directory m positive field
  = dir_prefix (os_path.join2 (_dataset_path m) (_folder_name m))
    +:+ branch_name positive +:+ "/" +:+ field.
Proof.
  intros [Hne Hsep]. unfold field_directory. cbn [os_path.join fold_left].
  rewrite (join2_spelling _ field) by by apply no_sep_startswith.
  rewrite (join2_spelling _ (branch_name positive)) by by destruct positive.
  rewrite dir_prefix_plain by apply branch_name_plain.
  by rewrite !append_assoc.
Qed.

Lemma field_directory_prefix m positive field :
  plain_name field ->
  dir_prefix (field_directory m positive field)
  = dir_prefix (os_path.join2 (_dataset_path m) (_folder_name m))
    +:+ branch_name positive +:+ "/" +:+ field +:+ "/".
Proof.
  intros Hf. rewrite field_directory_spelling by done.
  rewrite <- !append_assoc, dir_prefix_plain by done.
  by rewrite !append_assoc.
Qed.

Lemma field_directory_prefix_inj m p f p' f' :
  plain_name f -> plain_name f' ->
  dir_prefix (field_directory m p f) = dir_prefix (field_directory m p' f') ->
  p = p' /\ f = f'.
Proof.
  intros Hf Hf'. rewrite !field_directory_prefix by done.
  intros E%append_inv_head.
  destruct p, p'; cbn in E; try done; split; try done;
    injection E as E; change (f +:+ "/" = f' +:+ "/") in E;
    by apply append_inv_tail in E.
Qed.

Lemma no_sep_numeral (d : Decimal.uint) :
  has_sep (NilEmpty.string_of_uint d) = false.
Proof. induction d; cbn; done. Qed.

Lemma file_name_plain positive field count positive_count negative_count :
  has_sep field = false ->
  plain_name (file_name positive field count positive_count negative_count).
Proof.
  intros Hf. split.
  - unfold file_name. by destruct positive.
  - unfold file_name, str. rewrite !has_sep_append, Hf, !no_sep_numeral.
    by destruct positive.
Qed.

(** ** Counting after a write *)

Lemma map_to_list_insert_any (fs : filesystem) k n :
  exists rest,
    map_to_list (<[k := n]> fs) ≡ₚ (k, n) :: rest /\
    (fs !! k = None -> map_to_list fs ≡ₚ rest) /\
    (forall n', fs !! k = Some n' -> map_to_list fs ≡ₚ (k, n') :: rest).
Proof.
  exists (map_to_list (delete k fs)). split; [|split].
  - rewrite <- insert_delete_eq. apply map_to_list_insert, lookup_delete_eq.
  - intros H. by rewrite delete_id.
  - intros n' H. symmetry. by apply map_to_list_delete.
Qed.

Lemma regular_files_insert_other (fs : filesystem) k n d :
  os.entry_name d k = None ->
  regular_files (<[k := n]> fs) d = regular_files fs d.
Proof.
  intros E. rewrite !regular_files_spec.
  destruct (map_to_list_insert_any fs k n) as (rest & H1 & H2 & H3).
  rewrite (filter_length_perm _ _ _ H1).
  cbn [List.filter fst snd]. rewrite E.
  rewrite (bool_decide_eq_false_2 (is_Some None)) by (by intros [? ?]).
  rewrite andb_false_r.
  destruct (fs !! k) as [n'|] eqn:Hk.
  - rewrite (filter_length_perm _ _ _ (H3 n' eq_refl)).
    cbn [List.filter fst snd]. rewrite E.
    rewrite (bool_decide_eq_false_2 (is_Some None)) by (by intros [? ?]).
    by rewrite andb_false_r.
  - by rewrite (filter_length_perm _ _ _ (H2 eq_refl)).
Qed.

Lemma regular_files_insert_new (fs : filesystem) k d :
  fs !! k = None -> is_Some (os.entry_name d k) ->
  regular_files (<[k := File]> fs) d = regular_files fs d + 1.
Proof.
  intros Hk E. rewrite !regular_files_spec.
  rewrite (filter_length_perm _ _ ((k, File) :: map_to_list fs))
    by by apply map_to_list_insert.
  cbn [List.filter fst snd].
  rewrite (bool_decide_eq_true_2 (File = File)) by done.
  rewrite (bool_decide_eq_true_2 _ E). cbn. lia.
Qed.

Lemma with_files_snoc fs paths path :
  with_files fs (paths ++ [path]) = <[path := File]> (with_files fs paths).
Proof. unfold with_files. by rewrite foldl_snoc. Qed.

Lemma with_files_lookup fs paths q :
  with_files fs paths !! q
  = if bool_decide (q ∈ paths) then Some File else fs !! q.
Proof.
  revert fs. induction paths as [|p paths IH]; intros fs; [done|].
  cbn [with_files foldl]. fold (with_files (<[p := File]> fs) paths).
  rewrite IH. destruct (decide (q = p)) as [->|Hne].
  - rewrite lookup_insert_eq.
    rewrite (bool_decide_eq_true_2 (p ∈ p :: paths)) by apply list_elem_of_here.
    by destruct (bool_decide _).
  - rewrite lookup_insert_ne by done.
    apply (f_equal (fun b : bool => if b then Some File else fs !! q)).
    apply bool_decide_ext. rewrite elem_of_cons.
    split; [by right|intros [?|?]; done].
Qed.

(** Writes that are no new entry of [d] leave its count alone. *)
Lemma regular_files_with_files fs paths d :
  Forall (fun q => os.entry_name d q = None \/ fs !! q = Some File) paths ->
  regular_files (with_files fs paths) d = regular_files fs d.
Proof.
  revert fs. induction paths as [|p paths IH]; intros fs Hall; [done|].
  inversion Hall as [|? ? Hp Hrest]; subst.
  cbn [with_files foldl]. fold (with_files (<[p := File]> fs) paths).
  rewrite IH.
  - destruct Hp as [Hp|Hp]; [by apply regular_files_insert_other|].
    by rewrite insert_id.
  - eapply Forall_impl; [exact Hrest|]. intros q [Hq|Hq]; [by left|].
    right. destruct (decide (q = p)) as [->|Hne].
    + apply lookup_insert_eq.
    + by rewrite lookup_insert_ne.
Qed.

(** ** Counters and disk stay in step *)

Lemma write_all sample (path_of : string -> string) fields st :
  creates_the_file sample ->
  let res := for_each fields
    (fun field => call_save_field sample field (path_of field)) st in
  fst res = Returned tt ->
  self (snd res) = self st /\
  disk (snd res) = with_files (disk st) (map path_of fields) /\
  (forall q, stat (disk st) q = Some Dir -> stat (disk (snd res)) q = Some Dir) /\
  (forall q, is_Some (stat (disk st) q) -> is_Some (stat (disk (snd res)) q)).
Proof.
  intros Hcr. cbn zeta. revert st.
  induction fields as [|f fields IH]; intros st; [done|].
  rewrite for_each_cons, call_save_field_run.
  destruct (save_field sample f (path_of f) (disk st)) as [[[]|e] fs] eqn:E;
    cbn [fst snd]; [|done].
  destruct (Hcr _ _ _ _ E) as [-> Hnd].
  intros Hret. destruct (IH _ Hret) as (H1 & H2 & H3 & H4).
  cbn [self disk] in *. repeat split; [done|done|..].
  - intros q Hq. apply H3.
    rewrite stat_insert_ne; [done|]. intros <-. congruence.
  - intros q Hq. apply H4. destruct (decide (path_of f = q)) as [<-|Hne].
    + rewrite stat_insert_eq; [done|]. intros Hq0. rewrite Hq0 in Hq.
      by destruct Hq.
    + by rewrite stat_insert_ne.
Qed.

Lemma own_count_bump p m p' :
  own_count (bump p m) p' = own_count m p' + (if Bool.eqb p p' then 1 else 0).
Proof. destruct p, p'; cbn; lia. Qed.

Lemma names_free_weaken m m' fs :
  _dataset_path m' = _dataset_path m -> _folder_name m' = _folder_name m ->
  _sample m' = _sample m ->
  (forall p, own_count m p <= own_count m' p) ->
  names_free m fs -> names_free m' fs.
Proof.
  intros Hd Hf Hs Hle Hfree field positive count pc nc Hhead Hc.
  unfold field_directory. rewrite Hd, Hf. apply Hfree.
  - by rewrite <- Hs.
  - specialize (Hle positive). lia.
Qed.

(** A completed synchronous save keeps counters and disk in step. *)
Lemma save_keeps_in_step sample st field :
  in_step (self st) field (disk st) ->
  get_dataset_fields sample = get_dataset_fields (_sample (self st)) ->
  Forall plain_name (get_dataset_fields sample) ->
  creates_the_file sample ->
  isinstance sample (type (_sample (self st))) = true ->
  let res := save_sample sample false st in
  completed (fst res) = true ->
  in_step (self (snd res)) field (disk (snd res)).
Proof.
  intros [S1 S2 S3 S4 S5 S6] Hfields Hplain Hcr Hty. cbn zeta.
  rewrite save_sample_sync by done.
  set (m := self st) in *. set (p := is_positive sample).
  set (path_of := fun f =>
    os_path.join (field_directory m p f)
      [file_name p f (own_count m p) (_positive_count (bump p m))
         (_negative_count (bump p m))]).
  assert (writer sample m (after_lock sample st)
          = for_each (get_dataset_fields sample)
              (fun f => call_save_field sample f (path_of f))
              (after_lock sample st)) as ->.
  { reflexivity. }
  pose proof (write_all sample path_of (get_dataset_fields sample)
                (after_lock sample st) Hcr) as Hw. cbn zeta in Hw.
  destruct (for_each (get_dataset_fields sample) _ (after_lock sample st))
    as [[[]|e] st'] eqn:Eloop; cbn [fst snd completed]; [|done].
  intros _. destruct (Hw eq_refl) as (W1 & W2 & W3 & W4). clear Hw.
  cbn [fst snd after_lock self disk] in *. fold m p in W1.
  rewrite W1, W2. rewrite W2 in W3, W4.
  assert (exists rest, get_dataset_fields sample = field :: rest)
    as [rest Hrest].
  { rewrite Hfields. destruct (get_dataset_fields (_sample m)); [done|].
    injection S1 as ->. eauto. }
  assert (plain_name field) as Hfield.
  { rewrite Hrest in Hplain. by inversion Hplain. }
  assert (forall f c a b, f ∈ get_dataset_fields sample ->
            plain_name (file_name p f c a b)) as Hname.
  { intros f c a b Hf. apply file_name_plain.
    rewrite Forall_forall in Hplain. by apply Hplain. }
  assert (disk st !! path_of field = None) as Hnew.
  { rewrite <- stat_lookup.
    - by apply S6.
    - apply join2_nonempty, Hname. rewrite Hrest. apply list_elem_of_here. }
  constructor.
  - exact S1.
  - rewrite exists_is_some. apply W4. by rewrite <- exists_is_some.
  - eapply Forall_impl; [exact S3|]. intros q. apply W4.
  - intros positive. apply W3, S4.
  - intros positive. rewrite own_count_bump.
    change (field_directory (bump p m) positive field)
      with (field_directory m positive field).
    rewrite <- (S5 positive). rewrite Hrest. cbn [map with_files foldl].
    fold (with_files (<[path_of field := File]> (disk st)) (map path_of rest)).
    rewrite regular_files_with_files.
    + destruct (Bool.eqb p positive) eqn:Hp.
      * apply Bool.eqb_prop in Hp. subst positive.
        apply regular_files_insert_new; [done|].
        unfold path_of. cbn [os_path.join fold_left].
        rewrite entry_name_join2
          by (apply Hname; rewrite Hrest; apply list_elem_of_here).
        rewrite bool_decide_eq_true_2 by done. eauto.
      * rewrite Nat.add_0_r. apply regular_files_insert_other.
        unfold path_of. cbn [os_path.join fold_left].
        rewrite entry_name_join2
          by (apply Hname; rewrite Hrest; apply list_elem_of_here).
        rewrite bool_decide_eq_false_2; [done|].
        intros [E _]%field_directory_prefix_inj; [|done..].
        subst positive. by rewrite Bool.eqb_reflx in Hp.
    + apply Forall_forall. intros q Hq.
      apply list_elem_of_In, in_map_iff in Hq as (f & <- & Hf).
      apply list_elem_of_In in Hf.
      assert (f ∈ get_dataset_fields sample) as Hf'.
      { rewrite Hrest. by apply list_elem_of_further. }
      unfold path_of at 1. cbn [os_path.join fold_left].
      rewrite entry_name_join2 by by apply Hname.
      case_bool_decide as Hpre; [|by left]. right.
      apply field_directory_prefix_inj in Hpre as [-> ->]; [|done|].
      * apply lookup_insert_eq.
      * rewrite Forall_forall in Hplain. by apply Hplain.
  - intros f positive count pc nc Hhead Hc.
    assert (f = field) as -> by (cbn in Hhead; congruence).
    change (field_directory (bump p m) positive field)
      with (field_directory m positive field).
    rewrite own_count_bump in Hc.
    set (k := os_path.join (field_directory m positive field)
                [file_name positive field count pc nc]).
    assert (k <> "") as Hk.
    { apply join2_nonempty, file_name_plain, Hfield. }
    rewrite stat_lookup, with_files_lookup by done.
    rewrite bool_decide_eq_false_2.
    + rewrite <- stat_lookup by done. apply S6; [done|lia].
    + intros Hin. apply list_elem_of_In, in_map_iff in Hin as (f & E & Hf).
      apply list_elem_of_In in Hf.
      apply (f_equal os_path.basename) in E. unfold path_of, k in E.
      cbn [os_path.join fold_left] in E.
      rewrite !basename_join2 in E
        by (apply file_name_plain; try apply Hfield;
            rewrite Forall_forall in Hplain; by apply Hplain).
      apply file_name_inj in E as [<- <-].
      rewrite Bool.eqb_reflx in Hc. lia.
Qed.

(** What construction leaves is in step, if the names to come are free. *)
Lemma init_in_step ds folder sample fs m fs1 :
  __init__ ds folder sample fs = (Returned m, fs1) ->
  names_free m fs1 ->
  exists field, in_step m field fs1.
Proof.
  intros Hinit Hfree.
  destruct (init_returned _ _ _ _ _ _ Hinit)
    as (Hset & field & rest & Hf & Hneg & Hpos & Hm).
  destruct (_set_up_folders_effect (blank ds folder sample) fs)
    as (Hmono & _ & _ & Hlay).
  rewrite Hset in Hmono, Hlay. cbn [fst snd] in *.
  destruct (Hlay eq_refl) as [Hroot Hall].
  pose proof (f_equal _dataset_path Hm) as M1.
  pose proof (f_equal _folder_name Hm) as M2.
  pose proof (f_equal _sample Hm) as M3.
  pose proof (f_equal _positive_count Hm) as M4.
  pose proof (f_equal _negative_count Hm) as M5.
  cbn [_dataset_path _folder_name _sample _positive_count _negative_count]
    in M1, M2, M3, M4, M5.
  exists field. constructor.
  - by rewrite M3, Hf.
  - rewrite M1. rewrite exists_is_some in *. destruct Hroot as [n Hn].
    exists n. by apply Hmono.
  - replace (layout m) with (layout (blank ds folder sample)); [exact Hall|].
    unfold layout. cbn [blank _dataset_path _folder_name _sample].
    by rewrite M1, M2, M3.
  - by intros [].
  - intros []; cbn [own_count]; congruence.
  - exact Hfree.
Qed.

(** A manager in step with the disk is the one construction returns. *)
Lemma in_step_init m field fs :
  in_step m field fs ->
  __init__ (_dataset_path m) (_folder_name m) (_sample m) fs = (Returned m, fs).
Proof.
  intros [S1 S2 S3 S4 S5 S6]. rewrite init_run.
  set (b := blank (_dataset_path m) (_folder_name m) (_sample m)).
  assert (_set_up_folders b fs = (Returned tt, fs)) as ->.
  { rewrite _set_up_folders_layout.
    change (_dataset_path b) with (_dataset_path m). rewrite S2.
    change (layout b) with (layout m).
    by apply (ensure_all_effect (layout m) fs). }
  rewrite _count_samples_run.
  change (_sample b) with (_sample m).
  destruct (get_dataset_fields (_sample m)) as [|f rest]; [done|].
  injection S1 as ->.
  change (field_directory b) with (field_directory m).
  rewrite !S4, !S5. cbn [fst snd own_count]. by destruct m.
Qed.

Lemma run_in_turn_in_step samples c field :
  in_step (self (proc c)) field (disk (proc c)) ->
  Forall plain_name (get_dataset_fields (_sample (self (proc c)))) ->
  Forall (fun s =>
            get_dataset_fields s = get_dataset_fields (_sample (self (proc c)))
            /\ creates_the_file s) samples ->
  Forall (fun r => completed r = true) (fst (run (in_turn samples) c)) ->
  let c' := snd (run (in_turn samples) c) in
  in_step (self (proc c')) field (disk (proc c')) /\
  _dataset_path (self (proc c')) = _dataset_path (self (proc c)) /\
  _folder_name (self (proc c')) = _folder_name (self (proc c)) /\
  _sample (self (proc c')) = _sample (self (proc c)).
Proof.
  revert c. induction samples as [|s samples IH];
    intros c Hstep Hplain Hall Hdone; [done|].
  cbn zeta. cbn [in_turn map] in *. fold (in_turn samples) in *.
  rewrite run_cons in *. cbn [fst snd] in *.
  inversion Hall as [|? ? [Hs Hcr] Hrest]; subst.
  inversion Hdone as [|? ? Hd1 Hd2]; subst.
  destruct (isinstance s (type (_sample (self (proc c))))) eqn:Hty.
  2:{ by rewrite save_sample_rejected in Hd1. }
  pose proof (save_keeps_in_step s (proc c) field Hstep Hs) as Hkeep.
  rewrite Hs in Hkeep. specialize (Hkeep Hplain Hcr Hty). cbn zeta in Hkeep.
  pose proof (save_sample_self s false (proc c)) as Hself.
  rewrite Hty in Hself.
  set (c1 := snd (do_action (Call s false) c)) in *.
  assert (proc c1 = snd (save_sample s false (proc c)) /\
          completed (fst (save_sample s false (proc c))) = true) as [Hp Hc].
  { unfold c1. unfold do_action in *.
    by destruct (save_sample s false (proc c)) as [[[t|]|e] st']. }
  assert (_dataset_path (self (proc c1)) = _dataset_path (self (proc c)) /\
          _folder_name (self (proc c1)) = _folder_name (self (proc c)) /\
          _sample (self (proc c1)) = _sample (self (proc c)))
    as (P1 & P2 & P3).
  { rewrite Hp, Hself. by destruct (is_positive s). }
  destruct (IH c1) as (I1 & I2 & I3 & I4).
  - rewrite Hp. by apply Hkeep.
  - by rewrite P3.
  - by rewrite P3.
  - done.
  - cbn zeta in *. split; [done|]. by rewrite I2, I3, I4.
Qed.

(** X12.  The counters survive a restart.  Construct a manager on a tree in
    which the names still to come are free; let samples with the reference
    fields, whose fields are plain names and whose [save_field] creates the
    file it is given, be saved synchronously, each save returning.  Then
    constructing again on the resulting disk returns the very object the
    saves have left, counters included, and changes nothing on the disk;
    and the names to come are free again. *)
Theorem counters_survive_a_restart
    (ds folder : string) (sample : GenericSample) (fs fs1 : filesystem)
    (m : DatasetDiskManager) (samples : list GenericSample) :
  __init__ ds folder sample fs = (Returned m, fs1) ->
  names_free m fs1 ->
  Forall plain_name (get_dataset_fields sample) ->
  Forall (fun s => get_dataset_fields s = get_dataset_fields sample
                   /\ creates_the_file s) samples ->
  Forall (fun r => completed r = true)
    (fst (run (in_turn samples) (start m fs1))) ->
  let c := snd (run (in_turn samples) (start m fs1)) in
  __init__ ds folder sample (disk (proc c))
  = (Returned (self (proc c)), disk (proc c)) /\
  names_free (self (proc c)) (disk (proc c)).
Proof.
  intros Hinit Hfree Hplain Hall Hdone. cbn zeta.
  destruct (init_in_step _ _ _ _ _ _ Hinit Hfree) as [field Hstep].
  destruct (init_returned _ _ _ _ _ _ Hinit)
    as (_ & field0 & rest0 & _ & _ & _ & Hm).
  pose proof (f_equal _dataset_path Hm) as M1.
  pose proof (f_equal _folder_name Hm) as M2.
  pose proof (f_equal _sample Hm) as M3.
  cbn [_dataset_path _folder_name _sample] in M1, M2, M3. clear Hm.
  destruct (run_in_turn_in_step samples (start m fs1) field)
    as (I1 & I2 & I3 & I4); cbn [start proc self disk]; try done;
    try by rewrite M3.
  cbn [start proc self] in *.
  split; [|apply I1].
  rewrite <- M1 at 1. rewrite <- M2 at 1. rewrite <- M3 at 1.
  rewrite <- I2, <- I3, <- I4. by apply in_step_init with field.
Qed.

Lemma write_file_creates field path fs fs' :
  write_file field path fs = (Returned tt, fs') ->
  fs' = <[path := File]> fs /\ stat fs path <> Some Dir.
Proof.
  unfold write_file.
  destruct (stat fs (os_path.dirname path)) as [[]|]; [|done..].
  destruct (stat fs path) as [[]|]; [done|..]; by intros [= <-].
Qed.

Lemma sample_ab_creates_the_file positive :
  creates_the_file (sample_ab positive).
Proof. intros field path fs fs'. apply write_file_creates. Qed.

(** On a tree whose first-field directories have no entry every name is
    free. *)
Lemma empty_directories_names_free m (fs : filesystem) :
  Forall plain_name (get_dataset_fields (_sample m)) ->
  (forall field positive,
      head (get_dataset_fields (_sample m)) = Some field ->
      os.entries fs (field_directory m positive field) = []) ->
  names_free m fs.
Proof.
  intros Hplain Hempty field positive count pc nc Hhead _.
  assert (plain_name field) as Hfield.
  { destruct (get_dataset_fields (_sample m)) as [|f l]; [done|].
    injection Hhead as ->. by inversion Hplain. }
  pose proof (file_name_plain positive field count pc nc (proj2 Hfield))
    as Hname.
  set (name := file_name positive field count pc nc) in *.
  set (d := field_directory m positive field).
  cbn [os_path.join fold_left].
  destruct (stat fs (os_path.join2 d name)) as [n|] eqn:E; [|done].
  exfalso. rewrite stat_lookup in E by by apply join2_nonempty, Hname.
  assert (name ∈ os.entries fs d) as Hin.
  { unfold os.entries. apply list_elem_of_omap.
    exists (os_path.join2 d name). split.
    - apply list_elem_of_fmap. exists (os_path.join2 d name, n).
      split; [done|]. by apply elem_of_map_to_list.
    - rewrite entry_name_join2 by done. by rewrite bool_decide_eq_true_2. }
  unfold d in Hin. rewrite (Hempty field positive Hhead) in Hin.
  by apply not_elem_of_nil in Hin.
Qed.

Lemma counters_survive_a_restart_witness :
  let c := snd (run (in_turn [sample_ab true; sample_ab false; sample_ab true])
                  (start fresh_manager fresh_disk)) in
  __init__ "/data/ds" "folder" (sample_ab true) (disk (proc c))
  = (Returned (self (proc c)), disk (proc c)) /\
  names_free (self (proc c)) (disk (proc c)).
Proof.
  apply (counters_survive_a_restart "/data/ds" "folder" (sample_ab true)
           root_disk fresh_disk fresh_manager
           [sample_ab true; sample_ab false; sample_ab true]).
  - vm_compute. reflexivity.
  - apply empty_directories_names_free.
    + repeat constructor; done.
    + intros field positive [= <-]. by destruct positive; vm_compute.
  - repeat constructor; done.
  - repeat (apply List.Forall_cons;
              [split; [reflexivity|apply sample_ab_creates_the_file]|]).
    apply List.Forall_nil.
  - vm_compute. repeat constructor.
Defined.

(** ** What a save and a count see of a directory *)

Lemma regular_files_with_files_one fs paths d q :
  q ∈ paths -> fs !! q = None -> is_Some (os.entry_name d q) ->
  Forall (fun q' => os.entry_name d q' = None \/ q' = q) paths ->
  regular_files (with_files fs paths) d = regular_files fs d + 1.
Proof.
  revert fs. induction paths as [|q' paths IH]; intros fs Hin Hq Hd Hall.
  - by apply not_elem_of_nil in Hin.
  - inversion Hall as [|? ? H1 H2]; subst.
    cbn [with_files foldl]. fold (with_files (<[q' := File]> fs) paths).
    destruct (decide (q' = q)) as [->|Hne].
    + rewrite regular_files_with_files.
      * by apply regular_files_insert_new.
      * eapply Forall_impl; [exact H2|]. intros x [Hx| ->]; [by left|].
        right. apply lookup_insert_eq.
    + destruct H1 as [H1|H1]; [|done].
      apply elem_of_cons in Hin as [Hin|Hin]; [done|].
      rewrite IH; try done.
      * by rewrite regular_files_insert_other.
      * by rewrite lookup_insert_ne.
Qed.

Lemma spec_requests_paths m sample :
  spec_requests m sample
  = map (fun f =>
           (f, os_path.join (field_directory m (is_positive sample) f)
                 [file_name (is_positive sample) f
                    (own_count m (is_positive sample))
                    (_positive_count (bump (is_positive sample) m))
                    (_negative_count (bump (is_positive sample) m))]))
      (get_dataset_fields sample).
Proof.
  unfold spec_requests. apply map_ext. intros f.
  by rewrite file_name_spec, bump_total.
Qed.

(** X13.  A synchronous save that returns adds exactly one regular file to
    each field directory of the polarity of the sample and none to the
    directories of the other polarity, when the fields are plain names, the
    paths it requests were free and [save_field] creates the file it is
    given. *)
Theorem completed_save_adds_one_file_per_field
    (sample : GenericSample) (st : process) :
  isinstance sample (type (_sample (self st))) = true ->
  Forall plain_name (get_dataset_fields sample) ->
  creates_the_file sample ->
  Forall (fun req => stat (disk st) (snd req) = None)
    (spec_requests (self st) sample) ->
  let res := save_sample sample false st in
  completed (fst res) = true ->
  forall field positive,
    field ∈ get_dataset_fields sample ->
    regular_files (disk (snd res)) (field_directory (self st) positive field)
    = regular_files (disk st) (field_directory (self st) positive field)
      + (if Bool.eqb (is_positive sample) positive then 1 else 0).
Proof.
  intros Hty Hplain Hcr Hfree. cbn zeta.
  rewrite save_sample_sync by done.
  set (m := self st) in *. set (p := is_positive sample) in *.
  rewrite spec_requests_paths in Hfree. fold p in Hfree.
  set (path_of := fun f =>
    os_path.join (field_directory m p f)
      [file_name p f (own_count m p) (_positive_count (bump p m))
         (_negative_count (bump p m))]) in *.
  assert (writer sample m (after_lock sample st)
          = for_each (get_dataset_fields sample)
              (fun f => call_save_field sample f (path_of f))
              (after_lock sample st)) as -> by reflexivity.
  pose proof (write_all sample path_of (get_dataset_fields sample)
                (after_lock sample st) Hcr) as Hw. cbn zeta in Hw.
  destruct (for_each (get_dataset_fields sample) _ (after_lock sample st))
    as [[[]|e] st'] eqn:Eloop; cbn [fst snd completed]; [|done].
  intros _ field positive Hfield.
  destruct (Hw eq_refl) as (_ & W2 & _). clear Hw.
  cbn [fst snd after_lock self disk] in *. rewrite W2.
  assert (forall f, f ∈ get_dataset_fields sample ->
            plain_name f /\
            plain_name (file_name p f (own_count m p)
                          (_positive_count (bump p m))
                          (_negative_count (bump p m)))) as Hname.
  { intros f Hf. rewrite Forall_forall in Hplain.
    split; [by apply Hplain|]. by apply file_name_plain, Hplain. }
  assert (forall f, f ∈ get_dataset_fields sample ->
            os.entry_name (field_directory m positive field) (path_of f)
            = if bool_decide (positive = p /\ field = f)
              then Some (file_name p f (own_count m p)
                           (_positive_count (bump p m))
                           (_negative_count (bump p m)))
              else None) as Hentry.
  { intros f Hf. unfold path_of. cbn [os_path.join fold_left].
    rewrite entry_name_join2 by by apply Hname.
    case_bool_decide as H1; case_bool_decide as H2; try done.
    - destruct H2. apply field_directory_prefix_inj in H1; [done|..];
        by apply Hname.
    - destruct H1. by destruct H2 as [-> ->]. }
  destruct (Bool.eqb p positive) eqn:Hp.
  - apply Bool.eqb_prop in Hp. subst positive.
    apply (regular_files_with_files_one _ _ _ (path_of field)).
    + apply list_elem_of_fmap. by exists field.
    + rewrite Forall_forall in Hfree.
      rewrite <- stat_lookup by by apply join2_nonempty, Hname.
      apply (Hfree (field, path_of field)).
      apply list_elem_of_fmap. by exists field.
    + rewrite Hentry by done. rewrite bool_decide_eq_true_2 by done. eauto.
    + apply Forall_forall. intros q Hq.
      apply list_elem_of_fmap in Hq as (f & -> & Hf).
      rewrite Hentry by done. case_bool_decide as H; [|by left].
      right. by destruct H as [_ ->].
  - rewrite Nat.add_0_r. apply regular_files_with_files.
    apply Forall_forall. intros q Hq.
    apply list_elem_of_fmap in Hq as (f & -> & Hf).
    left. rewrite Hentry by done. rewrite bool_decide_eq_false_2; [done|].
    intros [-> _]. by rewrite Bool.eqb_reflx in Hp.
Qed.

Lemma completed_save_adds_one_file_per_field_witness :
  let res := save_sample (sample_ab false) false fresh_process in
  regular_files (disk (snd res))
    (field_directory (self fresh_process) false "b")
  = regular_files (disk fresh_process)
      (field_directory (self fresh_process) false "b")
    + (if Bool.eqb (is_positive (sample_ab false)) false then 1 else 0).
Proof.
  apply (completed_save_adds_one_file_per_field (sample_ab false)
           fresh_process).
  - reflexivity.
  - repeat constructor; done.
  - apply sample_ab_creates_the_file.
  - vm_compute. repeat constructor.
  - vm_compute. reflexivity.
  - apply list_elem_of_further, list_elem_of_here.
Defined.

Lemma append_self_inv (a b : string) : a +:+ b = a -> b = "".
Proof.
  intros E. apply (append_inv_head a). by rewrite append_empty_r.
Qed.

Lemma dir_prefix_append_ne d b : b <> "" -> dir_prefix d +:+ b <> d.
Proof.
  intros Hb. unfold dir_prefix. destruct (_ || _).
  - by intros E%append_self_inv.
  - rewrite append_assoc. intros E%append_self_inv. done.
Qed.

(** X14.  The count of a directory is the number of regular files directly
    in it: a new regular file in the directory raises it by one, a new
    subdirectory leaves it as it is, and so does a file written inside a
    subdirectory. *)
Theorem count_files_counts_direct_regular_files
    (d name sub : string) (fs : filesystem) :
  stat fs d = Some Dir ->
  plain_name name -> plain_name sub ->
  stat fs (os_path.join d [name]) = None ->
  exists n,
    fst (count_files d fs) = Returned n /\
    fst (count_files d (<[os_path.join d [name] := File]> fs))
    = Returned (n + 1) /\
    fst (count_files d (<[os_path.join d [name] := Dir]> fs)) = Returned n /\
    fst (count_files d (<[os_path.join d [sub; name] := File]> fs))
    = Returned n.
Proof.
  intros Hd Hname Hsub Hfree. cbn [os_path.join fold_left] in *.
  assert (os_path.join2 d name <> "") as Hk
    by by apply join2_nonempty, Hname.
  assert (os_path.join2 d name <> d) as Hkd.
  { rewrite join2_spelling by by apply no_sep_startswith, Hname.
    by apply dir_prefix_append_ne, Hname. }
  assert (os_path.join2 (os_path.join2 d sub) name <> d) as Hkd'.
  { rewrite (join2_spelling _ name) by by apply no_sep_startswith, Hname.
    rewrite (join2_spelling _ sub) by by apply no_sep_startswith, Hsub.
    rewrite dir_prefix_plain by done. rewrite !append_assoc.
    apply dir_prefix_append_ne. by destruct Hsub as [? _], sub. }
  exists (regular_files fs d).
  rewrite !count_files_run, !stat_insert_ne, Hd by done. cbn [fst].
  repeat split.
  - f_equal. apply regular_files_insert_new.
    + by rewrite <- stat_lookup.
    + rewrite entry_name_join2 by done.
      rewrite bool_decide_eq_true_2 by done. eauto.
  - f_equal. by apply regular_files_mkdir.
  - f_equal. apply regular_files_insert_other.
    rewrite entry_name_join2 by done.
    rewrite bool_decide_eq_false_2; [done|].
    rewrite (join2_spelling _ sub) by by apply no_sep_startswith, Hsub.
    rewrite dir_prefix_plain by done. intros E. symmetry in E.
    apply append_self_inv in E.
    by destruct Hsub as [? _], sub.
Qed.

Lemma count_files_counts_direct_regular_files_witness :
  exists n,
    fst (count_files "/d" small_disk) = Returned n /\
    fst (count_files "/d" (<[os_path.join "/d" ["z"] := File]> small_disk))
    = Returned (n + 1) /\
    fst (count_files "/d" (<[os_path.join "/d" ["z"] := Dir]> small_disk))
    = Returned n /\
    fst (count_files "/d"
           (<[os_path.join "/d" ["sub"; "z"] := File]> small_disk))
    = Returned n.
Proof.
  apply (count_files_counts_direct_regular_files "/d" "z" "sub" small_disk).
  - reflexivity.
  - done.
  - done.
  - reflexivity.
Defined.

(** ** Concurrent callers: the totals in the file names *)

Lemma task_step_numbering m i sh t sh' t' :
  task_step m i sh t = Some (sh', t') ->
  task_ok sh i t ->
  shared_positive_count sh + shared_negative_count sh
  = _positive_count m + _negative_count m + length (shared_ledger sh) ->
  total_ok m sh i t ->
  shared_positive_count sh' + shared_negative_count sh'
  = _positive_count m + _negative_count m + length (shared_ledger sh') /\
  total_ok m sh' i t' /\
  (forall j tj,
      (in_lock (task_at t) = true -> in_lock (task_at tj) = false) ->
      total_ok m sh j tj -> total_ok m sh' j tj).
Proof.
  unfold task_step, task_ok, total_ok.
  destruct t as [sample pt]. cbn [task_sample task_at].
  destruct pt as [| | | |count|count loaded|count|count pc|count pc nc
                  |count pc nc [|field rest]|count pc nc e|]; try done.
  - destruct (isinstance sample (type (_sample m)));
      intros [= <- <-]; cbn; intros _ Htot _; repeat split; done.
  - destruct (shared_locked sh); [done|].
    intros [= <- <-]; cbn; intros _ Htot _; repeat split; done.
  - intros [= <- <-]; cbn; intros _ Htot _; repeat split; done.
  - intros [= <- <-]; cbn; intros _ Htot _; repeat split; done.
  - intros [= <- <-]; cbn; intros _ Htot _; repeat split; done.
  - intros [= <- <-]. cbn [task_sample task_at store_count shared_ledger
      shared_positive_count shared_negative_count taken].
    intros [-> ->] Htot _. split; [|split].
    + rewrite length_app. cbn [length]. unfold shared_count.
      destruct (is_positive sample); lia.
    + by rewrite last_snoc.
    + intros j tj Hout. specialize (Hout eq_refl).
      destruct (task_at tj); try done;
        intros (k & Hk & Hsum); exists k;
        (split; [by apply lookup_app_l_Some|done]).
  - intros [= <- <-]; cbn; intros _ Htot Hlast; repeat split; done.
  - intros [= <- <-]; cbn [task_sample task_at].
    intros _ Htot [Hlast ->]. repeat split; try done.
    exists (pred (length (shared_ledger sh))).
    rewrite last_lookup in Hlast. split; [done|].
    destruct (shared_ledger sh); [done|]. cbn [length pred] in *. lia.
  - intros [= <- <-]; cbn; intros _ Htot Hk; repeat split; done.
  - destruct (save_field sample field _ (shared_disk sh)) as [[[]|e] fs];
      intros [= <- <-]; cbn; intros _ Htot Hk; repeat split; done.
Qed.

Lemma schedule_step_numbering m st i :
  invariant m st -> numbering m st -> numbering m (schedule_step m st i).
Proof.
  intros Hinv [N1 N2]. unfold schedule_step.
  destruct (sys_tasks st !! i) as [t|] eqn:Hi; [|done].
  destruct (task_step m i (sys_shared st) t) as [[sh' t']|] eqn:Hstep; [|done].
  destruct (task_step_numbering _ _ _ _ _ _ Hstep
              (inv_tasks _ _ Hinv i t Hi) N1 (N2 i t Hi)) as (H1 & H2 & H3).
  constructor; cbn [sys_shared sys_tasks]; [done|].
  intros j tj Hj.
  destruct (lookup_update _ _ _ _ _ _ Hi Hj) as [[-> ->]|[Hne Hj']]; [done|].
  apply H3; [|by apply N2].
  intros Hin. destruct (in_lock (task_at tj)) eqn:Hin'; [|done].
  destruct Hne. symmetry. by apply (inv_exclusive _ _ Hinv i j t tj).
Qed.

Lemma concurrent_start_numbering m fs callers :
  numbering m (concurrent_start m fs callers).
Proof.
  constructor; cbn [concurrent_start sys_shared sys_tasks shared_ledger
    shared_positive_count shared_negative_count length]; [lia|].
  intros j t Hj. apply list_elem_of_lookup_2 in Hj.
  apply list_elem_of_In, in_map_iff in Hj as (s & <- & _). done.
Qed.

Lemma run_schedule_numbering m schedule st :
  invariant m st -> numbering m st ->
  numbering m (run_schedule m schedule st).
Proof.
  revert st. induction schedule as [|i schedule IH]; intros st Hinv Hnum;
    [done|].
  cbn. apply IH; [by apply schedule_step_invariant|].
  by apply schedule_step_numbering.
Qed.

Lemma snapshot_rank m sh i t count pc nc :
  total_ok m sh i t -> snapshot (task_at t) = Some (count, pc, nc) ->
  exists k,
    shared_ledger sh !! k
    = Some {| entry_task := i; entry_positive := is_positive (task_sample t);
              entry_count := count |} /\
    pc + nc = _positive_count m + _negative_count m + k + 1.
Proof.
  unfold total_ok.
  destruct (task_at t); try done; cbn; by intros H [= -> -> ->].
Qed.

(** X15.  Also when the calls interleave, the total in the file names
    numbers the saves: the totals two calls have taken differ, and each lies
    above the initial sum of the counters and at most at the present one. *)
Theorem interleaved_totals_are_distinct
    (m : DatasetDiskManager) (fs : filesystem)
    (callers : list GenericSample) (schedule : list nat)
    (i j : nat) (ti tj : task) (ci pi ni cj pj nj : nat) :
  let st := run_schedule m schedule (concurrent_start m fs callers) in
  sys_tasks st !! i = Some ti -> sys_tasks st !! j = Some tj ->
  snapshot (task_at ti) = Some (ci, pi, ni) ->
  snapshot (task_at tj) = Some (cj, pj, nj) ->
  (i <> j -> pi + ni <> pj + nj) /\
  _positive_count m + _negative_count m < pi + ni /\
  pi + ni <= shared_positive_count (sys_shared st)
             + shared_negative_count (sys_shared st).
Proof.
  cbn zeta. intros Hi Hj Hsi Hsj.
  pose proof (run_schedule_numbering m schedule _
                (concurrent_start_invariant m fs callers)
                (concurrent_start_numbering m fs callers)) as [N1 N2].
  destruct (snapshot_rank _ _ _ _ _ _ _ (N2 i ti Hi) Hsi) as (k & Hk & Hsum).
  destruct (snapshot_rank _ _ _ _ _ _ _ (N2 j tj Hj) Hsj) as (k' & Hk' & Hsum').
  split; [|split].
  - intros Hne Heq. assert (k = k') as -> by lia.
    rewrite Hk in Hk'. by injection Hk' as -> _ _.
  - lia.
  - apply lookup_lt_Some in Hk. lia.
Qed.

Lemma interleaved_totals_are_distinct_witness :
  let st := run_schedule fresh_manager racing_schedule
              (concurrent_start fresh_manager fresh_disk
                 [sample_ab true; sample_ab true]) in
  (0 <> 1 -> 2 + 0 <> 1 + 0) /\
  _positive_count fresh_manager + _negative_count fresh_manager < 2 + 0 /\
  2 + 0 <= shared_positive_count (sys_shared st)
           + shared_negative_count (sys_shared st).
Proof.
  apply (interleaved_totals_are_distinct fresh_manager fresh_disk
           [sample_ab true; sample_ab true] racing_schedule 0 1
           {| task_sample := sample_ab true; task_at := AtWrite 1 2 0 [] |}
           {| task_sample := sample_ab true; task_at := AtWrite 0 1 0 [] |}
           1 2 0 0 1 0).
  - vm_compute. reflexivity.
  - vm_compute. reflexivity.
  - reflexivity.
  - reflexivity.
Defined.
